(** * Second Brain backend: a shallow embedding of the content coordinator

    The development follows the Express application (index.ts), the
    Mongoose schemas (db.ts) and the embedding service
    (embeddingService.ts).  Every route handler becomes a function from
    the state of the stores to a response and a new state.  The document
    store, the vector index, the metadata lookup and the embedding model
    are collaborators: what they hold is state, what they answer and
    whether a call to them throws is given by an environment. *)

From Stdlib Require Import List String Ascii Bool Arith ZArith QArith Qround Lia.
From Stdlib Require Import Sorted.
Import ListNotations.

Local Open Scope string_scope.
Local Open Scope list_scope.
Local Open Scope nat_scope.

(** ** JavaScript numbers, as far as the handlers use them *)

Module Js.

(** A number is NaN, an infinity, or a finite value.  Finite values are
    kept as exact rationals; [-0] and [0] are one value. *)
Inductive Number :=
| NaN
| PosInf
| NegInf
| Fin (q : Q).

Definition ofNat (n : nat) : Number := Fin (inject_Z (Z.of_nat n)).
Definition ofZ (z : Z) : Number := Fin (inject_Z z).

(** Truthiness of a number: [0] and [NaN] are falsy. *)
Definition truthy (x : Number) : bool :=
  match x with
  | NaN => false
  | Fin q => negb (Qeq_bool q 0)
  | PosInf | NegInf => true
  end.

(** [x || y] on numbers. *)
Definition or (x y : Number) : Number := if truthy x then x else y.

(** [Math.max(a, b)] and [Math.min(a, b)]: NaN if either is NaN. *)
Definition max (a b : Number) : Number :=
  match a, b with
  | NaN, _ | _, NaN => NaN
  | PosInf, _ | _, PosInf => PosInf
  | NegInf, x | x, NegInf => x
  | Fin p, Fin q => if Qle_bool p q then Fin q else Fin p
  end.

Definition min (a b : Number) : Number :=
  match a, b with
  | NaN, _ | _, NaN => NaN
  | NegInf, _ | _, NegInf => NegInf
  | PosInf, x | x, PosInf => x
  | Fin p, Fin q => if Qle_bool p q then Fin p else Fin q
  end.

(** [a - b], [a * b], [a / b] with the IEEE rules for the special
    values (rounding of finite results is not modelled). *)
Definition sub (a b : Number) : Number :=
  match a, b with
  | NaN, _ | _, NaN => NaN
  | PosInf, PosInf | NegInf, NegInf => NaN
  | PosInf, _ | _, NegInf => PosInf
  | NegInf, _ | _, PosInf => NegInf
  | Fin p, Fin q => Fin (p - q)
  end.

Definition sign (x : Number) : comparison :=
  match x with
  | NaN => Eq
  | PosInf => Gt
  | NegInf => Lt
  | Fin q => (q ?= 0)%Q
  end.

Definition mul (a b : Number) : Number :=
  match a, b with
  | NaN, _ | _, NaN => NaN
  | Fin p, Fin q => Fin (p * q)
  | _, _ =>
      match sign a, sign b with
      | Eq, _ | _, Eq => NaN
      | Gt, Gt | Lt, Lt => PosInf
      | Gt, Lt | Lt, Gt => NegInf
      end
  end.

Definition div (a b : Number) : Number :=
  match a, b with
  | NaN, _ | _, NaN => NaN
  | Fin p, Fin q =>
      match sign b, sign a with
      | Eq, Eq => NaN
      | Eq, Gt => PosInf
      | Eq, Lt => NegInf
      | _, _ => Fin (p / q)
      end
  | Fin _, _ => Fin 0
  | _, Fin _ =>
      match sign a, sign b with
      | Gt, Lt | Lt, Gt | Lt, Eq => NegInf
      | _, _ => PosInf
      end
  | _, _ => NaN
  end.

(** [Math.ceil]. *)
Definition ceil (x : Number) : Number :=
  match x with
  | Fin q => Fin (inject_Z (Qceiling q))
  | _ => x
  end.

(** [a < b] and [a > b]: false as soon as one side is NaN. *)
Definition lt (a b : Number) : bool :=
  match a, b with
  | NaN, _ | _, NaN => false
  | _, NegInf | PosInf, _ => false
  | NegInf, _ | _, PosInf => true
  | Fin p, Fin q => negb (Qle_bool q p)
  end.

Definition gt (a b : Number) : bool := lt b a.

(** [a >= b]. *)
Definition ge (a b : Number) : bool :=
  match a, b with
  | NaN, _ | _, NaN => false
  | _, NegInf | PosInf, _ => true
  | NegInf, _ | _, PosInf => false
  | Fin p, Fin q => Qle_bool q p
  end.

(** The number is a non-negative integer: what a cursor accepts as a
    count of documents. *)
Definition toCount (x : Number) : option nat :=
  match x with
  | Fin q =>
      if Qeq_bool q (inject_Z (Qfloor q)) && (0 <=? Qfloor q)%Z
      then Some (Z.to_nat (Qfloor q)) else None
  | _ => None
  end.

End Js.

(** ** Data model (db.ts) *)

(** Identifiers are the store's ObjectIds.  An ObjectId is drawn when a
    document is constructed; later ids are larger, which is what
    [sort({ _id: -1 })] relies on to mean "most recent first".  The
    string form of an id ([toString]) is identified with the id. *)
Definition ObjectId := nat.

(** [contentTypes] *)
Inductive ContentType := Image | Video | Article | Audio.

(** [userSchema] *)
Record User := mkUser {
  u_id : ObjectId;
  u_username : string;
  u_isShared : bool
}.

(** [tagSchema] *)
Record Tag := mkTag {
  t_id : ObjectId;
  t_title : string
}.

(** [contentSchema] *)
Record Content := mkContent {
  c_id : ObjectId;
  c_link : string;
  c_type : ContentType;
  c_title : string;
  c_youtubeTitle : string;
  c_youtubeDescription : string;
  c_thumbnailUrl : string;
  c_embeddingId : option ObjectId;
  c_tags : list ObjectId;
  c_userId : ObjectId
}.

(** A content document after [populate("tags", "title")]: every tag id
    that still names a Tag is replaced by that Tag, the others are left
    out. *)
Record Populated := mkPopulated {
  p_doc : Content;
  p_tags : list Tag
}.

(** Embedding vectors and the records of the vector index. *)
Definition Vector := list Q.

Record Metadata := mkMetadata {
  m_userId : ObjectId;
  m_link : string;
  m_type : ContentType;
  m_title : string
}.

Record VectorRecord := mkVectorRecord {
  v_id : ObjectId;
  v_values : Vector;
  v_metadata : Metadata
}.

(** One match of a similarity query; the score may be missing. *)
Record Match := mkMatch {
  match_id : ObjectId;
  match_score : option Js.Number
}.

(** The [snippet] of a video in the metadata lookup's answer. *)
Record Snippet := mkSnippet {
  s_title : string;
  s_description : string;
  s_thumbnail : option string
}.

(** The state of the stores. *)
Record World := mkWorld {
  users : list User;
  contents : list Content;
  tagColl : list Tag;
  vectors : list VectorRecord;
  nextId : ObjectId
}.

(** ** Responses *)

(** One item of a shared brain. *)
Record SharedContent := mkSharedContent {
  sc_id : ObjectId;
  sc_type : ContentType;
  sc_link : string;
  sc_title : string;
  sc_youtubeTitle : string;
  sc_youtubeDescription : string;
  sc_thumbnailUrl : string;
  sc_tags : list string
}.

(** The page of a listing. *)
Record Page := mkPage {
  pg_results : list Populated;
  pg_total : nat;
  pg_page : Js.Number;
  pg_totalPages : Js.Number;
  pg_hasNextPage : bool;
  pg_hasPrevPage : bool
}.

Inductive Body :=
| BError (error : string)
| BContentSaved (message : string) (content : Content)
| BPage (page : Page)
| BMessage (message : string)
| BResults (results : list Populated)
| BSharedBrain (username : string) (content : list SharedContent).

Record Response := mkResponse {
  status : nat;
  body : Body
}.

(** ** Collaborators *)

(** The places where a handler awaits a collaborator.  Calls made in a
    loop carry the index of the iteration. *)
Inductive CallSite :=
| TagFindOne (i : nat)
| TagSave (i : nat)
| YoutubeGet
| GetEmbedding
| ContentCreate
| PineconeUpsert
| ContentBackfill
| ContentFind
| ContentCount
| ContentFindById
| PineconeDelete
| ContentExists (i : nat)
| TagDelete (i : nat)
| ContentDelete
| PineconeQuery
| UserFindById.

(** What the collaborators answer during one request. *)
Record Env := mkEnv {
  (** the call at this site rejects (the store is unreachable, the
      lookup times out, the model cannot be loaded, ...) *)
  fails : CallSite -> bool;
  (** [youtubeResponse.data.items] for a video id *)
  youtubeItems : string -> list Snippet;
  (** the embedding of a text *)
  embedding : string -> Vector;
  (** [queryResponse.matches] of the vector index, given what it holds,
      the query vector and [topK] *)
  queryMatches : list VectorRecord -> Vector -> nat -> option (list Match)
}.

(** ** Handler computations

    A handler body runs on the stores and ends in one of three ways: it
    goes on with a value, it has sent its response ([return res...]), or
    an exception is in flight. *)

Inductive outcome (A : Type) :=
| Val (a : A)
| Sent (r : Response)
| Thrown.
Arguments Val {A} a.
Arguments Sent {A} r.
Arguments Thrown {A}.

Definition M (A : Type) := World -> outcome A * World.

Definition ret {A} (a : A) : M A := fun w => (Val a, w).

Definition bind {A B} (m : M A) (k : A -> M B) : M B :=
  fun w =>
    match m w with
    | (Val a, w') => k a w'
    | (Sent r, w') => (Sent r, w')
    | (Thrown, w') => (Thrown, w')
    end.

Definition send {A} (r : Response) : M A := fun w => (Sent r, w).

Definition throw {A} : M A := fun w => (Thrown, w).

(** [try { m } catch { h }] *)
Definition tryCatch {A} (m : M A) (h : M A) : M A :=
  fun w =>
    match m w with
    | (Thrown, w') => h w'
    | r => r
    end.

Declare Scope handler_scope.
Delimit Scope handler_scope with handler.
Notation "x <- m ;; k" := (bind m (fun x => k))
  (at level 61, m at next level, right associativity) : handler_scope.
Notation "m ;; k" := (bind m (fun _ => k))
  (at level 61, right associativity) : handler_scope.

(** A whole route handler: the body inside [try], and the response of
    the [catch] block. *)
Definition handle (body : M Response) (onError : Response) (w : World)
  : Response * World :=
  match body w with
  | (Val r, w') => (r, w')
  | (Sent r, w') => (r, w')
  | (Thrown, w') => (onError, w')
  end.

(** ** The source-identifier pattern (index.ts, extractYouTubeVideoId) *)

Module VideoId.

(** [[a-zA-Z0-9_-]] *)
Definition isIdChar (c : ascii) : bool :=
  let n := nat_of_ascii c in
  ((97 <=? n) && (n <=? 122)) || ((65 <=? n) && (n <=? 90))
  || ((48 <=? n) && (n <=? 57)) || (n =? 95) || (n =? 45).

(** [.] matches everything but a line terminator.  (A string is a
    sequence of 8-bit code units here, so the terminators are LF and
    CR.) *)
Definition isLineTerminator (c : ascii) : bool :=
  let n := nat_of_ascii c in (n =? 10) || (n =? 13).

(** [([a-zA-Z0-9_-]{n})] at the start of [s]: the captured text. *)
Fixpoint takeId (n : nat) (s : string) : option string :=
  match n with
  | O => Some EmptyString
  | S n' =>
      match s with
      | String c s' =>
          if isIdChar c
          then option_map (String c) (takeId n' s')
          else None
      | EmptyString => None
      end
  end.

Fixpoint drop (n : nat) (s : string) : string :=
  match n, s with
  | S n', String _ s' => drop n' s'
  | _, _ => s
  end.

(** [.*(?:\?|&)v=([a-zA-Z0-9_-]{11})] at the start of [s].  The star
    is greedy: the match that lets [.*] run furthest is taken. *)
Fixpoint afterHost (s : string) : option string :=
  match s with
  | EmptyString => None
  | String c s' =>
      match (if isLineTerminator c then None else afterHost s') with
      | Some id => Some id
      | None =>
          if Ascii.eqb c "?"%char || Ascii.eqb c "&"%char
          then match s' with
               | String "v"%char (String "="%char r) => takeId 11 r
               | _ => None
               end
          else None
      end
  end.

(** The whole pattern anchored at the start of [s]: the first
    alternative, then the second. *)
Definition matchHere (s : string) : option string :=
  let short :=
    if String.prefix "youtu.be/" s then takeId 11 (drop 9 s) else None in
  if String.prefix "youtube.com" s
  then match afterHost (drop 11 s) with
       | Some id => Some id
       | None => short
       end
  else short.

(** [url.match(regex)]: the leftmost position where the pattern
    matches. *)
Fixpoint search (s : string) : option string :=
  match matchHere s with
  | Some id => Some id
  | None =>
      match s with
      | EmptyString => None
      | String _ s' => search s'
      end
  end.

End VideoId.

(** [function extractYouTubeVideoId(url: string): string | null] *)
Definition extractYouTubeVideoId (url : string) : option string :=
  VideoId.search url.

(** ** Collections *)

Definition findTagByTitle (title : string) (coll : list Tag) : option Tag :=
  find (fun t => String.eqb (t_title t) title) coll.

Definition findContentById (id : ObjectId) (coll : list Content)
  : option Content :=
  find (fun c => c_id c =? id) coll.

Definition findUserById (id : ObjectId) (coll : list User) : option User :=
  find (fun u => u_id u =? id) coll.

Definition setEmbeddingId (v : option ObjectId) (c : Content) : Content :=
  mkContent (c_id c) (c_link c) (c_type c) (c_title c) (c_youtubeTitle c)
    (c_youtubeDescription c) (c_thumbnailUrl c) v (c_tags c) (c_userId c).

(** The update that saving a changed document sends: the changed path of
    the document with that [_id]. *)
Definition updateEmbeddingId (id : ObjectId) (v : option ObjectId)
    (coll : list Content) : list Content :=
  map (fun c => if c_id c =? id then setEmbeddingId v c else c) coll.

(** [findByIdAndDelete] *)
Definition deleteContentById (id : ObjectId) (coll : list Content)
  : list Content :=
  filter (fun c => negb (c_id c =? id)) coll.

Definition deleteTagById (id : ObjectId) (coll : list Tag) : list Tag :=
  filter (fun t => negb (t_id t =? id)) coll.

(** [upsert]: a record with the same id is replaced. *)
Definition upsertVector (r : VectorRecord) (vs : list VectorRecord)
  : list VectorRecord :=
  if existsb (fun x => v_id x =? v_id r) vs
  then map (fun x => if v_id x =? v_id r then r else x) vs
  else vs ++ [r].

(** [deleteOne] *)
Definition deleteVector (id : ObjectId) (vs : list VectorRecord)
  : list VectorRecord :=
  filter (fun x => negb (v_id x =? id)) vs.

(** The tags of a document as [populate] resolves them. *)
Definition populateTags (coll : list Tag) (ids : list ObjectId) : list Tag :=
  flat_map (fun id =>
              match find (fun t => t_id t =? id) coll with
              | Some t => [t]
              | None => []
              end) ids.

Definition populate (coll : list Tag) (c : Content) : Populated :=
  mkPopulated c (populateTags coll (c_tags c)).

Definition setContents (cs : list Content) (w : World) : World :=
  mkWorld (users w) cs (tagColl w) (vectors w) (nextId w).

Definition setTags (ts : list Tag) (w : World) : World :=
  mkWorld (users w) (contents w) ts (vectors w) (nextId w).

Definition setVectors (vs : list VectorRecord) (w : World) : World :=
  mkWorld (users w) (contents w) (tagColl w) vs (nextId w).

Definition setUsers (us : list User) (w : World) : World :=
  mkWorld us (contents w) (tagColl w) (vectors w) (nextId w).

Definition setNextId (n : ObjectId) (w : World) : World :=
  mkWorld (users w) (contents w) (tagColl w) (vectors w) n.

(** ** Route handlers (index.ts) *)

Definition respond (code : nat) (b : Body) : Response := mkResponse code b.

(** The requests, after [middlewareAuth] where the route has it: the
    caller's id from the token and the fields the handler reads. *)

(** POST /api/v1/content.  A field is [None] when it is missing or not of
    the type the handler uses it at; [type] is [None] also when it is not
    one of [contentTypes]. *)
Record AddRequest := mkAddRequest {
  a_userId : ObjectId;
  a_link : option string;
  a_type : option ContentType;
  a_title : option string;
  a_tags : option (list string)
}.

(** GET /api/v1/content: [Number(req.query.page)] and
    [Number(req.query.limit)]. *)
Record ListRequest := mkListRequest {
  l_userId : ObjectId;
  l_page : Js.Number;
  l_limit : Js.Number
}.

(** DELETE /api/v1/content: [contentId] is [None] when it is missing. *)
Record DeleteRequest := mkDeleteRequest {
  d_userId : ObjectId;
  d_contentId : option ObjectId
}.

(** GET /api/v1/search: [q] is [None] when it is missing or not a
    string. *)
Record SearchRequest := mkSearchRequest {
  q_userId : ObjectId;
  q_text : option string
}.

Section Handlers.

Variable env : Env.

Local Open Scope handler_scope.

(** An awaited call to a collaborator: it rejects, leaving the stores
    as they are, or runs [op]. *)
Definition call {A} (site : CallSite) (op : World -> A * World) : M A :=
  fun w =>
    if fails env site then (Thrown, w)
    else let (a, w') := op w in (Val a, w').

(** A read of the stores. *)
Definition query {A} (site : CallSite) (read : World -> A) : M A :=
  call site (fun w => (read w, w)).

(** A write to the stores. *)
Definition update (site : CallSite) (write : World -> World) : M unit :=
  call site (fun w => (tt, write w)).

(** Constructing a document draws its [_id]. *)
Definition newObjectId : M ObjectId :=
  fun w => (Val (nextId w), setNextId (S (nextId w)) w).

(** [tagDoc.save()] of a new Tag: the title is required and unique. *)
Definition saveTag (i : nat) (t : Tag) : M unit :=
  if String.eqb (t_title t) "" then throw
  else
    fun w =>
      if fails env (TagSave i) then (Thrown, w)
      else if existsb (fun x => String.eqb (t_title x) (t_title t)) (tagColl w)
      then (Thrown, w)
      else (Val tt, setTags (tagColl w ++ [t]) w).

(** The loop of [getTagIds], from iteration [i] on, with the
    identifiers pushed so far. *)
Fixpoint getTagIdsLoop (i : nat) (tags : list string)
    (tagIds : list ObjectId) : M (list ObjectId) :=
  match tags with
  | [] => ret tagIds
  | tagTitle :: rest =>
      found <- query (TagFindOne i)
                 (fun w => findTagByTitle tagTitle (tagColl w)) ;;
      tagDoc <- match found with
                | Some t => ret t
                | None =>
                    id <- newObjectId ;;
                    saveTag i (mkTag id tagTitle) ;;
                    ret (mkTag id tagTitle)
                end ;;
      getTagIdsLoop (S i) rest (tagIds ++ [t_id tagDoc])
  end.

(** [async function getTagIds(tags: string[])] *)
Definition getTagIds (tags : list string) : M (list ObjectId) :=
  getTagIdsLoop 0 tags [].

(** *** POST /api/v1/content *)

Definition serverError : Response :=
  respond 500 (BError "Server error.").

(** The template literal [`${x}`]. *)
Definition interpolate (x : option string) : string :=
  match x with
  | Some s => s
  | None => "undefined"
  end.

(** [newContent.save()] of the new document: [title] and [type] are
    validated, then the document is inserted. *)
Definition saveNewContent (req : AddRequest) (id : ObjectId)
    (link youtubeTitle youtubeDescription thumbnailUrl : string)
    (tagObjectIds : list ObjectId) : M Content :=
  match a_type req, a_title req with
  | Some type, Some title =>
      if String.eqb title "" then throw
      else
        let newContent :=
          mkContent id link type title youtubeTitle youtubeDescription
            thumbnailUrl None tagObjectIds (a_userId req) in
        update ContentCreate
          (fun w => setContents (contents w ++ [newContent]) w) ;;
        ret newContent
  | _, _ => throw
  end.

(** Lines 155-207: from the resolution of the tags to the first save
    of the document.  The value is the saved document and the
    embedding vector. *)
Definition createContent (req : AddRequest) : M (Content * Vector) :=
  tags <- match a_tags req with
          | Some tags => ret tags
          | None => throw
          end ;;
  tagObjectIds <- getTagIds tags ;;
  link <- match a_link req with
          | Some link => ret link
          | None => throw
          end ;;
  match extractYouTubeVideoId link with
  | None => send (respond 400 (BError "Invalid YouTube link."))
  | Some videoId =>
      items <- query YoutubeGet (fun _ => youtubeItems env videoId) ;;
      match items with
      | [] => send (respond 404 (BError "YouTube video not found."))
      | snippet :: _ =>
          let youtubeTitle := s_title snippet in
          let youtubeDescription := s_description snippet in
          let thumbnailUrl :=
            match s_thumbnail snippet with
            | Some url => url
            | None => ""
            end in
          let embeddingText :=
            (interpolate (a_title req) ++ "," ++ youtubeTitle ++ ","
             ++ youtubeDescription)%string in
          embeddingVector <- query GetEmbedding
                               (fun _ => embedding env embeddingText) ;;
          id <- newObjectId ;;
          newContent <- saveNewContent req id link youtubeTitle
                          youtubeDescription thumbnailUrl tagObjectIds ;;
          ret (newContent, embeddingVector)
      end
  end.

(** Lines 208-221: the upsert of the vector and the second save, which
    stores [embeddingId]. *)
Definition indexContent (newContent : Content) (embeddingVector : Vector)
  : M Content :=
  let vectorId := c_id newContent in
  update PineconeUpsert
    (fun w =>
       setVectors
         (upsertVector
            (mkVectorRecord vectorId embeddingVector
               (mkMetadata (c_userId newContent) (c_link newContent)
                  (c_type newContent) (c_title newContent)))
            (vectors w)) w) ;;
  update ContentBackfill
    (fun w =>
       setContents
         (updateEmbeddingId (c_id newContent) (Some vectorId) (contents w))
         w) ;;
  ret (setEmbeddingId (Some vectorId) newContent).

Definition postContentBody (req : AddRequest) : M Response :=
  created <- createContent req ;;
  newContent <- indexContent (fst created) (snd created) ;;
  ret (respond 201 (BContentSaved "Content saved with embedding!" newContent)).

Definition postContent (req : AddRequest) (w : World) : Response * World :=
  handle (postContentBody req) serverError w.

(** *** GET /api/v1/content *)

Definition internalServerError : Response :=
  respond 500 (BError "Internal Server Error").

(** [const page = Math.max(1, Number(req.query.page) || 1)] *)
Definition effectivePage (req : ListRequest) : Js.Number :=
  Js.max (Js.ofNat 1) (Js.or (l_page req) (Js.ofNat 1)).

(** [const limit = Math.min(8, Number(req.query.limit) || 8)] *)
Definition effectiveLimit (req : ListRequest) : Js.Number :=
  Js.min (Js.ofNat 8) (Js.or (l_limit req) (Js.ofNat 8)).

(** [sort({ _id: -1 })] *)
Fixpoint insertById (c : Content) (sorted : list Content) : list Content :=
  match sorted with
  | [] => [c]
  | d :: rest =>
      if c_id d <=? c_id c then c :: sorted else d :: insertById c rest
  end.

Definition sortByIdDesc (cs : list Content) : list Content :=
  fold_right insertById [] cs.

(** [skip(s).limit(l)] on a cursor.  The store takes a skip that is a
    non-negative integer and a limit that is an integer: [0] is no
    limit and a negative limit counts as its absolute value.  It
    rejects anything else. *)
Definition skipLimit {A} (s l : Js.Number) (docs : list A)
  : option (list A) :=
  match Js.toCount s, l with
  | Some skip, Js.Fin q =>
      if Qeq_bool q (inject_Z (Qfloor q))
      then
        match Z.abs_nat (Qfloor q) with
        | O => Some (skipn skip docs)
        | n => Some (firstn n (skipn skip docs))
        end
      else None
  | _, _ => None
  end.

(** [Content.find({ userId })] with the sort, the skip and the limit. *)
Definition findPage (userId : ObjectId) (page limit : Js.Number)
  : M (list Populated) :=
  found <- query ContentFind
             (fun w =>
                option_map (map (populate (tagColl w)))
                  (skipLimit (Js.mul (Js.sub page (Js.ofNat 1)) limit) limit
                     (sortByIdDesc
                        (filter (fun c => c_userId c =? userId)
                           (contents w))))) ;;
  match found with
  | Some docs => ret docs
  | None => throw
  end.

(** [Content.countDocuments({ userId })] *)
Definition countContents (userId : ObjectId) : M nat :=
  query ContentCount
    (fun w => List.length (filter (fun c => c_userId c =? userId) (contents w))).

Definition getContentBody (req : ListRequest) : M Response :=
  let userId := l_userId req in
  let page := effectivePage req in
  let limit := effectiveLimit req in
  contents <- findPage userId page limit ;;
  total <- countContents userId ;;
  ret (respond 200
         (BPage
            (mkPage contents total page
               (Js.ceil (Js.div (Js.ofNat total) limit))
               (Js.lt (Js.mul page limit) (Js.ofNat total))
               (Js.gt page (Js.ofNat 1))))).

Definition getContent (req : ListRequest) (w : World) : Response * World :=
  handle (getContentBody req) internalServerError w.

(** *** DELETE /api/v1/content *)

(** [Content.exists({ _id: { $ne: contentId }, tags: tagId })] *)
Definition tagUsedElsewhere (contentId tagId : ObjectId)
    (coll : list Content) : bool :=
  existsb
    (fun c => negb (c_id c =? contentId) && existsb (Nat.eqb tagId) (c_tags c))
    coll.

(** The loop over [tagsToCheck], from iteration [i] on. *)
Fixpoint sweepTags (i : nat) (contentId : ObjectId)
    (tagsToCheck : list ObjectId) : M unit :=
  match tagsToCheck with
  | [] => ret tt
  | tagId :: rest =>
      isTagUsedElsewhere <- query (ContentExists i)
                              (fun w => tagUsedElsewhere contentId tagId
                                          (contents w)) ;;
      (if isTagUsedElsewhere then ret tt
       else update (TagDelete i)
              (fun w => setTags (deleteTagById tagId (tagColl w)) w)) ;;
      sweepTags (S i) contentId rest
  end.

Definition deleteContentBody (req : DeleteRequest) : M Response :=
  let userId := d_userId req in
  match d_contentId req with
  | None => send (respond 400 (BError "contentId is required"))
  | Some contentId =>
      found <- query ContentFindById
                 (fun w => findContentById contentId (contents w)) ;;
      match found with
      | None => send (respond 404 (BError "Content not found"))
      | Some content =>
          if negb (c_userId content =? userId)
          then send (respond 403
                       (BError "Forbidden: Cannot delete content you do not own"))
          else
            match c_embeddingId content with
            | Some idOfToBeDeletedEmbedding =>
                tryCatch
                  (update PineconeDelete
                     (fun w =>
                        setVectors
                          (deleteVector idOfToBeDeletedEmbedding (vectors w))
                          w))
                  (ret tt)
            | None => ret tt
            end ;;
            sweepTags 0 contentId (c_tags content) ;;
            update ContentDelete
              (fun w =>
                 setContents (deleteContentById contentId (contents w)) w) ;;
            ret (respond 200 (BMessage "Delete succeeded"))
      end
  end.

Definition deleteContent (req : DeleteRequest) (w : World)
  : Response * World :=
  handle (deleteContentBody req) internalServerError w.

(** *** GET /api/v1/search *)

(** [const scoreThreshold = 0.4]: the double that the literal denotes,
    3602879701896397 / 2^53. *)
Definition scoreThreshold : Js.Number :=
  Js.Fin (3602879701896397 # 9007199254740992).

(** [match.score !== undefined && match.score >= scoreThreshold] *)
Definition aboveThreshold (m : Match) : bool :=
  match match_score m with
  | Some score => Js.ge score scoreThreshold
  | None => false
  end.

(** [(queryResponse.matches ?? []).filter(...)] *)
Definition filteredMatches (matches : option (list Match)) : list Match :=
  filter aboveThreshold
    (match matches with
     | Some ms => ms
     | None => []
     end).

(** [Content.find({ embeddingId: { $in: ids }, userId })] *)
Definition findByEmbeddingIds (ids : list ObjectId) (userId : ObjectId)
    (coll : list Content) : list Content :=
  filter
    (fun c =>
       match c_embeddingId c with
       | Some e => existsb (Nat.eqb e) ids
       | None => false
       end && (c_userId c =? userId))
    coll.

Definition getSearchBody (req : SearchRequest) : M Response :=
  let userId := q_userId req in
  match q_text req with
  | None | Some "" =>
      send (respond 400 (BError "Missing or invalid query parameter 'q'"))
  | Some queryText =>
      queryEmbedding <- query GetEmbedding
                          (fun _ => embedding env queryText) ;;
      matches <- query PineconeQuery
                   (fun w => queryMatches env (vectors w) queryEmbedding 5) ;;
      match filteredMatches matches with
      | [] => send (respond 200 (BResults []))
      | filtered =>
          let matchedEmbeddingIds := map match_id filtered in
          matchedContents <- query ContentFind
                               (fun w =>
                                  map (populate (tagColl w))
                                    (findByEmbeddingIds matchedEmbeddingIds
                                       userId (contents w))) ;;
          ret (respond 200 (BResults matchedContents))
      end
  end.

Definition getSearch (req : SearchRequest) (w : World) : Response * World :=
  handle (getSearchBody req) internalServerError w.

(** *** GET /api/v1/brain/share/:shareLink *)

Definition formatContent (content : Populated) : SharedContent :=
  let doc := p_doc content in
  mkSharedContent (c_id doc) (c_type doc) (c_link doc) (c_title doc)
    (c_youtubeTitle doc) (c_youtubeDescription doc) (c_thumbnailUrl doc)
    (map t_title (p_tags content)).

Definition sharedBrainNotFound : Response :=
  respond 404 (BError "Shared brain not found or sharing disabled.").

Definition getBrainShareBody (shareLink : ObjectId) : M Response :=
  found <- query UserFindById (fun w => findUserById shareLink (users w)) ;;
  match found with
  | None => send sharedBrainNotFound
  | Some user =>
      if negb (u_isShared user) then send sharedBrainNotFound
      else
        contents <- query ContentFind
                      (fun w =>
                         map (populate (tagColl w))
                           (filter (fun c => c_userId c =? u_id user)
                              (contents w))) ;;
        let formattedContents := map formatContent contents in
        ret (respond 200 (BSharedBrain (u_username user) formattedContents))
  end.

Definition getBrainShare (shareLink : ObjectId) (w : World)
  : Response * World :=
  handle (getBrainShareBody shareLink) internalServerError w.

End Handlers.

(** ** The embedding service (embeddingService.ts)

    [getEmbedding] is an async function over the module variable
    [embedder].  A call runs until its first [await]; the event loop then
    resumes suspended calls one at a time, in any order. *)

Module EmbeddingService.

(** Where a call of [getEmbedding] stands.  A pipeline is named by the
    number of the [pipeline(...)] call that loads it. *)
Inductive Caller :=
| NotCalled
| AwaitPipeline (load : nat)
| AwaitEmbedder (model : nat)
| Returned (model : nat).

Record State := mkState {
  embedder : option nat;
  pipelineCalls : nat;
  callers : list Caller
}.

(** [n] callers, none of which has called yet; [embedder] is [null]. *)
Definition init (n : nat) : State := mkState None 0 (repeat NotCalled n).

Inductive Event :=
| Call (i : nat)
| Resume (i : nat).

Fixpoint setCaller (i : nat) (c : Caller) (cs : list Caller) : list Caller :=
  match cs, i with
  | [], _ => []
  | _ :: rest, O => c :: rest
  | x :: rest, S i' => x :: setCaller i' c rest
  end.

(** One turn of the event loop. *)
Definition step (e : Event) (s : State) : State :=
  match e with
  | Call i =>
      match nth_error (callers s) i with
      | Some NotCalled =>
          match embedder s with
          | None =>
              (* if (!embedder) { ... await pipeline(...) *)
              mkState (embedder s) (S (pipelineCalls s))
                (setCaller i (AwaitPipeline (pipelineCalls s)) (callers s))
          | Some m =>
              (* await embedder(text, ...) *)
              mkState (embedder s) (pipelineCalls s)
                (setCaller i (AwaitEmbedder m) (callers s))
          end
      | _ => s
      end
  | Resume i =>
      match nth_error (callers s) i with
      | Some (AwaitPipeline load) =>
          (* embedder = <the pipeline>; } await embedder(text, ...) *)
          mkState (Some load) (pipelineCalls s)
            (setCaller i (AwaitEmbedder load) (callers s))
      | Some (AwaitEmbedder m) =>
          mkState (embedder s) (pipelineCalls s)
            (setCaller i (Returned m) (callers s))
      | _ => s
      end
  end.

Definition run (schedule : list Event) (s : State) : State :=
  fold_left (fun s e => step e s) schedule s.

End EmbeddingService.

(** ** Vocabulary of the statements *)

(** [preserves R m]: whatever way [m] ends, the stores before and after
    are related by [R]. *)
Definition preserves {A} (R : World -> World -> Prop) (m : M A) : Prop :=
  forall w o w', m w = (o, w') -> R w w'.

(** The items, the vectors and the users are as before. *)
Definition sameItems (w w' : World) : Prop :=
  users w' = users w /\ contents w' = contents w /\ vectors w' = vectors w.

(** [new] holds Tags for requested titles that had no Tag in [old]. *)
Definition newTagsFor (tags : list string) (old new : list Tag) : Prop :=
  Forall (fun t => In (t_title t) tags /\ findTagByTitle (t_title t) old = None)
    new.

(** The tag collection only grows, and only by Tags for requested
    titles that had none. *)
Definition tagsGrow (tags : list string) (w w' : World) : Prop :=
  exists new, tagColl w' = tagColl w ++ new /\ newTagsFor tags (tagColl w) new.

(** [resolves w title id]: in [w], [id] names the Tag with that title. *)
Definition resolves (w : World) (title : string) (id : ObjectId) : Prop :=
  findTagByTitle title (tagColl w) = Some (mkTag id title).

Definition invalidLink : Response :=
  respond 400 (BError "Invalid YouTube link.").

Definition videoNotFound : Response :=
  respond 404 (BError "YouTube video not found.").

Definition contentNotFound : Response :=
  respond 404 (BError "Content not found").

Definition forbidden : Response :=
  respond 403 (BError "Forbidden: Cannot delete content you do not own").

Definition deleteSucceeded : Response :=
  respond 200 (BMessage "Delete succeeded").

(** The stores after the guarded [deleteOne] of the vector: a failure
    of the index is caught. *)
Definition afterVectorDelete (env : Env) (content : Content) (w : World)
  : World :=
  match c_embeddingId content with
  | Some e =>
      if fails env PineconeDelete then w
      else setVectors (deleteVector e (vectors w)) w
  | None => w
  end.

(** The invariant of the document store: identifiers are below the
    counter and pairwise distinct, and a vector reference, when set, is
    the document's own identifier. *)
Definition storeInv (w : World) : Prop :=
  (forall c, In c (contents w) -> c_id c < nextId w) /\
  NoDup (map c_id (contents w)) /\
  (forall c, In c (contents w) ->
             c_embeddingId c = None \/ c_embeddingId c = Some (c_id c)).

(** The requests of the routes above, and the stores that they lead to
    from a document store without content. *)
Inductive Request :=
| PostContent (req : AddRequest)
| GetContent (req : ListRequest)
| DeleteContent (req : DeleteRequest)
| GetSearch (req : SearchRequest)
| GetBrainShare (shareLink : ObjectId).

Definition serve (env : Env) (r : Request) (w : World) : Response * World :=
  match r with
  | PostContent req => postContent env req w
  | GetContent req => getContent env req w
  | DeleteContent req => deleteContent env req w
  | GetSearch req => getSearch env req w
  | GetBrainShare shareLink => getBrainShare env shareLink w
  end.

Inductive reachable : World -> Prop :=
| reachable_start (w : World) : contents w = [] -> reachable w
| reachable_serve (env : Env) (r : Request) (w : World) :
    reachable w -> reachable (snd (serve env r w)).

(** The Items that a response carries. *)
Definition itemsOf (r : Response) : list Content :=
  match body r with
  | BResults results => map p_doc results
  | BPage page => map p_doc (pg_results page)
  | BContentSaved _ content => [content]
  | _ => []
  end.

(** The items that the response of the shared view carries. *)
Definition sharedItemsOf (r : Response) : list SharedContent :=
  match body r with
  | BSharedBrain _ content => content
  | _ => []
  end.

(** ** Stores and collaborators used as examples *)

(** The stores as a test starts: empty. *)
Definition emptyWorld : World := mkWorld [] [] [] [] 0.

(** Collaborators that all answer; the lookup knows one video. *)
Definition demoSnippet : Snippet :=
  mkSnippet "Demo video" "A demonstration" (Some "https://i.ytimg.com/d.jpg").

Definition demoEnv : Env :=
  mkEnv (fun _ => false)
    (fun videoId => if String.eqb videoId "abc12345678" then [demoSnippet] else [])
    (fun _ => [1; 0]%Q)
    (fun _ _ _ => None).

(** The same collaborators, with the calls at the sites [down] failing. *)
Definition failingAt (down : CallSite -> bool) (e : Env) : Env :=
  mkEnv down (youtubeItems e) (embedding e) (queryMatches e).

Definition isPineconeUpsert (s : CallSite) : bool :=
  match s with PineconeUpsert => true | _ => false end.

Definition isGetEmbedding (s : CallSite) : bool :=
  match s with GetEmbedding => true | _ => false end.

Definition isContentBackfill (s : CallSite) : bool :=
  match s with ContentBackfill => true | _ => false end.

Definition demoAdd (link : string) (tags : list string) : AddRequest :=
  mkAddRequest 7 (Some link) (Some Video) (Some "demo") (Some tags).

(** The document that [demoAdd] creates in the empty stores, before the
    second save. *)
Definition demoContent (id : ObjectId) (link : string) (tags : list ObjectId)
  : Content :=
  mkContent id link Video "demo" "Demo video" "A demonstration"
    "https://i.ytimg.com/d.jpg" None tags 7.

(** One user, who shares, and nothing stored yet. *)
Definition sharingWorld : World := mkWorld [mkUser 7 "ann" true] [] [] [] 8.

(** Two documents of two owners sharing the Tag [0]. *)
Definition sharedTagWorld : World :=
  mkWorld [mkUser 7 "ann" false; mkUser 8 "bob" true]
    [setEmbeddingId (Some 1) (demoContent 1 "https://youtu.be/abc12345678" [0]);
     mkContent 2 "https://youtu.be/abc12345678" Video "other" "Demo video"
       "A demonstration" "" (Some 2) [0] 8]
    [mkTag 0 "x"]
    [mkVectorRecord 1 [1; 0]%Q
       (mkMetadata 7 "https://youtu.be/abc12345678" Video "demo");
     mkVectorRecord 2 [0; 1]%Q
       (mkMetadata 8 "https://youtu.be/abc12345678" Video "other")]
    3.

(** An index that answers three matches, the last of them under the
    threshold. *)
Definition searchEnv : Env :=
  mkEnv (fun _ => false) (youtubeItems demoEnv) (embedding demoEnv)
    (fun _ _ _ =>
       Some [mkMatch 2 (Some (Js.Fin (9 # 10)));
             mkMatch 1 (Some (Js.Fin (7 # 10)));
             mkMatch 1 (Some (Js.Fin (3 # 10)))]).

(** ** The other routes of index.ts and the middleware (middleware.ts) *)

(** *** Accounts: POST /api/v1/signup and POST /api/v1/signin *)

(** [/[a-z]/] and [/[0-9]/] *)
Definition isLowercase (c : ascii) : bool :=
  let n := nat_of_ascii c in (97 <=? n) && (n <=? 122).

Definition isDigit (c : ascii) : bool :=
  let n := nat_of_ascii c in (48 <=? n) && (n <=? 57).

Definition containsChar (p : ascii -> bool) (s : string) : bool :=
  existsb p (list_ascii_of_string s).

(** The body of both requests: a field is [None] when it is missing or
    not a string. *)
Record CredentialsBody := mkCredentialsBody {
  cb_username : option string;
  cb_password : option string
}.

(** [signupSchema.parse(req.body)]: [None] when it throws a ZodError. *)
Definition signupSchema (b : CredentialsBody) : option (string * string) :=
  match cb_username b, cb_password b with
  | Some username, Some password =>
      if (3 <=? String.length username) && (String.length username <=? 10)
         && (5 <=? String.length password) && (String.length password <=? 20)
         && containsChar isLowercase password
         && containsChar isDigit password
      then Some (username, password)
      else None
  | _, _ => None
  end.

(** [signinSchema.parse(req.body)] *)
Definition signinSchema (b : CredentialsBody) : option (string * string) :=
  match cb_username b, cb_password b with
  | Some username, Some password =>
      if (1 <=? String.length username) && (1 <=? String.length password)
      then Some (username, password)
      else None
  | _, _ => None
  end.

(** The stores with the [password] path of the user documents, kept by
    [_id] beside the users. *)
Record Db := mkDb {
  db_world : World;
  db_passwords : list (ObjectId * string)
}.

(** [{ userId: user._id, username: user.username }] *)
Record Payload := mkPayload {
  pl_userId : ObjectId;
  pl_username : string
}.

Inductive AccountSite :=
| UserFindOne
| BcryptHash
| UserSave
| BcryptCompare
| JwtSign.

(** What bcrypt, jsonwebtoken and the user collection answer during one
    request. *)
Record AccountEnv := mkAccountEnv {
  accountFails : AccountSite -> bool;
  (** [bcrypt.hash(password, saltRounds)] *)
  bcryptHash : string -> string;
  (** [bcrypt.compare(password, hash)] *)
  bcryptCompare : string -> string -> bool;
  (** [jwt.sign(payload, SECRET_KEY)] *)
  jwtSign : Payload -> string;
  (** [jwt.verify(token, SECRET_KEY)]: [None] when it throws *)
  jwtVerify : string -> option Payload
}.

Inductive AccountBody :=
| ABText (text : string)
| ABIssues
| ABError (error : string)
| ABToken (token : string).

Record AccountResponse := mkAccountResponse {
  ar_status : nat;
  ar_body : AccountBody
}.

(** [User.findOne({ username })] *)
Definition findUserByName (username : string) (coll : list User)
  : option User :=
  find (fun u => String.eqb (u_username u) username) coll.

Definition passwordOf (id : ObjectId) (table : list (ObjectId * string))
  : option string :=
  option_map snd (find (fun e => fst e =? id) table).

(** [newUser.save()]: the document and its password are inserted. *)
Definition insertUser (u : User) (hashedPassword : string) (db : Db) : Db :=
  mkDb (setUsers (users (db_world db) ++ [u])
          (setNextId (S (nextId (db_world db))) (db_world db)))
       (db_passwords db ++ [(u_id u, hashedPassword)]).

Definition signupServerError : AccountResponse :=
  mkAccountResponse 500 (ABText "Server error").

(** [app.post("/api/v1/signup", ...)] *)
Definition signup (aenv : AccountEnv) (b : CredentialsBody) (db : Db)
  : AccountResponse * Db :=
  match signupSchema b with
  | None => (mkAccountResponse 411 ABIssues, db)
  | Some (username, password) =>
      if accountFails aenv UserFindOne then (signupServerError, db)
      else
        match findUserByName username (users (db_world db)) with
        | Some existingUser =>
            (mkAccountResponse 403
               (ABText "User already exists with this username"), db)
        | None =>
            if accountFails aenv BcryptHash then (signupServerError, db)
            else
              let hashedPassword := bcryptHash aenv password in
              let newUser := mkUser (nextId (db_world db)) username false in
              let drawn :=
                mkDb (setNextId (S (nextId (db_world db))) (db_world db))
                  (db_passwords db) in
              if accountFails aenv UserSave then (signupServerError, drawn)
              else if existsb (fun u => String.eqb (u_username u) username)
                        (users (db_world db))
              then (signupServerError, drawn)
              else (mkAccountResponse 200 (ABText "Signed up"),
                    insertUser newUser hashedPassword db)
        end
  end.

Definition invalidCredentials : AccountResponse :=
  mkAccountResponse 401 (ABError "Invalid username or password").

Definition signinServerError : AccountResponse :=
  mkAccountResponse 500 (ABError "Server error").

(** [app.post("/api/v1/signin", ...)]: it only reads. *)
Definition signin (aenv : AccountEnv) (b : CredentialsBody) (db : Db)
  : AccountResponse :=
  match signinSchema b with
  | None => mkAccountResponse 400 ABIssues
  | Some (username, password) =>
      if accountFails aenv UserFindOne then signinServerError
      else
        match findUserByName username (users (db_world db)) with
        | None => invalidCredentials
        | Some user =>
            match passwordOf (u_id user) (db_passwords db) with
            | None => signinServerError
            | Some hash =>
                if accountFails aenv BcryptCompare then signinServerError
                else if negb (bcryptCompare aenv password hash)
                then invalidCredentials
                else if accountFails aenv JwtSign then signinServerError
                else
                  let payload := mkPayload (u_id user) (u_username user) in
                  mkAccountResponse 200 (ABToken (jwtSign aenv payload))
            end
        end
  end.

(** *** middlewareAuth (middleware.ts) *)

(** [s.split(sep)] for a one-character separator. *)
Fixpoint split (sep : ascii) (s : string) : list string :=
  match s with
  | EmptyString => [EmptyString]
  | String c rest =>
      if Ascii.eqb c sep then EmptyString :: split sep rest
      else
        match split sep rest with
        | field :: fields => String c field :: fields
        | [] => [String c EmptyString]
        end
  end.

(** The middleware calls [next()] with [req.user] set, or sends a
    response. *)
Inductive AuthOutcome :=
| Next (user : Payload)
| Rejected (r : AccountResponse).

Definition authMissing : AccountResponse :=
  mkAccountResponse 401 (ABError "Authorization header missing or malformed").

Definition authInvalid : AccountResponse :=
  mkAccountResponse 401 (ABError "Invalid or expired token").

(** [export const middlewareAuth = (req, res, next) => ...], on
    [req.headers.authorization] *)
Definition middlewareAuth (aenv : AccountEnv) (authorization : option string)
  : AuthOutcome :=
  match authorization with
  | None => Rejected authMissing
  | Some authHeader =>
      if negb (String.prefix "Bearer " authHeader) then Rejected authMissing
      else
        match nth_error (split " "%char authHeader) 1 with
        | Some token =>
            match jwtVerify aenv token with
            | Some decoded => Next decoded
            | None => Rejected authInvalid
            end
        | None => Rejected authInvalid
        end
  end.

(** *** POST /api/v1/brain/share, GET /api/v1/tags,
        GET /api/v1/content/tag/:tagId *)

(** [`${baseUrl}/shared-brain/${user._id}`], by its two holes;
    [baseUrl] is [process.env.FRONTEND_URL]. *)
Record ShareLink := mkShareLink {
  sl_baseUrl : option string;
  sl_userId : ObjectId
}.

(** The bodies of these routes: the error bodies are those of [Body]. *)
Inductive MoreBody :=
| MBody (b : Body)
| MLink (link : option ShareLink)
| MTags (tags : list Tag)
| MContents (contents : list Populated).

Record MoreResponse := mkMoreResponse {
  mr_status : nat;
  mr_body : MoreBody
}.

Definition ofResponse (r : Response) : MoreResponse :=
  mkMoreResponse (status r) (MBody (body r)).

(** A whole route handler, as [handle]. *)
Definition handleMore (body : M MoreResponse) (onError : Response) (w : World)
  : MoreResponse * World :=
  match body w with
  | (Val r, w') => (r, w')
  | (Sent r, w') => (ofResponse r, w')
  | (Thrown, w') => (ofResponse onError, w')
  end.

Definition setShared (share : bool) (u : User) : User :=
  mkUser (u_id u) (u_username u) share.

(** The update that [user.save()] sends after [user.isShared = share]. *)
Definition updateShared (id : ObjectId) (share : bool) (coll : list User)
  : list User :=
  map (fun u => if u_id u =? id then setShared share u else u) coll.

(** [tagMap[tag._id] = tag]: a key that is there keeps its place. *)
Fixpoint tagMapSet (key : ObjectId) (tag : Tag)
    (tagMap : list (ObjectId * Tag)) : list (ObjectId * Tag) :=
  match tagMap with
  | [] => [(key, tag)]
  | (k, v) :: rest =>
      if k =? key then (k, tag) :: rest
      else (k, v) :: tagMapSet key tag rest
  end.

(** The two nested [forEach] over the contents and their tags. *)
Definition collectTags (contents : list Populated)
  : list (ObjectId * Tag) :=
  fold_left
    (fun tagMap content =>
       fold_left (fun tagMap tag => tagMapSet (t_id tag) tag tagMap)
         (p_tags content) tagMap)
    contents [].

(** The request of POST /api/v1/brain/share: [share] is [None] when it is
    not a boolean. *)
Record ShareRequest := mkShareRequest {
  sh_userId : ObjectId;
  sh_share : option bool
}.

Section MoreHandlers.

Variable env : Env.
Variable aenv : AccountEnv.

Local Open Scope handler_scope.

Definition postBrainShareBody (baseUrl : option string) (req : ShareRequest)
  : M MoreResponse :=
  let userId := sh_userId req in
  match sh_share req with
  | None => send (respond 400 (BError "Field 'share' must be boolean."))
  | Some share =>
      found <- query env UserFindById
                 (fun w => findUserById userId (users w)) ;;
      match found with
      | None => send (respond 404 (BError "User not found."))
      | Some user =>
          (fun w =>
             if accountFails aenv UserSave then (Thrown, w)
             else (Val tt,
                   setUsers (updateShared (u_id user) share (users w)) w)) ;;
          let link :=
            if share then Some (mkShareLink baseUrl (u_id user)) else None in
          ret (mkMoreResponse 200 (MLink link))
      end
  end.

Definition postBrainShare (baseUrl : option string) (req : ShareRequest)
    (w : World) : MoreResponse * World :=
  handleMore (postBrainShareBody baseUrl req) internalServerError w.

Definition getTagsBody (userId : ObjectId) : M MoreResponse :=
  contents <- query env ContentFind
                (fun w =>
                   map (populate (tagColl w))
                     (filter (fun c => c_userId c =? userId) (contents w))) ;;
  let tagMap := collectTags contents in
  let tags := map snd tagMap in
  ret (mkMoreResponse 200 (MTags tags)).

Definition getTags (userId : ObjectId) (w : World) : MoreResponse * World :=
  handleMore (getTagsBody userId) internalServerError w.

(** [tagId] is [None] when the parameter is empty; an identifier that is
    given is one that the store can cast. *)
Definition getContentByTagBody (userId : ObjectId) (tagId : option ObjectId)
  : M MoreResponse :=
  match tagId with
  | None => send (respond 400 (BError "Tag ID is required"))
  | Some tagId =>
      contents <- query env ContentFind
                    (fun w =>
                       map (populate (tagColl w))
                         (filter
                            (fun c => (c_userId c =? userId)
                                      && existsb (Nat.eqb tagId) (c_tags c))
                            (contents w))) ;;
      ret (mkMoreResponse 200 (MContents contents))
  end.

Definition getContentByTag (userId : ObjectId) (tagId : option ObjectId)
    (w : World) : MoreResponse * World :=
  handleMore (getContentByTagBody userId tagId) internalServerError w.

End MoreHandlers.

(** ** Vocabulary and fixtures of the further properties *)

(** A well-formed identifier: eleven characters of [[a-zA-Z0-9_-]]. *)
Definition wellFormedId (id : string) : Prop :=
  String.length id = 11 /\
  forallb VideoId.isIdChar (list_ascii_of_string id) = true.

(** [sub] occurs in [s]. *)
Definition occursIn (sub s : string) : Prop :=
  exists pre post, s = (pre ++ sub ++ post)%string.

(** [?] and [&], which start a query parameter. *)
Definition isParamStart (c : ascii) : bool :=
  Ascii.eqb c "?" || Ascii.eqb c "&".

(** The invariant of the tag collection: titles are pairwise distinct,
    identifiers are pairwise distinct and below the counter. *)
Definition tagInv (w : World) : Prop :=
  NoDup (map t_title (tagColl w)) /\
  NoDup (map t_id (tagColl w)) /\
  (forall t, In t (tagColl w) -> t_id t < nextId w).

Definition keepsTagInv (w w' : World) : Prop := tagInv w -> tagInv w'.

(** The text that is embedded for a document. *)
Definition embeddingTextOf (c : Content) : string :=
  (c_title c ++ "," ++ c_youtubeTitle c ++ "," ++ c_youtubeDescription c)%string.

(** The record that is upserted for a document. *)
Definition vectorRecordOf (env : Env) (c : Content) : VectorRecord :=
  mkVectorRecord (c_id c) (embedding env (embeddingTextOf c))
    (mkMetadata (c_userId c) (c_link c) (c_type c) (c_title c)).

(** The fields of a document come from the request and from the first
    item of the metadata lookup for the identifier in the link. *)
Definition builtFrom (env : Env) (req : AddRequest) (c : Content) : Prop :=
  a_link req = Some (c_link c) /\
  a_type req = Some (c_type c) /\
  a_title req = Some (c_title c) /\
  c_userId c = a_userId req /\
  exists videoId snippet others,
    extractYouTubeVideoId (c_link c) = Some videoId /\
    youtubeItems env videoId = snippet :: others /\
    c_youtubeTitle c = s_title snippet /\
    c_youtubeDescription c = s_description snippet /\
    c_thumbnailUrl c = match s_thumbnail snippet with
                       | Some url => url
                       | None => ""
                       end.

(** Every tag identifier on an Item names a Tag of the collection. *)
Definition tagRefInv (w : World) : Prop :=
  forall c t, In c (contents w) -> In t (c_tags c) ->
              exists tag, In tag (tagColl w) /\ t_id tag = t.

Definition tagsKept (w w' : World) : Prop := incl (tagColl w) (tagColl w').

(** The call site of the vector deletion. *)
Definition isPineconeDelete (s : CallSite) : bool :=
  match s with PineconeDelete => true | _ => false end.

(** An index that answers the vector of the Item added last to
    [sharedTagWorld]. *)
Definition freshMatchEnv : Env :=
  mkEnv (fun _ => false) (youtubeItems demoEnv) (embedding demoEnv)
    (fun _ _ _ => Some [mkMatch 4 (Some (Js.Fin (1 # 2)))]).

(** The Tag that the identifier [id] names in a collection. *)
Definition tagNamed (coll : list Tag) (id : ObjectId) : option Tag :=
  find (fun t => t_id t =? id) coll.

(** A tag map whose keys are the identifiers of its values, each once. *)
Definition tagMapOk (m : list (ObjectId * Tag)) : Prop :=
  (forall k v, In (k, v) m -> k = t_id v) /\ NoDup (map fst m).

(** The Items that the response of the by-tag route carries. *)
Definition contentsOf (r : MoreResponse) : list Content :=
  match mr_body r with
  | MContents contents => map p_doc contents
  | _ => []
  end.

(** The rules of [signupSchema]. *)
Definition validSignup (username password : string) : Prop :=
  3 <= String.length username <= 10 /\
  5 <= String.length password <= 20 /\
  containsChar isLowercase password = true /\
  containsChar isDigit password = true.

(** The invariant of the accounts: usernames and identifiers are
    pairwise distinct, identifiers and the keys of the password table
    are below the id counter. *)
Definition accountsInv (db : Db) : Prop :=
  NoDup (map u_username (users (db_world db))) /\
  NoDup (map u_id (users (db_world db))) /\
  (forall u, In u (users (db_world db)) -> u_id u < nextId (db_world db)) /\
  (forall e, In e (db_passwords db) -> fst e < nextId (db_world db)).

(** bcrypt, jsonwebtoken and a user collection that answer: the hash of
    a password is the password with a mark, and one token is known. *)
Definition demoAccountEnv : AccountEnv :=
  mkAccountEnv (fun _ => false)
    (fun password => ("$2b$" ++ password)%string)
    (fun password hash => String.eqb ("$2b$" ++ password)%string hash)
    (fun payload =>
       if (pl_userId payload =? 0) && String.eqb (pl_username payload) "ann"
       then "header.payload.signature" else "other.payload.signature")
    (fun token =>
       if String.eqb token "header.payload.signature"
       then Some (mkPayload 0 "ann") else None).

Definition emptyDb : Db := mkDb emptyWorld [].

Definition annBody : CredentialsBody :=
  mkCredentialsBody (Some "ann") (Some "secret1").

Definition hasSpace (s : string) : bool :=
  existsb (Ascii.eqb " ") (list_ascii_of_string s).

(** Every record of the vector index has its document. *)
Definition vecInv (w : World) : Prop :=
  forall r, In r (vectors w) -> exists c, In c (contents w) /\ c_id c = v_id r.

(** * Properties *)

(** ** The source-identifier pattern on sample links *)

Example extract_short :
  extractYouTubeVideoId "https://youtu.be/abc12345678" = Some "abc12345678".
Proof. reflexivity. Qed.

Example extract_watch :
  extractYouTubeVideoId "https://www.youtube.com/watch?v=dQw4w9WgXcQ&t=3"
  = Some "dQw4w9WgXcQ".
Proof. reflexivity. Qed.

Example extract_greedy :
  extractYouTubeVideoId
    "youtube.com/watch?v=aaaaaaaaaaa&v=bbbbbbbbbbb" = Some "bbbbbbbbbbb".
Proof. reflexivity. Qed.

Example extract_invalid :
  extractYouTubeVideoId "https://example.com/watch?v=dQw4w9WgXcQ" = None.
Proof. reflexivity. Qed.

Example extract_too_short :
  extractYouTubeVideoId "https://youtu.be/abc" = None.
Proof. reflexivity. Qed.


(** ** Lists *)

Lemma find_app_none {A} (f : A -> bool) (l1 l2 : list A) :
  find f (l1 ++ l2) = None -> find f l1 = None.
Proof.
  induction l1 as [|x l1 IH]; simpl; [reflexivity|].
  destruct (f x); [discriminate | exact IH].
Qed.

Lemma find_app_some {A} (f : A -> bool) (l1 l2 : list A) (x : A) :
  find f l1 = Some x -> find f (l1 ++ l2) = Some x.
Proof.
  induction l1 as [|y l1 IH]; simpl; [discriminate|].
  destruct (f y); [trivial | exact IH].
Qed.

Lemma find_app_new {A} (f : A -> bool) (l : list A) (x : A) :
  find f l = None -> f x = true -> find f (l ++ [x]) = Some x.
Proof.
  induction l as [|y l IH]; simpl; intros Hn Hx.
  - now rewrite Hx.
  - destruct (f y); [discriminate | now apply IH].
Qed.

(** ** What a computation leaves alone

    [preserves R m]: whatever way [m] ends, the stores before and after
    are related by [R]. *)

Section Preserves.

Variable R : World -> World -> Prop.
Hypothesis R_refl : forall w, R w w.
Hypothesis R_trans : forall a b c, R a b -> R b c -> R a c.

Lemma preserves_ret {A} (a : A) : preserves R (ret a).
Proof. intros w o w' H. inversion H. apply R_refl. Qed.

Lemma preserves_send {A} (r : Response) : preserves R (@send A r).
Proof. intros w o w' H. inversion H. apply R_refl. Qed.

Lemma preserves_throw {A} : preserves R (@throw A).
Proof. intros w o w' H. inversion H. apply R_refl. Qed.

Lemma preserves_bind {A B} (m : M A) (k : A -> M B) :
  preserves R m -> (forall a, preserves R (k a)) -> preserves R (bind m k).
Proof.
  intros Hm Hk w o w' H. unfold bind in H.
  destruct (m w) as [[a | r | ] w1] eqn:E.
  - eapply R_trans; [eapply Hm, E | eapply Hk, H].
  - inversion H; subst. eapply Hm, E.
  - inversion H; subst. eapply Hm, E.
Qed.

Lemma preserves_tryCatch {A} (m h : M A) :
  preserves R m -> preserves R h -> preserves R (tryCatch m h).
Proof.
  intros Hm Hh w o w' H. unfold tryCatch in H.
  destruct (m w) as [[a | r | ] w1] eqn:E.
  - inversion H; subst. eapply Hm, E.
  - inversion H; subst. eapply Hm, E.
  - eapply R_trans; [eapply Hm, E | eapply Hh, H].
Qed.

Lemma preserves_call env {A} (site : CallSite) (op : World -> A * World) :
  (forall w, R w (snd (op w))) -> preserves R (call env site op).
Proof.
  intros Hop w o w' H. unfold call in H.
  destruct (fails env site).
  - inversion H. apply R_refl.
  - specialize (Hop w). destruct (op w) as [a w1]. inversion H; subst. exact Hop.
Qed.

Lemma preserves_query env {A} (site : CallSite) (read : World -> A) :
  preserves R (query env site read).
Proof. apply preserves_call. intros w. apply R_refl. Qed.

Lemma preserves_update env (site : CallSite) (write : World -> World) :
  (forall w, R w (write w)) -> preserves R (update env site write).
Proof. intros H. apply preserves_call. exact H. Qed.

Lemma preserves_handle (body : M Response) (onError : Response) :
  preserves R body ->
  forall w, R w (snd (handle body onError w)).
Proof.
  intros Hb w. unfold handle.
  destruct (body w) as [[a | r | ] w1] eqn:E; simpl; eapply Hb, E.
Qed.

End Preserves.

(** [sameItems] is a preorder. *)

Lemma sameItems_refl w : sameItems w w.
Proof. repeat split. Qed.

Lemma sameItems_trans a b c : sameItems a b -> sameItems b c -> sameItems a c.
Proof. unfold sameItems. intuition congruence. Qed.

Ltac frame_side :=
  first [ exact sameItems_refl | exact sameItems_trans
        | exact (@eq_refl World) | exact (@eq_trans World) ].

Ltac frame :=
  repeat first
    [ apply preserves_bind; [frame_side | | intros ]
    | apply preserves_ret; frame_side
    | apply preserves_send; frame_side
    | apply preserves_throw; frame_side
    | apply preserves_query; frame_side
    | apply preserves_tryCatch; [frame_side | | ]
    | apply preserves_update; [frame_side | intros; repeat split ]
    | match goal with
      | |- preserves _ (match ?x with _ => _ end) => destruct x
      | |- preserves _ (if ?x then _ else _) => destruct x
      end ].

Section Frames.

Variable env : Env.

Lemma newObjectId_sameItems : preserves sameItems newObjectId.
Proof. intros w o w' H. inversion H. repeat split. Qed.

Lemma saveTag_sameItems i t : preserves sameItems (saveTag env i t).
Proof.
  intros w o w' H. unfold saveTag in H.
  destruct (String.eqb (t_title t) ""); [inversion H; repeat split|].
  destruct (fails env (TagSave i)); [inversion H; repeat split|].
  destruct (existsb _ _); inversion H; repeat split.
Qed.

Lemma getTagIdsLoop_sameItems tags :
  forall i acc, preserves sameItems (getTagIdsLoop env i tags acc).
Proof.
  induction tags as [|title rest IH]; intros i acc; simpl.
  - frame.
  - frame; try apply IH.
    + apply newObjectId_sameItems.
    + apply saveTag_sameItems.
Qed.

End Frames.

(** ** Tag resolution *)

Section TagRegistry.

Variable env : Env.

Lemma tagsGrow_same tags w w' : tagColl w' = tagColl w -> tagsGrow tags w w'.
Proof. intros E. exists []. split; [now rewrite app_nil_r | constructor]. Qed.

Lemma tagsGrow_refl tags w : tagsGrow tags w w.
Proof. now apply tagsGrow_same. Qed.

Lemma tagsGrow_trans tags a b c :
  tagsGrow tags a b -> tagsGrow tags b c -> tagsGrow tags a c.
Proof.
  intros (n1 & E1 & F1) (n2 & E2 & F2). exists (n1 ++ n2). split.
  - rewrite E2, E1. now rewrite app_assoc.
  - apply Forall_app. split; [exact F1|].
    eapply Forall_impl; [|exact F2]. intros t [Hin Hnone]. split; [exact Hin|].
    rewrite E1 in Hnone. eapply find_app_none, Hnone.
Qed.

Lemma tagsGrow_cons title tags w w' :
  tagsGrow tags w w' -> tagsGrow (title :: tags) w w'.
Proof.
  intros (n & E & F). exists n. split; [exact E|].
  eapply Forall_impl; [|exact F]. intros t [Hin Hnone]. split; [now right | exact Hnone].
Qed.

Lemma getTagIdsLoop_tagsGrow tags :
  forall i acc, preserves (tagsGrow tags) (getTagIdsLoop env i tags acc).
Proof.
  induction tags as [|title rest IH]; intros i acc w o w' H.
  - inversion H. apply tagsGrow_refl.
  - simpl in H. unfold bind, query, call in H.
    destruct (fails env (TagFindOne i)).
    { inversion H. apply tagsGrow_refl. }
    simpl in H.
    destruct (findTagByTitle title (tagColl w)) as [t|] eqn:Hfind; simpl in H.
    + apply tagsGrow_cons. eapply IH, H.
    + unfold saveTag, throw in H. simpl in H.
      destruct (String.eqb title "").
      { inversion H. now apply tagsGrow_same. }
      destruct (fails env (TagSave i)).
      { inversion H. now apply tagsGrow_same. }
      destruct (existsb _ _).
      { inversion H. now apply tagsGrow_same. }
      simpl in H. apply IH in H. apply (tagsGrow_cons title) in H.
      eapply tagsGrow_trans; [|exact H].
      exists [mkTag (nextId w) title]. split; [reflexivity|].
      constructor; [|constructor]. split; [now left | exact Hfind].
Qed.

Lemma resolves_grow tags w w' title id :
  tagsGrow tags w w' -> resolves w title id -> resolves w' title id.
Proof.
  intros (n & E & _) H. unfold resolves. rewrite E. now apply find_app_some.
Qed.

Lemma findTagByTitle_title title coll t :
  findTagByTitle title coll = Some t -> t = mkTag (t_id t) title.
Proof.
  intros H. apply find_some in H. destruct H as [_ H].
  apply String.eqb_eq in H. destruct t; simpl in *. now subst.
Qed.

(** When the loop completes, it has pushed one identifier per title, in
    the order of the titles, each naming the Tag with that title. *)
Lemma getTagIdsLoop_val tags :
  forall i acc w ids w',
    getTagIdsLoop env i tags acc w = (Val ids, w') ->
    exists pushed, ids = acc ++ pushed /\ Forall2 (resolves w') tags pushed.
Proof.
  induction tags as [|title rest IH]; intros i acc w ids w' H.
  - inversion H; subst. exists []. split; [now rewrite app_nil_r | constructor].
  - simpl in H. unfold bind, query, call in H.
    destruct (fails env (TagFindOne i)); [discriminate|].
    simpl in H.
    destruct (findTagByTitle title (tagColl w)) as [t|] eqn:Hfind; simpl in H.
    + pose proof (getTagIdsLoop_tagsGrow rest _ _ _ _ _ H) as G.
      apply IH in H. destruct H as (pushed & -> & F).
      exists (t_id t :: pushed). split; [now rewrite <- app_assoc|].
      constructor; [|exact F].
      eapply resolves_grow; [exact G|]. unfold resolves.
      rewrite Hfind. f_equal. eapply findTagByTitle_title, Hfind.
    + unfold saveTag, throw in H. simpl in H.
      destruct (String.eqb title ""); [discriminate|].
      destruct (fails env (TagSave i)); [discriminate|].
      destruct (existsb _ _); [discriminate|].
      simpl in H. pose proof (getTagIdsLoop_tagsGrow rest _ _ _ _ _ H) as G.
      apply IH in H. destruct H as (pushed & -> & F).
      exists (nextId w :: pushed). split; [now rewrite <- app_assoc|].
      constructor; [|exact F].
      eapply resolves_grow; [exact G|]. unfold resolves. simpl.
      apply find_app_new; [exact Hfind | simpl; apply String.eqb_refl].
Qed.

(** The loop never sends a response. *)
Lemma getTagIdsLoop_never_sends tags :
  forall i acc w r w', getTagIdsLoop env i tags acc w <> (Sent r, w').
Proof.
  induction tags as [|t rest IH]; intros i acc w r w' E; simpl in E;
    [discriminate|].
  unfold bind, query, call in E.
  destruct (fails env (TagFindOne i)); [discriminate|].
  simpl in E. destruct (findTagByTitle t (tagColl w)); simpl in E.
  - eapply IH, E.
  - unfold saveTag, throw in E. simpl in E.
    destruct (String.eqb t ""); [discriminate|].
    destruct (fails env (TagSave i)); [discriminate|].
    destruct (existsb _ _); [discriminate|]. simpl in E. eapply IH, E.
Qed.

End TagRegistry.

(** ** Adding content *)

Section AddContent.

Variable env : Env.

Lemma saveNewContent_val req id link yt yd th ids w c w' :
  saveNewContent env req id link yt yd th ids w = (Val c, w') ->
  w' = setContents (contents w ++ [c]) w /\
  c_id c = id /\ c_embeddingId c = None /\ c_tags c = ids /\
  c_userId c = a_userId req.
Proof.
  unfold saveNewContent. destruct (a_type req); [|discriminate].
  destruct (a_title req); [|discriminate].
  destruct (String.eqb s ""); [discriminate|].
  unfold bind, update, call, ret. destruct (fails env ContentCreate); [discriminate|].
  intros H. inversion H; subst. simpl. repeat split.
Qed.

Lemma saveNewContent_not_val req id link yt yd th ids w o w' :
  saveNewContent env req id link yt yd th ids w = (o, w') ->
  (forall c, o <> Val c) -> o = Thrown /\ w' = w.
Proof.
  unfold saveNewContent. destruct (a_type req); [|intros H; now inversion H].
  destruct (a_title req); [|intros H; now inversion H].
  destruct (String.eqb s ""); [intros H; now inversion H|].
  unfold bind, update, call, ret. destruct (fails env ContentCreate).
  - intros H; now inversion H.
  - intros H Hv. inversion H; subst. exfalso. eapply Hv. reflexivity.
Qed.

(** Until the first save, only Tags are written. *)
Lemma createContent_not_val req w o w' :
  createContent env req w = (o, w') ->
  (forall x, o <> Val x) ->
  sameItems w w' /\
  (o = Thrown \/ o = Sent invalidLink \/ o = Sent videoNotFound).
Proof.
  unfold createContent. intros H Hv.
  destruct (a_tags req) as [tags|]; [|inversion H; split; [apply sameItems_refl | now left]].
  unfold bind at 1 in H. simpl in H. unfold bind at 1 in H.
  destruct (getTagIds env tags w) as [[ids | r | ] w1] eqn:E.
  2:{ exfalso. eapply getTagIdsLoop_never_sends, E. }
  2:{ inversion H; subst. split; [|now left].
      eapply getTagIdsLoop_sameItems, E. }
  assert (S1 : sameItems w w1) by (eapply getTagIdsLoop_sameItems, E).
  destruct (a_link req) as [link|]; [|inversion H; subst; split; [exact S1 | now left]].
  unfold bind at 1 in H. simpl in H.
  destruct (extractYouTubeVideoId link) as [videoId|];
    [|inversion H; subst; split; [exact S1 | right; now left]].
  unfold bind at 1, query, call in H.
  destruct (fails env YoutubeGet); [inversion H; subst; split; [exact S1 | now left]|].
  destruct (youtubeItems env videoId) as [|snippet items];
    [inversion H; subst; split; [exact S1 | right; now right]|].
  unfold bind at 1 in H.
  destruct (fails env GetEmbedding); [inversion H; subst; split; [exact S1 | now left]|].
  unfold bind at 1, newObjectId in H. unfold bind in H.
  match type of H with
  | context [saveNewContent ?e ?r ?i ?l ?a ?b ?c ?d ?ww] =>
      destruct (saveNewContent e r i l a b c d ww) as [[c0 | r0 | ] w2] eqn:E2
  end.
  - inversion H; subst. exfalso. eapply Hv. reflexivity.
  - apply saveNewContent_not_val in E2; [|discriminate]. destruct E2; discriminate.
  - apply saveNewContent_not_val in E2; [|discriminate]. destruct E2 as [_ ->].
    inversion H; subst. split; [|now left].
    destruct S1 as (A & B & C). repeat split; assumption.
Qed.

(** The first save adds one document, without [embeddingId], carrying
    the identifiers that [getTagIds] returned. *)
Lemma createContent_val req w c v w' :
  createContent env req w = (Val (c, v), w') ->
  exists tags,
    a_tags req = Some tags /\
    contents w' = contents w ++ [c] /\
    vectors w' = vectors w /\ users w' = users w /\
    c_embeddingId c = None /\ c_userId c = a_userId req /\
    tagsGrow tags w w' /\
    Forall2 (resolves w') tags (c_tags c).
Proof.
  unfold createContent. intros H.
  destruct (a_tags req) as [tags|]; [|discriminate].
  exists tags. split; [reflexivity|].
  unfold bind at 1 in H. simpl in H. unfold bind at 1 in H.
  destruct (getTagIds env tags w) as [[ids | r | ] w1] eqn:E; try discriminate.
  pose proof (getTagIdsLoop_sameItems env _ _ _ _ _ _ E) as (Su & Sc & Sv).
  pose proof (getTagIdsLoop_tagsGrow env _ _ _ _ _ _ E) as G.
  apply getTagIdsLoop_val in E. destruct E as (pushed & -> & F). simpl in *.
  destruct (a_link req) as [link|]; [|discriminate].
  unfold bind at 1 in H. simpl in H.
  destruct (extractYouTubeVideoId link) as [videoId|]; [|discriminate].
  unfold bind at 1, query, call in H.
  destruct (fails env YoutubeGet); [discriminate|].
  destruct (youtubeItems env videoId) as [|snippet items]; [discriminate|].
  unfold bind at 1 in H.
  destruct (fails env GetEmbedding); [discriminate|].
  unfold bind at 1, newObjectId in H. unfold bind in H.
  match type of H with
  | context [saveNewContent ?e ?r ?i ?l ?a ?b ?c ?d ?ww] =>
      destruct (saveNewContent e r i l a b c d ww) as [[c0 | r0 | ] w2] eqn:E2
  end; try discriminate.
  inversion H; subst. apply saveNewContent_val in E2.
  destruct E2 as (-> & Hid & He & Ht & Ho). simpl.
  rewrite Sc, Sv, Su, Ht. repeat split; assumption.
Qed.

(** A response sent before the first save is one of the two
    rejections, and comes after the tags were resolved. *)
Lemma createContent_sent req w r w' :
  createContent env req w = (Sent r, w') ->
  exists tags ids,
    a_tags req = Some tags /\
    getTagIds env tags w = (Val ids, w') /\
    (r = invalidLink \/ r = videoNotFound).
Proof.
  unfold createContent. intros H.
  destruct (a_tags req) as [tags|]; [|discriminate].
  unfold bind at 1 in H. simpl in H. unfold bind at 1 in H.
  destruct (getTagIds env tags w) as [[ids | r0 | ] w0] eqn:E;
    [| exfalso; eapply getTagIdsLoop_never_sends, E | discriminate].
  exists tags, ids. split; [reflexivity|].
  destruct (a_link req) as [link|]; [|discriminate].
  unfold bind at 1 in H. simpl in H.
  destruct (extractYouTubeVideoId link) as [videoId|];
    [|inversion H; subst; split; [exact E | now left]].
  unfold bind at 1, query, call in H.
  destruct (fails env YoutubeGet); [discriminate|].
  destruct (youtubeItems env videoId) as [|snippet items];
    [inversion H; subst; split; [exact E | now right]|].
  unfold bind at 1 in H. destruct (fails env GetEmbedding); [discriminate|].
  unfold bind at 1, newObjectId in H. unfold bind in H.
  match type of H with
  | context [saveNewContent ?e ?r ?i ?l ?a ?b ?c ?d ?ww] =>
      destruct (saveNewContent e r i l a b c d ww) as [[c0 | r1 | ] w2] eqn:E2
  end; try discriminate.
  apply saveNewContent_not_val in E2; [|discriminate]. destruct E2; discriminate.
Qed.

(** The upsert and the second save never send a response of their
    own. *)
Lemma indexContent_cases c v w o w' :
  indexContent env c v w = (o, w') ->
  (fails env PineconeUpsert = true /\ o = Thrown /\ w' = w)
  \/ (fails env PineconeUpsert = false /\ fails env ContentBackfill = true /\
      o = Thrown /\ contents w' = contents w /\ users w' = users w /\
      tagColl w' = tagColl w)
  \/ (fails env PineconeUpsert = false /\ fails env ContentBackfill = false /\
      o = Val (setEmbeddingId (Some (c_id c)) c) /\
      contents w' = updateEmbeddingId (c_id c) (Some (c_id c)) (contents w) /\
      users w' = users w /\ tagColl w' = tagColl w).
Proof.
  unfold indexContent, bind, update, call, ret.
  destruct (fails env PineconeUpsert); [intros H; inversion H; now left|].
  destruct (fails env ContentBackfill); intros H; inversion H; subst; simpl.
  - right; left. repeat split.
  - right; right. repeat split.
Qed.

Lemma postContent_unfold req w :
  postContent env req w =
  match createContent env req w with
  | (Val created, w1) =>
      match indexContent env (fst created) (snd created) w1 with
      | (Val newContent, w2) =>
          (respond 201 (BContentSaved "Content saved with embedding!" newContent), w2)
      | (Sent r, w2) => (r, w2)
      | (Thrown, w2) => (serverError, w2)
      end
  | (Sent r, w1) => (r, w1)
  | (Thrown, w1) => (serverError, w1)
  end.
Proof.
  unfold postContent, handle, postContentBody, bind, ret.
  destruct (createContent env req w) as [[created | r | ] w1]; try reflexivity.
  destruct (indexContent env (fst created) (snd created) w1) as [[n | r | ] w2];
    reflexivity.
Qed.

End AddContent.

(** [C3], as stated, fails: a request rejected for its link has already
    created and persisted the Tags of its titles. *)
Lemma rejected_add_persists_tag :
  postContent demoEnv (demoAdd "https://example.com/nothing" ["x"]) emptyWorld
  = (invalidLink, mkWorld [] [] [mkTag 0 "x"] [] 1).
Proof. reflexivity. Qed.

(** [C3], amended: when the handler answers that the link is invalid or
    that the video was not found, no Item has been created, no vector has
    been upserted and no user has changed; the Tags that were there are
    kept, and a Tag has been created and persisted for each requested
    title that had none, because the titles are resolved before the link
    is looked at. *)
Theorem rejected_add_effects (env : Env) (req : AddRequest) (w : World) :
  fst (postContent env req w) = invalidLink \/
  fst (postContent env req w) = videoNotFound ->
  let w' := snd (postContent env req w) in
  contents w' = contents w /\ vectors w' = vectors w /\ users w' = users w /\
  exists tags,
    a_tags req = Some tags /\
    (exists new,
       tagColl w' = tagColl w ++ new /\
       Forall (fun t => In (t_title t) tags
                        /\ findTagByTitle (t_title t) (tagColl w) = None) new) /\
    Forall (fun title => exists id, resolves w' title id) tags.
Proof.
  rewrite postContent_unfold.
  destruct (createContent env req w) as [[created | r | ] w1] eqn:E.
  - destruct (indexContent env (fst created) (snd created) w1)
      as [[n | r | ] w2] eqn:E2;
      apply indexContent_cases in E2;
      destruct E2 as [(_ & Ho & _)|[(_ & _ & Ho & _)|(_ & _ & Ho & _)]];
      try discriminate; simpl; intros [Hr|Hr]; discriminate.
  - simpl. intros _.
    pose proof (createContent_not_val env _ _ _ _ E ltac:(discriminate))
      as [(Su & Sc & Sv) _].
    apply createContent_sent in E. destruct E as (tags & ids & Htags & E & _).
    repeat split; try assumption.
    exists tags. split; [exact Htags|]. split.
    + exact (getTagIdsLoop_tagsGrow env _ _ _ _ _ _ E).
    + apply getTagIdsLoop_val in E. destruct E as (pushed & _ & F).
      clear -F. induction F; constructor; eauto.
  - simpl. intros [H|H]; discriminate.
Qed.

Lemma rejected_add_effects_witness :
  fst (postContent demoEnv (demoAdd "https://example.com/nothing" ["x"]) emptyWorld)
  = invalidLink /\
  contents (snd (postContent demoEnv (demoAdd "https://example.com/nothing" ["x"])
                   emptyWorld)) = contents emptyWorld.
Proof.
  split.
  - reflexivity.
  - exact (proj1 (rejected_add_effects demoEnv
                    (demoAdd "https://example.com/nothing" ["x"]) emptyWorld
                    (or_introl eq_refl))).
Defined.

(** [C4], as stated, fails: when the upsert rejects after the document
    was created, the response is the one of the [catch] block, the same
    as when the embedding fails and nothing was created. *)
Lemma upsert_failure_answers_server_error :
  postContent (failingAt isPineconeUpsert demoEnv)
    (demoAdd "https://youtu.be/abc12345678" ["x"]) emptyWorld
  = (serverError,
     mkWorld [] [demoContent 1 "https://youtu.be/abc12345678" [0]]
       [mkTag 0 "x"] [] 2)
  /\
  postContent (failingAt isGetEmbedding demoEnv)
    (demoAdd "https://youtu.be/abc12345678" ["x"]) emptyWorld
  = (serverError, mkWorld [] [] [mkTag 0 "x"] [] 1).
Proof. split; reflexivity. Qed.

(** [C4], amended: when the first save of the document succeeds and then
    the vector upsert or the second save fails, the created Item persists
    without a vector reference, and the response is the generic
    "Server error." of the [catch] block, status 500: no partial success
    is reported. *)
Theorem vector_sync_failure_effects (env : Env) (req : AddRequest) (w : World)
    (c : Content) (v : Vector) (w1 : World) :
  createContent env req w = (Val (c, v), w1) ->
  fails env PineconeUpsert = true \/ fails env ContentBackfill = true ->
  fst (postContent env req w) = serverError /\
  contents (snd (postContent env req w)) = contents w ++ [c] /\
  c_embeddingId c = None.
Proof.
  intros E Hfail. rewrite postContent_unfold, E. simpl.
  apply createContent_val in E.
  destruct E as (tags & _ & Hc & _ & _ & He & _).
  destruct (indexContent env c v w1) as [[n | r | ] w2] eqn:E2;
    apply indexContent_cases in E2;
    destruct E2 as [(F1 & Ho & Hw)|[(F1 & F2 & Ho & Hw & _)|(F1 & F2 & Ho & _)]];
    try discriminate; simpl.
  - destruct Hfail; congruence.
  - subst. repeat split; assumption.
  - rewrite Hw. repeat split; assumption.
Qed.

Lemma vector_sync_failure_effects_witness :
  fst (postContent (failingAt isContentBackfill demoEnv)
         (demoAdd "https://youtu.be/abc12345678" ["x"]) emptyWorld)
  = serverError.
Proof.
  exact (proj1 (vector_sync_failure_effects
                  (failingAt isContentBackfill demoEnv)
                  (demoAdd "https://youtu.be/abc12345678" ["x"]) emptyWorld
                  (demoContent 1 "https://youtu.be/abc12345678" [0])
                  [1; 0]%Q
                  (mkWorld [] [demoContent 1 "https://youtu.be/abc12345678" [0]]
                     [mkTag 0 "x"] [] 2)
                  eq_refl (or_intror eq_refl))).
Defined.

(** ** The tag identifiers of an added Item *)

Lemma resolves_same w w' title id :
  tagColl w' = tagColl w -> resolves w title id -> resolves w' title id.
Proof. unfold resolves. now intros ->. Qed.

Lemma resolves_functional w title id id' :
  resolves w title id -> resolves w title id' -> id = id'.
Proof. unfold resolves. intros H H'. rewrite H in H'. now inversion H'. Qed.

Lemma resolved_In w titles ids title :
  Forall2 (resolves w) titles ids -> In title titles ->
  exists id, In id ids /\ resolves w title id.
Proof.
  induction 1 as [|t i ts tl Hr F IH]; simpl; [tauto|].
  intros [->|Hin].
  - exists i. split; [now left | exact Hr].
  - destruct (IH Hin) as (id & Hi & Hres). exists id. split; [now right | exact Hres].
Qed.

(** A title given twice has its identifier twice. *)
Lemma resolved_NoDup w titles ids :
  Forall2 (resolves w) titles ids -> NoDup ids -> NoDup titles.
Proof.
  induction 1 as [|t i ts tl Hr F IH]; intros Hnd; [constructor|].
  inversion Hnd as [|? ? Hnotin Hnd']; subst. constructor; [|now apply IH].
  intros Hin. destruct (resolved_In _ _ _ _ F Hin) as (id & Hi & Hres).
  rewrite (resolves_functional _ _ _ _ Hr Hres) in Hnotin. contradiction.
Qed.

(** [C8], as stated, fails: the same title twice gives an Item whose tag
    identifiers hold the same identifier twice. *)
Lemma repeated_title_repeats_tag_id :
  postContent demoEnv (demoAdd "https://youtu.be/abc12345678" ["x"; "x"])
    emptyWorld
  = (respond 201
       (BContentSaved "Content saved with embedding!"
          (setEmbeddingId (Some 1)
             (demoContent 1 "https://youtu.be/abc12345678" [0; 0]))),
     mkWorld []
       [setEmbeddingId (Some 1)
          (demoContent 1 "https://youtu.be/abc12345678" [0; 0])]
       [mkTag 0 "x"]
       [mkVectorRecord 1 [1; 0]%Q
          (mkMetadata 7 "https://youtu.be/abc12345678" Video "demo")]
       2)
  /\ ~ NoDup [0; 0].
Proof.
  split; [reflexivity|].
  intros H. inversion H as [|? ? Hnotin _]. apply Hnotin. now left.
Qed.

(** [C8], amended: the tag identifiers of an Item that [addItem] produced
    are exactly what the resolution returned: one identifier per input
    title, in the order of the titles, each naming the Tag with that
    title.  Nothing removes duplicates: the identifiers are free of
    duplicates only if the titles are. *)
Theorem added_item_tag_ids (env : Env) (req : AddRequest) (w : World)
    (message : string) (c : Content) :
  fst (postContent env req w) = respond 201 (BContentSaved message c) ->
  let w' := snd (postContent env req w) in
  In c (contents w') /\
  exists titles,
    a_tags req = Some titles /\
    Forall2 (resolves w') titles (c_tags c) /\
    List.length (c_tags c) = List.length titles /\
    (NoDup (c_tags c) -> NoDup titles).
Proof.
  rewrite postContent_unfold.
  destruct (createContent env req w) as [[[c0 v] | r | ] w1] eqn:E.
  - simpl.
    destruct (indexContent env c0 v w1) as [[n | r | ] w2] eqn:E2;
      apply indexContent_cases in E2;
      destruct E2 as [(F1 & Ho & Hw)|[(F1 & F2 & Ho & Hw & _)|(F1 & F2 & Ho & Hw & _ & Ht)]];
      try discriminate; simpl; intros Hr; try (inversion Hr; fail).
    inversion Ho; subst n. inversion Hr; subst c message.
    apply createContent_val in E.
    destruct E as (titles & Htags & Hc & _ & _ & _ & _ & _ & F).
    split.
    + rewrite Hw, Hc. unfold updateEmbeddingId. apply in_map_iff.
      exists c0. split; [now rewrite Nat.eqb_refl | apply in_or_app; right; now left].
    + exists titles. split; [exact Htags|].
      assert (F' : Forall2 (resolves w2) titles (c_tags c0)).
      { eapply Forall2_impl; [|exact F]. intros a b. now apply resolves_same. }
      simpl. split; [exact F'|]. split.
      * symmetry. eapply Forall2_length, F'.
      * eapply resolved_NoDup, F'.
  - simpl. intros Hr. apply createContent_not_val in E; [|discriminate].
    destruct E as [_ [?|[?|?]]]; try discriminate.
    + inversion H; subst. discriminate.
    + inversion H; subst. discriminate.
  - simpl. discriminate.
Qed.

Lemma added_item_tag_ids_witness :
  In (setEmbeddingId (Some 1)
        (demoContent 1 "https://youtu.be/abc12345678" [0; 0]))
     (contents
        (snd (postContent demoEnv
                (demoAdd "https://youtu.be/abc12345678" ["x"; "x"]) emptyWorld))).
Proof.
  exact (proj1 (added_item_tag_ids demoEnv
                  (demoAdd "https://youtu.be/abc12345678" ["x"; "x"]) emptyWorld
                  "Content saved with embedding!"
                  (setEmbeddingId (Some 1)
                     (demoContent 1 "https://youtu.be/abc12345678" [0; 0]))
                  eq_refl)).
Defined.

(** ** Deleting content *)

Section DeleteContent.

Variable env : Env.

Lemma afterVectorDelete_contents c w :
  contents (afterVectorDelete env c w) = contents w.
Proof.
  unfold afterVectorDelete. destruct (c_embeddingId c); [|reflexivity].
  destruct (fails env PineconeDelete); reflexivity.
Qed.

Lemma afterVectorDelete_tags c w :
  tagColl (afterVectorDelete env c w) = tagColl w.
Proof.
  unfold afterVectorDelete. destruct (c_embeddingId c); [|reflexivity].
  destruct (fails env PineconeDelete); reflexivity.
Qed.

(** The handler in direct style. *)
Lemma deleteContent_unfold userId contentId w :
  deleteContent env (mkDeleteRequest userId (Some contentId)) w =
  if fails env ContentFindById then (internalServerError, w)
  else
    match findContentById contentId (contents w) with
    | None => (contentNotFound, w)
    | Some content =>
        if negb (c_userId content =? userId) then (forbidden, w)
        else
          match sweepTags env 0 contentId (c_tags content)
                  (afterVectorDelete env content w) with
          | (Val _, w2) =>
              if fails env ContentDelete then (internalServerError, w2)
              else (deleteSucceeded,
                    setContents (deleteContentById contentId (contents w2)) w2)
          | (Sent r, w2) => (r, w2)
          | (Thrown, w2) => (internalServerError, w2)
          end
    end.
Proof.
  unfold deleteContent, handle, deleteContentBody. simpl.
  unfold bind at 1, query, call.
  destruct (fails env ContentFindById); [reflexivity|].
  destruct (findContentById contentId (contents w)) as [content|]; [|reflexivity].
  destruct (negb (c_userId content =? userId)); [reflexivity|].
  unfold bind at 1.
  assert (V : (match c_embeddingId content with
               | Some e =>
                   tryCatch
                     (update env PineconeDelete
                        (fun w0 => setVectors (deleteVector e (vectors w0)) w0))
                     (ret tt)
               | None => ret tt
               end) w = (Val tt, afterVectorDelete env content w)).
  { unfold afterVectorDelete, tryCatch, update, call, ret.
    destruct (c_embeddingId content); [|reflexivity].
    destruct (fails env PineconeDelete); reflexivity. }
  rewrite V. unfold bind at 1.
  destruct (sweepTags env 0 contentId (c_tags content)
              (afterVectorDelete env content w)) as [[[] | r | ] w2]; try reflexivity.
  unfold bind, update, call, ret.
  destruct (fails env ContentDelete); reflexivity.
Qed.

Lemma deleteTagById_In id coll tag :
  In tag (deleteTagById id coll) <-> In tag coll /\ t_id tag <> id.
Proof.
  unfold deleteTagById. rewrite filter_In.
  destruct (Nat.eqb_spec (t_id tag) id); simpl; intuition congruence.
Qed.

Lemma sweepTags_never_sends contentId tags :
  forall i w r w', sweepTags env i contentId tags w <> (Sent r, w').
Proof.
  induction tags as [|t rest IH]; intros i w r w' E; simpl in E; [discriminate|].
  unfold bind at 1, query, call in E.
  destruct (fails env (ContentExists i)); [discriminate|].
  destruct (tagUsedElsewhere contentId t (contents w)).
  - unfold bind, ret in E. eapply IH, E.
  - unfold bind, update, call in E.
    destruct (fails env (TagDelete i)); [discriminate|]. eapply IH, E.
Qed.

(** The sweep writes Tags only. *)
Lemma sweepTags_contents contentId tags :
  forall i w o w',
    sweepTags env i contentId tags w = (o, w') -> contents w' = contents w.
Proof.
  induction tags as [|t rest IH]; intros i w o w' E; simpl in E.
  - now inversion E.
  - unfold bind at 1, query, call in E.
    destruct (fails env (ContentExists i)); [now inversion E|].
    destruct (tagUsedElsewhere contentId t (contents w)).
    + unfold bind, ret in E. eapply IH, E.
    + unfold bind, update, call in E.
      destruct (fails env (TagDelete i)); [now inversion E|].
      apply IH in E. exact E.
Qed.

(** The sweep creates no Tag. *)
Lemma sweepTags_shrinks contentId tags :
  forall i w o w' tag,
    sweepTags env i contentId tags w = (o, w') ->
    In tag (tagColl w') -> In tag (tagColl w).
Proof.
  induction tags as [|t rest IH]; intros i w o w' tag E; simpl in E.
  - now inversion E.
  - unfold bind at 1, query, call in E.
    destruct (fails env (ContentExists i)); [now inversion E|].
    destruct (tagUsedElsewhere contentId t (contents w)).
    + unfold bind, ret in E. eapply IH, E.
    + unfold bind, update, call in E.
      destruct (fails env (TagDelete i)); [now inversion E|].
      intros Hin. eapply IH in Hin; [|exact E]. simpl in Hin.
      apply deleteTagById_In in Hin. tauto.
Qed.

(** A Tag that another document references survives the sweep,
    whatever way the sweep ends. *)
Lemma sweepTags_keeps_used contentId tags :
  forall i w o w' tag,
    sweepTags env i contentId tags w = (o, w') ->
    tagUsedElsewhere contentId (t_id tag) (contents w) = true ->
    In tag (tagColl w) -> In tag (tagColl w').
Proof.
  induction tags as [|t rest IH]; intros i w o w' tag E Hused Hin; simpl in E.
  - now inversion E; subst.
  - unfold bind at 1, query, call in E.
    destruct (fails env (ContentExists i)); [now inversion E; subst|].
    destruct (tagUsedElsewhere contentId t (contents w)) eqn:Ht.
    + unfold bind, ret in E. eapply IH; eassumption.
    + unfold bind, update, call in E.
      destruct (fails env (TagDelete i)); [now inversion E; subst|].
      eapply IH; [exact E | exact Hused |]. simpl.
      apply deleteTagById_In. split; [exact Hin|].
      intros Heq. rewrite Heq in Hused. congruence.
Qed.

(** A completed sweep has deleted every swept Tag that no other
    document references. *)
Lemma sweepTags_deletes_unused contentId tags :
  forall i w w' t,
    sweepTags env i contentId tags w = (Val tt, w') ->
    In t tags ->
    tagUsedElsewhere contentId t (contents w) = false ->
    forall tag, In tag (tagColl w') -> t_id tag <> t.
Proof.
  induction tags as [|t0 rest IH]; intros i w w' t E Hin Hunused tag Htag;
    simpl in E; [contradiction|].
  unfold bind at 1, query, call in E.
  destruct (fails env (ContentExists i)); [discriminate|].
  destruct (tagUsedElsewhere contentId t0 (contents w)) eqn:Ht0.
  - unfold bind, ret in E. destruct Hin as [->|Hin]; [congruence|].
    eapply IH; eassumption.
  - unfold bind, update, call in E.
    destruct (fails env (TagDelete i)); [discriminate|].
    destruct Hin as [->|Hin].
    + eapply sweepTags_shrinks in Htag; [|exact E]. simpl in Htag.
      apply deleteTagById_In in Htag. tauto.
    + eapply IH; [exact E | exact Hin | exact Hunused | exact Htag].
Qed.

End DeleteContent.

(** [C7]: a [deleteItem] call for an item that is absent answers
    NotFound (404), and a call by someone who is not the owner answers
    Forbidden (403); in both cases the stores are exactly as before: the
    checks come before any write.  (The lookup itself is assumed to
    answer.) *)
Theorem delete_rejections_mutate_nothing (env : Env) (userId contentId : ObjectId)
    (w : World) :
  fails env ContentFindById = false ->
  (findContentById contentId (contents w) = None ->
   deleteContent env (mkDeleteRequest userId (Some contentId)) w
   = (contentNotFound, w))
  /\
  (forall content,
     findContentById contentId (contents w) = Some content ->
     c_userId content <> userId ->
     deleteContent env (mkDeleteRequest userId (Some contentId)) w
     = (forbidden, w)).
Proof.
  intros Hio. split.
  - intros Hnone. now rewrite deleteContent_unfold, Hio, Hnone.
  - intros content Hsome Howner.
    rewrite deleteContent_unfold, Hio, Hsome.
    destruct (Nat.eqb_spec (c_userId content) userId); [contradiction | reflexivity].
Qed.

Lemma delete_rejections_mutate_nothing_witness :
  deleteContent demoEnv (mkDeleteRequest 7 (Some 5)) sharedTagWorld
  = (contentNotFound, sharedTagWorld)
  /\
  deleteContent demoEnv (mkDeleteRequest 7 (Some 2)) sharedTagWorld
  = (forbidden, sharedTagWorld).
Proof.
  destruct (delete_rejections_mutate_nothing demoEnv 7 5 sharedTagWorld eq_refl)
    as [Habsent _].
  destruct (delete_rejections_mutate_nothing demoEnv 7 2 sharedTagWorld eq_refl)
    as [_ Hforeign].
  split.
  - exact (Habsent eq_refl).
  - apply (Hforeign
             (mkContent 2 "https://youtu.be/abc12345678" Video "other"
                "Demo video" "A demonstration" "" (Some 2) [0] 8) eq_refl).
    discriminate.
Defined.

(** ** Tag garbage collection *)

Lemma find_filter {A} (f g : A -> bool) (l : list A) :
  (forall x, f x = true -> g x = true) ->
  find f (filter g l) = find f l.
Proof.
  intros H. induction l as [|x l IH]; simpl; [reflexivity|].
  destruct (f x) eqn:Hf.
  - rewrite (H _ Hf). simpl. now rewrite Hf.
  - destruct (g x); simpl; [now rewrite Hf | exact IH].
Qed.

Lemma tagUsedElsewhere_true contentId tagId coll c :
  In c coll -> c_id c <> contentId -> In tagId (c_tags c) ->
  tagUsedElsewhere contentId tagId coll = true.
Proof.
  intros Hin Hid Htag. unfold tagUsedElsewhere. apply existsb_exists.
  exists c. split; [exact Hin|]. apply andb_true_iff. split.
  - apply negb_true_iff. now apply Nat.eqb_neq.
  - apply existsb_exists. exists tagId. split; [exact Htag | apply Nat.eqb_refl].
Qed.

Lemma tagUsedElsewhere_false contentId tagId coll :
  (forall c, In c coll -> In tagId (c_tags c) -> c_id c = contentId) ->
  tagUsedElsewhere contentId tagId coll = false.
Proof.
  intros H. unfold tagUsedElsewhere.
  destruct (existsb _ coll) eqn:E; [|reflexivity].
  apply existsb_exists in E. destruct E as (c & Hin & Hc).
  apply andb_true_iff in Hc. destruct Hc as [Hid Htag].
  apply existsb_exists in Htag. destruct Htag as (t & Ht & Heq).
  apply Nat.eqb_eq in Heq. subst t.
  rewrite (H c Hin Ht), Nat.eqb_refl in Hid. discriminate.
Qed.

(** [C6]: a Tag referenced by two Items, and by no other, is still there
    after [deleteItem] on the first of them, and is gone after a
    successful [deleteItem] on the second that follows a successful one on
    the first. *)
Theorem shared_tag_collected_with_last_item (env1 env2 : Env)
    (u1 u2 i1 i2 t : ObjectId) (c1 c2 : Content) (w : World) :
  i1 <> i2 ->
  findContentById i1 (contents w) = Some c1 ->
  findContentById i2 (contents w) = Some c2 ->
  In t (c_tags c1) ->
  In t (c_tags c2) ->
  (forall c, In c (contents w) -> In t (c_tags c) -> c_id c = i1 \/ c_id c = i2) ->
  let first := deleteContent env1 (mkDeleteRequest u1 (Some i1)) w in
  let second := deleteContent env2 (mkDeleteRequest u2 (Some i2)) (snd first) in
  (forall tag, In tag (tagColl w) -> t_id tag = t -> In tag (tagColl (snd first)))
  /\
  (status (fst first) = 200 -> status (fst second) = 200 ->
   forall tag, In tag (tagColl (snd second)) -> t_id tag <> t).
Proof.
  intros Hneq H1 H2 Ht1 Ht2 Honly first second.
  assert (Hc2 : In c2 (contents w) /\ c_id c2 = i2).
  { apply find_some in H2. destruct H2 as [? E]. apply Nat.eqb_eq in E. now split. }
  destruct Hc2 as [Hin2 Hid2].
  split.
  - intros tag Hin Htag. subst first. rewrite deleteContent_unfold, H1.
    destruct (fails env1 ContentFindById); [exact Hin|].
    destruct (negb (c_userId c1 =? u1)); [exact Hin|].
    destruct (sweepTags env1 0 i1 (c_tags c1) (afterVectorDelete env1 c1 w))
      as [[[] | r | ] w2] eqn:E.
    all: assert (K : In tag (tagColl w2));
      [ eapply sweepTags_keeps_used;
        [ exact E
        | rewrite afterVectorDelete_contents;
          eapply tagUsedElsewhere_true; [exact Hin2 | congruence | congruence]
        | now rewrite afterVectorDelete_tags ]
      | ].
    + destruct (fails env1 ContentDelete); exact K.
    + exact K.
    + exact K.
  - intros S1 S2 tag Hin.
    assert (Hw1 : contents (snd first) = deleteContentById i1 (contents w)).
    { subst first second. revert S1. rewrite deleteContent_unfold, H1.
      destruct (fails env1 ContentFindById); [discriminate|].
      destruct (negb (c_userId c1 =? u1)); [discriminate|].
      destruct (sweepTags env1 0 i1 (c_tags c1) (afterVectorDelete env1 c1 w))
        as [[[] | r | ] w2] eqn:E.
      - destruct (fails env1 ContentDelete); [discriminate|]. intros _. simpl.
        apply sweepTags_contents in E.
        now rewrite E, afterVectorDelete_contents.
      - exfalso. eapply sweepTags_never_sends, E.
      - discriminate. }
    assert (Hfind : findContentById i2 (contents (snd first)) = Some c2).
    { rewrite Hw1. unfold findContentById, deleteContentById.
      rewrite find_filter; [exact H2|].
      intros x Hx. apply Nat.eqb_eq in Hx. apply negb_true_iff, Nat.eqb_neq.
      congruence. }
    subst second. revert S2 Hin. rewrite deleteContent_unfold, Hfind.
    destruct (fails env2 ContentFindById); [discriminate|].
    destruct (negb (c_userId c2 =? u2)); [discriminate|].
    destruct (sweepTags env2 0 i2 (c_tags c2) (afterVectorDelete env2 c2 (snd first)))
      as [[[] | r | ] w2] eqn:E.
    + destruct (fails env2 ContentDelete); [discriminate|]. intros _. simpl.
      eapply sweepTags_deletes_unused; [exact E | exact Ht2 |].
      rewrite afterVectorDelete_contents, Hw1.
      apply tagUsedElsewhere_false. intros c Hc Htc.
      apply filter_In in Hc. destruct Hc as [Hc Hne].
      apply negb_true_iff, Nat.eqb_neq in Hne.
      destruct (Honly c Hc Htc); [contradiction | assumption].
    + exfalso. eapply sweepTags_never_sends, E.
    + discriminate.
Qed.

Lemma shared_tag_collected_with_last_item_witness :
  In (mkTag 0 "x")
     (tagColl (snd (deleteContent demoEnv (mkDeleteRequest 7 (Some 1))
                      sharedTagWorld)))
  /\
  forall tag,
    In tag (tagColl
              (snd (deleteContent demoEnv (mkDeleteRequest 8 (Some 2))
                      (snd (deleteContent demoEnv (mkDeleteRequest 7 (Some 1))
                              sharedTagWorld))))) ->
    t_id tag <> 0.
Proof.
  assert (Honly : forall c, In c (contents sharedTagWorld) ->
                            In 0 (c_tags c) -> c_id c = 1 \/ c_id c = 2).
  { simpl. intros c [<-|[<-|[]]] _; [now left | now right]. }
  destruct (shared_tag_collected_with_last_item demoEnv demoEnv 7 8 1 2 0
              (setEmbeddingId (Some 1)
                 (demoContent 1 "https://youtu.be/abc12345678" [0]))
              (mkContent 2 "https://youtu.be/abc12345678" Video "other"
                 "Demo video" "A demonstration" "" (Some 2) [0] 8)
              sharedTagWorld
              ltac:(discriminate) eq_refl eq_refl
              (or_introl eq_refl) (or_introl eq_refl) Honly)
    as [Hkept Hgone].
  split.
  - apply Hkept; [now left | reflexivity].
  - apply Hgone; reflexivity.
Defined.

Example first_delete_keeps_tag :
  tagColl (snd (deleteContent demoEnv (mkDeleteRequest 7 (Some 1)) sharedTagWorld))
  = [mkTag 0 "x"].
Proof. reflexivity. Qed.

Example second_delete_collects_tag :
  deleteContent demoEnv (mkDeleteRequest 8 (Some 2))
    (snd (deleteContent demoEnv (mkDeleteRequest 7 (Some 1)) sharedTagWorld))
  = (deleteSucceeded,
     mkWorld [mkUser 7 "ann" false; mkUser 8 "bob" true] [] [] [] 3).
Proof. reflexivity. Qed.

(** ** The invariant of the document store *)

Lemma storeInv_empty : storeInv emptyWorld.
Proof. repeat split; simpl; try tauto. constructor. Qed.

Lemma NoDup_map_filter {A B} (f : A -> B) (g : A -> bool) (l : list A) :
  NoDup (map f l) -> NoDup (map f (filter g l)).
Proof.
  induction l as [|x l IH]; simpl; intros H; [constructor|].
  inversion H as [|? ? Hnotin Hnd]; subst.
  destruct (g x); simpl; [|now apply IH].
  constructor; [|now apply IH].
  intros Hin. apply Hnotin. apply in_map_iff in Hin.
  destruct Hin as (y & Hy & Hin). apply filter_In in Hin.
  apply in_map_iff. exists y. tauto.
Qed.

Lemma updateEmbeddingId_ids id v coll :
  map c_id (updateEmbeddingId id v coll) = map c_id coll.
Proof.
  unfold updateEmbeddingId. rewrite map_map. apply map_ext.
  intros c. now destruct (c_id c =? id).
Qed.

Section Invariant.

Variable env : Env.

Lemma getTagIdsLoop_nextId tags :
  forall i acc w o w',
    getTagIdsLoop env i tags acc w = (o, w') -> nextId w <= nextId w'.
Proof.
  induction tags as [|title rest IH]; intros i acc w o w' H.
  - inversion H. lia.
  - simpl in H. unfold bind, query, call in H.
    destruct (fails env (TagFindOne i)); [inversion H; lia|].
    simpl in H.
    destruct (findTagByTitle title (tagColl w)); simpl in H.
    + eapply IH, H.
    + unfold saveTag, throw in H. simpl in H.
      destruct (String.eqb title ""); [inversion H; simpl; lia|].
      destruct (fails env (TagSave i)); [inversion H; simpl; lia|].
      destruct (existsb _ _); [inversion H; simpl; lia|].
      simpl in H. apply IH in H. simpl in H. lia.
Qed.

Lemma storeInv_weaken w w' :
  contents w' = contents w -> nextId w <= nextId w' ->
  storeInv w -> storeInv w'.
Proof.
  intros Hc Hn (Hlt & Hnd & Hemb). unfold storeInv. rewrite Hc.
  repeat split; try assumption.
  intros c Hin. specialize (Hlt c Hin). lia.
Qed.

Lemma createContent_storeInv req w o w' :
  createContent env req w = (o, w') -> storeInv w -> storeInv w'.
Proof.
  unfold createContent. intros H Hinv.
  destruct (a_tags req) as [tags|]; [|now inversion H; subst].
  unfold bind at 1 in H. simpl in H. unfold bind at 1 in H.
  destruct (getTagIds env tags w) as [[ids | r | ] w1] eqn:E.
  2:{ exfalso. eapply getTagIdsLoop_never_sends, E. }
  2:{ inversion H; subst.
      pose proof (getTagIdsLoop_sameItems env _ _ _ _ _ _ E) as (_ & Sc & _).
      eapply storeInv_weaken; [exact Sc | eapply getTagIdsLoop_nextId, E | exact Hinv]. }
  assert (Hinv1 : storeInv w1).
  { pose proof (getTagIdsLoop_sameItems env _ _ _ _ _ _ E) as (_ & Sc & _).
    eapply storeInv_weaken; [exact Sc | eapply getTagIdsLoop_nextId, E | exact Hinv]. }
  clear E Hinv.
  destruct (a_link req) as [link|]; [|now inversion H; subst].
  unfold bind at 1 in H. simpl in H.
  destruct (extractYouTubeVideoId link) as [videoId|]; [|now inversion H; subst].
  unfold bind at 1, query, call in H.
  destruct (fails env YoutubeGet); [now inversion H; subst|].
  destruct (youtubeItems env videoId) as [|snippet items]; [now inversion H; subst|].
  unfold bind at 1 in H.
  destruct (fails env GetEmbedding); [now inversion H; subst|].
  unfold bind at 1, newObjectId in H. unfold bind in H.
  assert (Hinv2 : storeInv (setNextId (S (nextId w1)) w1)).
  { apply (storeInv_weaken w1); [reflexivity | simpl; lia | exact Hinv1]. }
  match type of H with
  | context [saveNewContent ?e ?r ?i ?l ?a ?b ?c ?d ?ww] =>
      destruct (saveNewContent e r i l a b c d ww) as [[c0 | r0 | ] w2] eqn:E2
  end.
  - inversion H; subst. apply saveNewContent_val in E2.
    destruct E2 as (-> & Hid & He & _).
    destruct Hinv1 as (Hlt & Hnd & Hemb).
    unfold storeInv. simpl. repeat split.
    + intros c Hin. apply in_app_or in Hin. destruct Hin as [Hin|[<-|[]]].
      * specialize (Hlt c Hin). lia.
      * lia.
    + rewrite map_app. simpl. apply NoDup_app; [exact Hnd | repeat constructor; auto |].
      intros x Hx [<-|[]]. apply in_map_iff in Hx. destruct Hx as (c & Hc & Hin).
      specialize (Hlt c Hin). lia.
    + intros c Hin. apply in_app_or in Hin. destruct Hin as [Hin|[<-|[]]].
      * now apply Hemb.
      * now left.
  - apply saveNewContent_not_val in E2; [|discriminate]. destruct E2; discriminate.
  - apply saveNewContent_not_val in E2; [|discriminate]. destruct E2 as [_ ->].
    now inversion H; subst.
Qed.

Lemma indexContent_storeInv c v w o w' :
  indexContent env c v w = (o, w') -> storeInv w -> storeInv w'.
Proof.
  unfold indexContent, bind, update, call, ret. intros H Hinv.
  destruct (fails env PineconeUpsert); [now inversion H; subst|].
  destruct (fails env ContentBackfill); inversion H; subst; [exact Hinv|].
  destruct Hinv as (Hlt & Hnd & Hemb). unfold storeInv. simpl.
  rewrite updateEmbeddingId_ids. repeat split; [|exact Hnd|].
  - intros d Hin. apply in_map_iff in Hin. destruct Hin as (d0 & <- & Hin).
    specialize (Hlt d0 Hin). now destruct (c_id d0 =? c_id c).
  - intros d Hin. apply in_map_iff in Hin. destruct Hin as (d0 & <- & Hin).
    destruct (Nat.eqb_spec (c_id d0) (c_id c)) as [Heq|Hne].
    + right. simpl. now rewrite Heq.
    + now apply Hemb.
Qed.

(** Every handler keeps the invariant. *)
Lemma postContent_storeInv req w :
  storeInv w -> storeInv (snd (postContent env req w)).
Proof.
  intros Hinv. rewrite postContent_unfold.
  destruct (createContent env req w) as [[created | r | ] w1] eqn:E;
    apply createContent_storeInv in E; try assumption.
  destruct (indexContent env (fst created) (snd created) w1)
    as [[n | r | ] w2] eqn:E2;
    apply indexContent_storeInv in E2; assumption.
Qed.

Lemma deleteContent_storeInv req w :
  storeInv w -> storeInv (snd (deleteContent env req w)).
Proof.
  intros Hinv. destruct req as [userId [contentId|]]; [|exact Hinv].
  rewrite deleteContent_unfold.
  destruct (fails env ContentFindById); [exact Hinv|].
  destruct (findContentById contentId (contents w)) as [content|]; [|exact Hinv].
  destruct (negb (c_userId content =? userId)); [exact Hinv|].
  assert (Hsweep : forall o w2,
             sweepTags env 0 contentId (c_tags content)
               (afterVectorDelete env content w) = (o, w2) ->
             contents w2 = contents w /\ nextId w2 = nextId w).
  { intros o w2 E. split.
    - apply sweepTags_contents in E. now rewrite E, afterVectorDelete_contents.
    - assert (N : nextId (afterVectorDelete env content w) = nextId w).
      { unfold afterVectorDelete. destruct (c_embeddingId content); [|reflexivity].
        destruct (fails env PineconeDelete); reflexivity. }
      rewrite <- N. clear N. revert E.
      generalize (afterVectorDelete env content w) 0.
      induction (c_tags content) as [|t rest IH]; intros w0 i E; simpl in E.
      + now inversion E.
      + unfold bind at 1, query, call in E.
        destruct (fails env (ContentExists i)); [now inversion E|].
        destruct (tagUsedElsewhere contentId t (contents w0)).
        * unfold bind, ret in E. eapply IH, E.
        * unfold bind, update, call in E.
          destruct (fails env (TagDelete i)); [now inversion E|].
          apply IH in E. exact E. }
  destruct (sweepTags env 0 contentId (c_tags content)
              (afterVectorDelete env content w)) as [[[] | r | ] w2] eqn:E;
    destruct (Hsweep _ _ eq_refl) as [Hc Hn].
  - destruct (fails env ContentDelete); simpl.
    + eapply storeInv_weaken; [exact Hc | lia | exact Hinv].
    + destruct Hinv as (Hlt & Hnd & Hemb). unfold storeInv. simpl.
      rewrite Hc, Hn. unfold deleteContentById. repeat split.
      * intros c Hin. apply filter_In in Hin. now apply Hlt.
      * now apply NoDup_map_filter.
      * intros c Hin. apply filter_In in Hin. now apply Hemb.
  - simpl. eapply storeInv_weaken; [exact Hc | lia | exact Hinv].
  - simpl. eapply storeInv_weaken; [exact Hc | lia | exact Hinv].
Qed.

End Invariant.

(** ** Handlers that only read *)

Section ReadOnly.

Variable env : Env.

Lemma getSearch_reads req w : snd (getSearch env req w) = w.
Proof.
  symmetry. unfold getSearch. apply (preserves_handle eq).
  unfold getSearchBody. destruct (q_text req) as [[|c s]|]; frame.
Qed.

Lemma getContent_reads req w : snd (getContent env req w) = w.
Proof.
  symmetry. unfold getContent. apply (preserves_handle eq).
  unfold getContentBody, findPage, countContents. frame.
Qed.

Lemma getBrainShare_reads shareLink w : snd (getBrainShare env shareLink w) = w.
Proof.
  symmetry. unfold getBrainShare. apply (preserves_handle eq).
  unfold getBrainShareBody. frame.
Qed.

End ReadOnly.

(** Every store that the handlers lead to satisfies the invariant. *)
Lemma reachable_storeInv w : reachable w -> storeInv w.
Proof.
  induction 1 as [w Hempty | env r w Hr IH].
  - unfold storeInv. rewrite Hempty. simpl.
    repeat split; try tauto. constructor.
  - destruct r; simpl.
    + now apply postContent_storeInv.
    + now rewrite getContent_reads.
    + now apply deleteContent_storeInv.
    + now rewrite getSearch_reads.
    + now rewrite getBrainShare_reads.
Qed.

(** ** Semantic search *)

Lemma insertById_In c d sorted :
  In d (insertById c sorted) <-> d = c \/ In d sorted.
Proof.
  induction sorted as [|x rest IH]; simpl.
  - intuition.
  - destruct (c_id x <=? c_id c); simpl; [intuition | rewrite IH; intuition].
Qed.

Lemma sortByIdDesc_In d cs : In d (sortByIdDesc cs) <-> In d cs.
Proof.
  induction cs as [|c cs IH]; simpl; [tauto|].
  rewrite insertById_In, IH. intuition.
Qed.

Lemma firstn_In {A} (n : nat) (l : list A) (x : A) :
  In x (firstn n l) -> In x l.
Proof.
  revert l. induction n as [|n IH]; intros [|y l]; simpl; try tauto.
  intros [->|H]; [now left | right; now apply IH].
Qed.

Lemma skipn_In {A} (n : nat) (l : list A) (x : A) :
  In x (skipn n l) -> In x l.
Proof.
  revert l. induction n as [|n IH]; intros [|y l]; simpl; try tauto.
  intros H. right. now apply IH.
Qed.

Lemma skipLimit_incl {A} (s l : Js.Number) (docs page : list A) :
  skipLimit s l docs = Some page -> incl page docs.
Proof.
  unfold skipLimit. destruct (Js.toCount s) as [skip|]; [|discriminate].
  destruct l as [| | |q]; try discriminate.
  destruct (Qeq_bool _ _); [|discriminate].
  destruct (Z.abs_nat (Qfloor q)) as [|n]; intros H; inversion H; subst;
    intros x Hx.
  - eapply skipn_In, Hx.
  - apply (firstn_In (S n)) in Hx. eapply skipn_In, Hx.
Qed.

Section Search.

Variable env : Env.

(** The handler in direct style, for a query text that is not empty. *)
Lemma getSearch_unfold userId c s w :
  getSearch env (mkSearchRequest userId (Some (String c s))) w =
  if fails env GetEmbedding then (internalServerError, w)
  else if fails env PineconeQuery then (internalServerError, w)
  else
    match filteredMatches
            (queryMatches env (vectors w) (embedding env (String c s)) 5) with
    | [] => (respond 200 (BResults []), w)
    | m :: ms =>
        if fails env ContentFind then (internalServerError, w)
        else
          (respond 200
             (BResults
                (map (populate (tagColl w))
                   (findByEmbeddingIds (map match_id (m :: ms)) userId
                      (contents w)))), w)
    end.
Proof.
  unfold getSearch, handle, getSearchBody. simpl.
  unfold bind at 1, query, call.
  destruct (fails env GetEmbedding); [reflexivity|].
  unfold bind at 1.
  destruct (fails env PineconeQuery); [reflexivity|].
  destruct (filteredMatches _) as [|m ms]; [reflexivity|].
  unfold bind, ret. destruct (fails env ContentFind); reflexivity.
Qed.

Lemma findByEmbeddingIds_In ids userId coll c :
  In c (findByEmbeddingIds ids userId coll) <->
  In c coll /\ c_userId c = userId /\
  exists e, c_embeddingId c = Some e /\ In e ids.
Proof.
  unfold findByEmbeddingIds. rewrite filter_In, andb_true_iff, Nat.eqb_eq.
  destruct (c_embeddingId c) as [e|].
  - rewrite existsb_exists. split.
    + intros (Hin & (x & Hx & Heq) & Hu). apply Nat.eqb_eq in Heq. subst x.
      repeat split; try assumption. now exists e.
    + intros (Hin & Hu & (x & Heq & Hx)). inversion Heq; subst x.
      repeat split; try assumption. exists e. split; [exact Hx | apply Nat.eqb_refl].
  - split; [intros (_ & ? & _); discriminate | intros (_ & _ & (e & ? & _)); discriminate].
Qed.


Lemma threshold_above_two_fifths :
  (2 # 5 <= 3602879701896397 # 9007199254740992)%Q.
Proof. unfold Qle. simpl. lia. Qed.

(** A match that passes the filter has a score, and the score is not
    below 0.4. *)
Lemma aboveThreshold_score m :
  aboveThreshold m = true ->
  exists score,
    match_score m = Some score /\ Js.ge score (Js.Fin (2 # 5)) = true.
Proof.
  unfold aboveThreshold. destruct (match_score m) as [score|]; [|discriminate].
  intros H. exists score. split; [reflexivity|].
  destruct score as [| | |q]; simpl in *; try discriminate; try reflexivity.
  apply Qle_bool_iff. apply Qle_bool_iff in H.
  eapply Qle_trans; [apply threshold_above_two_fifths | exact H].
Qed.


End Search.

Lemma map_p_doc_populate coll docs :
  map p_doc (map (populate coll) docs) = docs.
Proof. rewrite map_map. simpl. apply map_id. Qed.

(** Whatever the collaborators do, an Item in the response of [search]
    is the Item of a match that passed the filter. *)
Lemma search_items_passed_filter (env : Env) (req : SearchRequest) (w : World) :
  Forall (fun c =>
            exists text m score,
              q_text req = Some text /\
              In m (filteredMatches
                      (queryMatches env (vectors w) (embedding env text) 5)) /\
              c_embeddingId c = Some (match_id m) /\
              match_score m = Some score /\
              Js.ge score (Js.Fin (2 # 5)) = true)
    (itemsOf (fst (getSearch env req w))).
Proof.
  destruct req as [userId [[|c s]|]]; try (constructor; fail).
  rewrite getSearch_unfold.
  destruct (fails env GetEmbedding); [constructor|].
  destruct (fails env PineconeQuery); [constructor|].
  destruct (filteredMatches _) as [|m ms] eqn:E; [constructor|].
  destruct (fails env ContentFind); [constructor|].
  unfold itemsOf. cbn [body fst respond]. rewrite map_p_doc_populate.
  apply Forall_forall. intros doc Hdoc.
  apply findByEmbeddingIds_In in Hdoc. destruct Hdoc as (_ & _ & e & Hemb & Hin).
  apply in_map_iff in Hin. destruct Hin as (m0 & <- & Hm0).
  assert (Hpass : aboveThreshold m0 = true).
  { rewrite <- E in Hm0. unfold filteredMatches in Hm0.
    apply filter_In in Hm0. tauto. }
  destruct (aboveThreshold_score m0 Hpass) as (score & Hs & Hge).
  exists (String c s), m0, score. cbn [q_text]. rewrite E.
  repeat split; assumption.
Qed.

Lemma storeInv_sharedTagWorld : storeInv sharedTagWorld.
Proof.
  repeat split; simpl.
  - intros c [<-|[<-|[]]]; simpl; lia.
  - repeat constructor; simpl; intuition discriminate.
  - intros c [<-|[<-|[]]]; simpl; now right.
Qed.



Example search_drops_low_scores_and_foreign_items :
  itemsOf (fst (getSearch searchEnv (mkSearchRequest 7 (Some "demo"))
                  sharedTagWorld))
  = [setEmbeddingId (Some 1) (demoContent 1 "https://youtu.be/abc12345678" [0])].
Proof. reflexivity. Qed.

(** ** Ownership isolation *)

Section Listing.

Variable env : Env.

(** The handler in direct style. *)
Lemma getContent_unfold req w :
  getContent env req w =
  let userId := l_userId req in
  let page := effectivePage req in
  let limit := effectiveLimit req in
  let owned := filter (fun c => c_userId c =? userId) (contents w) in
  if fails env ContentFind then (internalServerError, w)
  else
    match skipLimit (Js.mul (Js.sub page (Js.ofNat 1)) limit) limit
            (sortByIdDesc owned) with
    | None => (internalServerError, w)
    | Some docs =>
        if fails env ContentCount then (internalServerError, w)
        else
          (respond 200
             (BPage
                (mkPage (map (populate (tagColl w)) docs)
                   (List.length owned) page
                   (Js.ceil (Js.div (Js.ofNat (List.length owned)) limit))
                   (Js.lt (Js.mul page limit) (Js.ofNat (List.length owned)))
                   (Js.gt page (Js.ofNat 1)))), w)
    end.
Proof.
  unfold getContent, handle, getContentBody, findPage, countContents.
  unfold bind at 1. unfold bind at 1. unfold query, call.
  destruct (fails env ContentFind); [reflexivity|].
  destruct (skipLimit _ _ _) as [docs|]; simpl; [|reflexivity].
  unfold bind, ret. destruct (fails env ContentCount); reflexivity.
Qed.

End Listing.

(** [C2]: whatever the stores hold and whatever the similarity index
    answers, every Item that [search], [listItems] or [findByVectorRefs]
    returns to owner [A] is a stored Item whose owner identifier is
    [A]. *)
Theorem ownership_isolation (env : Env) (A : ObjectId) (w : World) :
  (forall q,
     Forall (fun c => c_userId c = A /\ In c (contents w))
       (itemsOf (fst (getSearch env (mkSearchRequest A q) w))))
  /\
  (forall page limit,
     Forall (fun c => c_userId c = A /\ In c (contents w))
       (itemsOf (fst (getContent env (mkListRequest A page limit) w))))
  /\
  (forall ids,
     Forall (fun c => c_userId c = A /\ In c (contents w))
       (findByEmbeddingIds ids A (contents w))).
Proof.
  assert (Hfind : forall ids,
             Forall (fun c => c_userId c = A /\ In c (contents w))
               (findByEmbeddingIds ids A (contents w))).
  { intros ids. apply Forall_forall. intros c Hc.
    apply findByEmbeddingIds_In in Hc. tauto. }
  split; [|split; [|exact Hfind]].
  - intros [[|c s]|]; try (constructor; fail).
    rewrite getSearch_unfold.
    destruct (fails env GetEmbedding); [constructor|].
    destruct (fails env PineconeQuery); [constructor|].
    destruct (filteredMatches _) as [|m ms]; [constructor|].
    destruct (fails env ContentFind); [constructor|].
    unfold itemsOf. cbn [body fst respond]. rewrite map_p_doc_populate.
    apply (Hfind (map match_id (m :: ms))).
  - intros page limit. rewrite getContent_unfold. simpl.
    destruct (fails env ContentFind); [constructor|].
    destruct (skipLimit _ _ _) as [docs|] eqn:E; [|constructor].
    destruct (fails env ContentCount); [constructor|].
    unfold itemsOf. cbn [body fst respond pg_results].
    rewrite map_p_doc_populate. apply Forall_forall. intros c Hc.
    apply (skipLimit_incl _ _ _ _ E), sortByIdDesc_In, filter_In in Hc.
    destruct Hc as [Hin Hu]. apply Nat.eqb_eq in Hu. now split.
Qed.

(** ** The shared view *)

Section Sharing.

Variable env : Env.

(** The handler in direct style. *)
Lemma getBrainShare_unfold shareLink w :
  getBrainShare env shareLink w =
  if fails env UserFindById then (internalServerError, w)
  else
    match findUserById shareLink (users w) with
    | None => (sharedBrainNotFound, w)
    | Some user =>
        if negb (u_isShared user) then (sharedBrainNotFound, w)
        else if fails env ContentFind then (internalServerError, w)
        else
          (respond 200
             (BSharedBrain (u_username user)
                (map formatContent
                   (map (populate (tagColl w))
                      (filter (fun c => c_userId c =? u_id user)
                         (contents w))))), w)
    end.
Proof.
  unfold getBrainShare, handle, getBrainShareBody.
  unfold bind at 1, query, call.
  destruct (fails env UserFindById); [reflexivity|].
  destruct (findUserById shareLink (users w)) as [user|]; [|reflexivity].
  destruct (negb (u_isShared user)); [reflexivity|].
  unfold bind, ret. destruct (fails env ContentFind); reflexivity.
Qed.

Lemma findUserById_id shareLink coll user :
  findUserById shareLink coll = Some user -> u_id user = shareLink.
Proof. intros H. apply find_some in H. now apply Nat.eqb_eq. Qed.

End Sharing.

Lemma map_title_populateTags coll ids :
  map t_title (populateTags coll ids)
  = flat_map (fun id =>
                match find (fun t => t_id t =? id) coll with
                | Some t => [t_title t]
                | None => []
                end) ids.
Proof.
  unfold populateTags. induction ids as [|id ids IH]; [reflexivity|].
  cbn [flat_map]. rewrite map_app, IH.
  now destruct (find (fun t => t_id t =? id) coll).
Qed.

(** [C9], as stated, fails: the shared view shows the identifier of an
    Item, and that identifier is the Item's vector reference, the key of
    its record in the vector index.  Here a sharing user adds one Item
    and the shared view is asked next. *)
Lemma shared_view_shows_vector_reference :
  let w := snd (postContent demoEnv
                  (demoAdd "https://youtu.be/abc12345678" ["x"]) sharingWorld) in
  exists item c,
    In item (sharedItemsOf (fst (getBrainShare demoEnv 7 w))) /\
    In c (contents w) /\
    c_embeddingId c = Some (sc_id item) /\
    In (sc_id item) (map v_id (vectors w)).
Proof.
  cbv zeta.
  exists (mkSharedContent 9 Video "https://youtu.be/abc12345678" "demo"
            "Demo video" "A demonstration" "https://i.ytimg.com/d.jpg" ["x"]).
  exists (setEmbeddingId (Some 9)
            (demoContent 9 "https://youtu.be/abc12345678" [8])).
  repeat split; left; reflexivity.
Qed.

(** [C9], amended: when the store answers, [getSharedView] returns the
    owner's username and all of that owner's Items exactly when the
    owner exists and has the shared flag set, and the one same 404 when
    the owner is absent or the flag is off.  An Item is shown as its
    identifier, type, link, title, the three fields of the metadata
    lookup and the titles of its tags, and nothing else: neither the
    owner identifier nor the vector-reference field.  The identifier
    that is shown is the Item's own, and in a well-formed document store
    it is the very value of the Item's vector reference when that is
    set. *)
Theorem shared_view_iff_shared (env : Env) (ownerId : ObjectId) (w : World) :
  fails env UserFindById = false ->
  fails env ContentFind = false ->
  let r := fst (getBrainShare env ownerId w) in
  let shown (c : Content) :=
    mkSharedContent (c_id c) (c_type c) (c_link c) (c_title c)
      (c_youtubeTitle c) (c_youtubeDescription c) (c_thumbnailUrl c)
      (flat_map (fun id =>
                   match find (fun t => t_id t =? id) (tagColl w) with
                   | Some t => [t_title t]
                   | None => []
                   end) (c_tags c)) in
  (forall user,
     findUserById ownerId (users w) = Some user ->
     u_isShared user = true ->
     r = respond 200
           (BSharedBrain (u_username user)
              (map shown
                 (filter (fun c => c_userId c =? ownerId) (contents w)))))
  /\
  (findUserById ownerId (users w) = None -> r = sharedBrainNotFound)
  /\
  (forall user,
     findUserById ownerId (users w) = Some user ->
     u_isShared user = false ->
     r = sharedBrainNotFound)
  /\
  (status r = 200 <->
   exists user,
     findUserById ownerId (users w) = Some user /\ u_isShared user = true)
  /\
  (storeInv w ->
   forall item, In item (sharedItemsOf r) ->
   exists c,
     In c (contents w) /\ c_userId c = ownerId /\ sc_id item = c_id c /\
     forall e, c_embeddingId c = Some e -> sc_id item = e).
Proof.
  intros Hu Hc r shown.
  assert (Hfmt : forall cs,
             map formatContent (map (populate (tagColl w)) cs) = map shown cs).
  { intros cs. rewrite map_map. apply map_ext. intros c.
    unfold formatContent, populate, shown. cbn [p_doc p_tags].
    now rewrite map_title_populateTags. }
  assert (Hids : storeInv w ->
                 forall item,
                   In item (map shown
                              (filter (fun c => c_userId c =? ownerId)
                                 (contents w))) ->
                   exists c,
                     In c (contents w) /\ c_userId c = ownerId /\
                     sc_id item = c_id c /\
                     forall e, c_embeddingId c = Some e -> sc_id item = e).
  { intros (_ & _ & Hemb) item Hitem.
    apply in_map_iff in Hitem. destruct Hitem as (c & <- & Hin).
    apply filter_In in Hin. destruct Hin as [Hin Hown].
    apply Nat.eqb_eq in Hown.
    exists c. repeat split; try assumption.
    intros e He. cbn [shown sc_id].
    destruct (Hemb c Hin) as [Hn|Hs]; congruence. }
  subst r. rewrite getBrainShare_unfold, Hu.
  destruct (findUserById ownerId (users w)) as [user|] eqn:E.
  - rewrite (findUserById_id _ _ _ E).
    destruct (u_isShared user) eqn:Es; cbn [negb]; rewrite ?Hc, ?Hfmt;
      cbn [fst].
    + split; [|split; [|split; [|split]]].
      * intros user' H _. now inversion H.
      * discriminate.
      * intros user' H Hs. inversion H; subst. congruence.
      * split; [intros _; now exists user | reflexivity].
      * exact Hids.
    + split; [|split; [|split; [|split]]].
      * intros user' H Hs. inversion H; subst. congruence.
      * discriminate.
      * reflexivity.
      * split; [discriminate|].
        intros (user' & H & Hs). inversion H; subst. congruence.
      * intros _ item [].
  - cbn [fst]. split; [|split; [|split; [|split]]].
    + discriminate.
    + reflexivity.
    + discriminate.
    + split; [discriminate | intros (user' & H & _); discriminate].
    + intros _ item [].
Qed.

Lemma shared_view_iff_shared_witness :
  fst (getBrainShare demoEnv 8 sharedTagWorld)
  = respond 200
      (BSharedBrain "bob"
         [mkSharedContent 2 Video "https://youtu.be/abc12345678" "other"
            "Demo video" "A demonstration" "" ["x"]])
  /\
  fst (getBrainShare demoEnv 7 sharedTagWorld) = sharedBrainNotFound
  /\
  fst (getBrainShare demoEnv 9 sharedTagWorld) = sharedBrainNotFound
  /\
  (forall item,
     In item (sharedItemsOf (fst (getBrainShare demoEnv 8 sharedTagWorld))) ->
     exists c,
       In c (contents sharedTagWorld) /\ c_userId c = 8 /\
       sc_id item = c_id c /\
       forall e, c_embeddingId c = Some e -> sc_id item = e).
Proof.
  destruct (shared_view_iff_shared demoEnv 8 sharedTagWorld eq_refl eq_refl)
    as (Hshared & _ & _ & _ & Hids).
  destruct (shared_view_iff_shared demoEnv 7 sharedTagWorld eq_refl eq_refl)
    as (_ & _ & Hoff & _).
  destruct (shared_view_iff_shared demoEnv 9 sharedTagWorld eq_refl eq_refl)
    as (_ & Habsent & _).
  split; [|split; [|split]].
  - exact (Hshared (mkUser 8 "bob" true) eq_refl eq_refl).
  - exact (Hoff (mkUser 7 "ann" false) eq_refl eq_refl).
  - exact (Habsent eq_refl).
  - exact (Hids storeInv_sharedTagWorld).
Defined.

(** ** Pagination *)

(** The effective page is at least 1. *)
Lemma effectivePage_ge_1 req :
  Js.ge (effectivePage req) (Js.ofNat 1) = true.
Proof.
  unfold effectivePage, Js.or.
  destruct (l_page req) as [| | |q]; simpl; try reflexivity.
  destruct (Qeq_bool q 0); simpl; [reflexivity|].
  destruct (Qle_bool (inject_Z 1) q) eqn:E; simpl; [exact E | reflexivity].
Qed.

(** The effective page size is at most 8, and never 0 or NaN. *)
Lemma effectiveLimit_le_8 req :
  Js.ge (Js.ofNat 8) (effectiveLimit req) = true.
Proof.
  unfold effectiveLimit, Js.or.
  destruct (l_limit req) as [| | |q]; simpl; try reflexivity.
  destruct (Qeq_bool q 0); simpl; [reflexivity|].
  destruct (Qle_bool (inject_Z 8) q) eqn:E; simpl; [reflexivity|].
  apply Qle_bool_iff. destruct (Qlt_le_dec q (inject_Z 8)) as [H|H].
  - now apply Qlt_le_weak.
  - apply Qle_bool_iff in H. simpl in H. congruence.
Qed.

Lemma effectiveLimit_truthy req :
  Js.truthy (effectiveLimit req) = true.
Proof.
  unfold effectiveLimit, Js.or.
  destruct (l_limit req) as [| | |q]; simpl; try reflexivity.
  destruct (Qeq_bool q 0) eqn:Z; simpl; [reflexivity|].
  destruct (Qle_bool (inject_Z 8) q); simpl; [reflexivity | now rewrite Z].
Qed.

(** A page size that is a positive integer is clamped to 8; a missing
    one, [0] and [NaN] give 8. *)
Lemma effectiveLimit_positive userId page n :
  1 <= n ->
  effectiveLimit (mkListRequest userId page (Js.ofNat n))
  = Js.ofNat (Nat.min 8 n).
Proof.
  intros Hn.
  assert (Z : Qeq_bool (inject_Z (Z.of_nat n)) 0 = false).
  { destruct (Qeq_bool _ _) eqn:Z; [|reflexivity].
    apply Qeq_bool_iff in Z. unfold Qeq in Z. simpl in Z. lia. }
  destruct (Nat.le_gt_cases 8 n) as [H|H].
  - rewrite Nat.min_l by exact H.
    assert (E : Qle_bool (inject_Z (Z.of_nat 8)) (inject_Z (Z.of_nat n)) = true).
    { apply Qle_bool_iff. unfold Qle. simpl. lia. }
    unfold effectiveLimit, Js.or, Js.ofNat. cbn [l_limit Js.truthy].
    rewrite Z. cbn [negb Js.min]. now rewrite E.
  - rewrite Nat.min_r by lia.
    assert (E : Qle_bool (inject_Z (Z.of_nat 8)) (inject_Z (Z.of_nat n)) = false).
    { destruct (Qle_bool _ _) eqn:E; [|reflexivity].
      apply Qle_bool_iff in E. unfold Qle in E. simpl in E. lia. }
    unfold effectiveLimit, Js.or, Js.ofNat. cbn [l_limit Js.truthy].
    rewrite Z. cbn [negb Js.min]. now rewrite E.
Qed.

Lemma effectiveLimit_default userId page :
  effectiveLimit (mkListRequest userId page Js.NaN) = Js.ofNat 8 /\
  effectiveLimit (mkListRequest userId page (Js.ofNat 0)) = Js.ofNat 8.
Proof. split; reflexivity. Qed.

(** [sort({ _id: -1 })] puts later documents first. *)
Lemma insertById_sorted c sorted :
  StronglySorted (fun a b => c_id b <= c_id a) sorted ->
  StronglySorted (fun a b => c_id b <= c_id a) (insertById c sorted).
Proof.
  induction 1 as [|d rest Hs IH Hall]; simpl.
  - repeat constructor.
  - destruct (Nat.leb_spec (c_id d) (c_id c)) as [Hle|Hlt].
    + constructor; [now constructor|].
      constructor; [exact Hle|].
      eapply Forall_impl; [|exact Hall]. simpl. intros x Hx. lia.
    + constructor; [exact IH|].
      apply Forall_forall. intros x Hx. apply insertById_In in Hx.
      destruct Hx as [->|Hx]; [lia|].
      rewrite Forall_forall in Hall. now apply Hall.
Qed.

Lemma sortByIdDesc_sorted cs :
  StronglySorted (fun a b => c_id b <= c_id a) (sortByIdDesc cs).
Proof.
  induction cs as [|c cs IH]; simpl; [constructor | now apply insertById_sorted].
Qed.

(** The scenario of the specification: page 2 with page size 100 is
    items 9 to 16 of the caller's items, most recent first. *)
Lemma second_page_of_eight env userId w :
  fails env ContentFind = false ->
  fails env ContentCount = false ->
  itemsOf (fst (getContent env
                  (mkListRequest userId (Js.ofNat 2) (Js.ofNat 100)) w))
  = firstn 8
      (skipn 8
         (sortByIdDesc (filter (fun c => c_userId c =? userId) (contents w)))).
Proof.
  intros Hf Hc. rewrite getContent_unfold, Hf. simpl.
  rewrite Hc. unfold itemsOf. cbn [body fst respond pg_results].
  now rewrite map_p_doc_populate.
Qed.

(** [C5] does not hold of the handler: the page size has an upper clamp
    only.  A negative [limit] in the query string stays as it is: here
    the effective page size is -5, which is not between 1 and 8, and the
    skip for page 2 is -5. *)
Theorem negative_limit_is_not_clamped :
  let req := mkListRequest 7 (Js.ofNat 2) (Js.ofZ (-5)) in
  let skip := Js.mul (Js.sub (effectivePage req) (Js.ofNat 1)) (effectiveLimit req) in
  effectiveLimit req = Js.ofZ (-5) /\
  Js.ge (effectiveLimit req) (Js.ofNat 1) = false /\
  skip = Js.Fin ((2 - 1) * inject_Z (-5)) /\
  Js.toCount skip = None.
Proof. repeat split. Qed.

(** ** The embedding service *)

Module EmbeddingFacts.

Import EmbeddingService.

(** Once [embedder] is set, a call loads nothing. *)
Lemma call_after_load s i m :
  embedder s = Some m ->
  pipelineCalls (step (Call i) s) = pipelineCalls s.
Proof.
  intros H. unfold step. destruct (nth_error (callers s) i) as [[| | |]|];
    try reflexivity.
  now rewrite H.
Qed.

(** Callers that come one after the other share one load. *)
Example sequential_callers_load_once :
  run [Call 0; Resume 0; Resume 0; Call 1; Resume 1] (init 2)
  = mkState (Some 0) 1 [Returned 0; Returned 0].
Proof. reflexivity. Qed.

End EmbeddingFacts.

(** [C10] does not hold of [getEmbedding]: two callers that arrive before
    the first load completes each find [embedder] unset and each call
    [pipeline]; they wait on two different loads. *)
Theorem concurrent_callers_load_twice :
  EmbeddingService.run
    [EmbeddingService.Call 0; EmbeddingService.Call 1]
    (EmbeddingService.init 2)
  = EmbeddingService.mkState None 2
      [EmbeddingService.AwaitPipeline 0; EmbeddingService.AwaitPipeline 1].
Proof. reflexivity. Qed.

(** * Further properties *)

(** * Further properties of the code *)

(** ** The source-identifier pattern *)

Lemma takeId_spec n : forall s id,
  VideoId.takeId n s = Some id ->
  String.length id = n /\
  forallb VideoId.isIdChar (list_ascii_of_string id) = true /\
  exists post, s = (id ++ post)%string.
Proof.
  induction n as [|n IH]; intros s id H; simpl in H.
  - inversion H; subst. repeat split. now exists s.
  - destruct s as [|c s]; [discriminate|].
    destruct (VideoId.isIdChar c) eqn:Hc; [|discriminate].
    destruct (VideoId.takeId n s) as [id'|] eqn:E; [|discriminate].
    inversion H; subst. destruct (IH _ _ E) as (Hl & Hall & post & ->).
    simpl. rewrite Hc, Hall, Hl. repeat split. now exists post.
Qed.

Lemma takeId_append n : forall id post,
  String.length id = n ->
  forallb VideoId.isIdChar (list_ascii_of_string id) = true ->
  VideoId.takeId n (id ++ post)%string = Some id.
Proof.
  induction n as [|n IH]; intros [|c id] post Hl Hall; simpl in *;
    try discriminate; try reflexivity.
  apply andb_true_iff in Hall. destruct Hall as [Hc Hall].
  rewrite Hc, IH; [reflexivity | lia | exact Hall].
Qed.

Lemma occursIn_here sub post : occursIn sub (sub ++ post)%string.
Proof. now exists EmptyString, post. Qed.

Lemma occursIn_cons sub c s : occursIn sub s -> occursIn sub (String c s).
Proof. intros (pre & post & ->). now exists (String c pre), post. Qed.

Lemma occursIn_drop sub n : forall s,
  occursIn sub (VideoId.drop n s) -> occursIn sub s.
Proof.
  induction n as [|n IH]; intros [|c s] H; simpl in H; try exact H.
  apply occursIn_cons. now apply IH.
Qed.

Lemma afterHost_spec s : forall id,
  VideoId.afterHost s = Some id -> wellFormedId id /\ occursIn id s.
Proof.
  induction s as [|c s IH]; intros id H; cbn [VideoId.afterHost] in H;
    [discriminate|].
  destruct (if VideoId.isLineTerminator c then None else VideoId.afterHost s)
    as [id'|] eqn:E.
  - inversion H; subst. destruct (VideoId.isLineTerminator c); [discriminate|].
    destruct (IH _ E) as [Hw Ho]. split; [exact Hw | now apply occursIn_cons].
  - destruct (Ascii.eqb c "?" || Ascii.eqb c "&"); [|discriminate].
    destruct s as [|v s2]; [discriminate|].
    destruct v as [[] [] [] [] [] [] [] []]; cbv beta match in H; try discriminate.
    destruct s2 as [|e r]; [discriminate|].
    destruct e as [[] [] [] [] [] [] [] []]; cbv beta match in H; try discriminate.
    apply takeId_spec in H. destruct H as (Hl & Hall & post & ->).
    split; [now split|].
    do 3 apply occursIn_cons. apply occursIn_here.
Qed.

Lemma matchHere_spec s id :
  VideoId.matchHere s = Some id -> wellFormedId id /\ occursIn id s.
Proof.
  unfold VideoId.matchHere.
  assert (Hshort : (if String.prefix "youtu.be/" s
                    then VideoId.takeId 11 (VideoId.drop 9 s) else None)
                   = Some id -> wellFormedId id /\ occursIn id s).
  { destruct (String.prefix "youtu.be/" s); [|discriminate].
    intros H. apply takeId_spec in H. destruct H as (Hl & Hall & post & E).
    split; [now split|]. apply (occursIn_drop _ 9). rewrite E.
    apply occursIn_here. }
  destruct (String.prefix "youtube.com" s); [|exact Hshort].
  destruct (VideoId.afterHost (VideoId.drop 11 s)) as [id'|] eqn:E; [|exact Hshort].
  intros H. inversion H; subst. apply afterHost_spec in E.
  destruct E as [Hw Ho]. split; [exact Hw | now apply (occursIn_drop _ 11)].
Qed.

(** [X1]: an identifier that [extractYouTubeVideoId] returns is made of
    exactly eleven characters of [[a-zA-Z0-9_-]] and occurs in the
    link. *)
Theorem extracted_id_well_formed (url id : string) :
  extractYouTubeVideoId url = Some id ->
  String.length id = 11 /\
  forallb VideoId.isIdChar (list_ascii_of_string id) = true /\
  occursIn id url.
Proof.
  unfold extractYouTubeVideoId.
  induction url as [|c url IH]; cbn [VideoId.search].
  - destruct (VideoId.matchHere "") eqn:E; [|discriminate].
    intros H. inversion H; subst. apply matchHere_spec in E.
    destruct E as [[Hl Hall] Ho]. now repeat split.
  - destruct (VideoId.matchHere (String c url)) eqn:E.
    + intros H. inversion H; subst. apply matchHere_spec in E.
      destruct E as [[Hl Hall] Ho]. now repeat split.
    + intros H. destruct (IH H) as (Hl & Hall & Ho).
      repeat split; try assumption. now apply occursIn_cons.
Qed.

Lemma extracted_id_well_formed_witness :
  String.length "dQw4w9WgXcQ" = 11 /\
  occursIn "dQw4w9WgXcQ" "https://www.youtube.com/watch?v=dQw4w9WgXcQ&t=3".
Proof.
  destruct (extracted_id_well_formed
              "https://www.youtube.com/watch?v=dQw4w9WgXcQ&t=3" "dQw4w9WgXcQ"
              eq_refl) as (Hl & _ & Ho).
  split; assumption.
Defined.

(** [X2]: a short link [https://youtu.be/<id>...] with a well-formed
    identifier gives that identifier, whatever follows it. *)
Theorem short_link_extracts_id (id rest : string) :
  String.length id = 11 ->
  forallb VideoId.isIdChar (list_ascii_of_string id) = true ->
  extractYouTubeVideoId ("https://youtu.be/" ++ id ++ rest)%string = Some id.
Proof.
  intros Hl Hall. unfold extractYouTubeVideoId.
  cbn -[VideoId.takeId].
  replace (String.prefix "" (id ++ rest)) with true
    by (now destruct (id ++ rest)%string).
  now rewrite takeId_append.
Qed.

Lemma short_link_extracts_id_witness :
  extractYouTubeVideoId "https://youtu.be/abc12345678?t=10" = Some "abc12345678".
Proof.
  exact (short_link_extracts_id "abc12345678" "?t=10" eq_refl eq_refl).
Defined.

Lemma isIdChar_not_paramStart c :
  VideoId.isIdChar c = true -> isParamStart c = false.
Proof.
  destruct c as [[] [] [] [] [] [] [] []]; vm_compute; congruence.
Qed.

Lemma afterHost_no_param s :
  forallb (fun c => negb (isParamStart c)) (list_ascii_of_string s) = true ->
  VideoId.afterHost s = None.
Proof.
  induction s as [|c s IH]; cbn [VideoId.afterHost list_ascii_of_string forallb];
    [reflexivity|].
  intros H. apply andb_true_iff in H. destruct H as [Hc Hs].
  rewrite (IH Hs). apply negb_true_iff in Hc. unfold isParamStart in Hc.
  rewrite Hc. now destruct (VideoId.isLineTerminator c).
Qed.

Lemma list_ascii_of_string_app s t :
  list_ascii_of_string (s ++ t)%string
  = list_ascii_of_string s ++ list_ascii_of_string t.
Proof. induction s as [|c s IH]; simpl; [reflexivity | now rewrite IH]. Qed.

(** [X3]: a watch link [https://www.youtube.com/watch?v=<id>...] with a
    well-formed identifier gives that identifier, provided no further
    query parameter follows it (the pattern takes the last [v=] of the
    line; see [extract_greedy]). *)
Theorem watch_link_extracts_id (id rest : string) :
  String.length id = 11 ->
  forallb VideoId.isIdChar (list_ascii_of_string id) = true ->
  forallb (fun c => negb (isParamStart c)) (list_ascii_of_string rest) = true ->
  extractYouTubeVideoId
    ("https://www.youtube.com/watch?v=" ++ id ++ rest)%string = Some id.
Proof.
  intros Hl Hall Hrest. unfold extractYouTubeVideoId.
  assert (Hnone : VideoId.afterHost (id ++ rest)%string = None).
  { apply afterHost_no_param. rewrite list_ascii_of_string_app, forallb_app.
    rewrite Hrest, andb_true_r. clear -Hall.
    induction (list_ascii_of_string id) as [|c l IH]; simpl in *; [reflexivity|].
    apply andb_true_iff in Hall. destruct Hall as [Hc Hl].
    now rewrite (isIdChar_not_paramStart _ Hc), IH. }
  cbn -[VideoId.takeId VideoId.afterHost].
  cbn [VideoId.afterHost]. cbn -[VideoId.takeId VideoId.afterHost].
  rewrite Hnone. cbn -[VideoId.takeId].
  now rewrite takeId_append.
Qed.

Lemma watch_link_extracts_id_witness :
  extractYouTubeVideoId "https://www.youtube.com/watch?v=dQw4w9WgXcQ#t=3"
  = Some "dQw4w9WgXcQ".
Proof.
  exact (watch_link_extracts_id "dQw4w9WgXcQ" "#t=3" eq_refl eq_refl eq_refl).
Defined.

(** ** Tag resolution, again *)

Lemma getTagIdsLoop_resolved (env : Env) (w : World) tags ids :
  Forall2 (resolves w) tags ids ->
  (forall i, fails env (TagFindOne i) = false) ->
  forall i acc, getTagIdsLoop env i tags acc w = (Val (acc ++ ids), w).
Proof.
  intros F Hio. induction F as [|title id titles ids' Hr F IH]; intros i acc.
  - simpl. unfold ret. now rewrite app_nil_r.
  - simpl. unfold bind at 1, query, call. rewrite Hio.
    unfold resolves in Hr. rewrite Hr. unfold bind at 1, ret.
    rewrite IH. simpl. now rewrite <- app_assoc.
Qed.

(** [X4]: resolving the same titles a second time, right after a
    resolution that completed, returns the same identifiers and writes
    nothing (the lookups being answered). *)
Theorem getTagIds_idempotent (env env' : Env) (tags : list string)
    (ids : list ObjectId) (w w' : World) :
  getTagIds env tags w = (Val ids, w') ->
  (forall i, fails env' (TagFindOne i) = false) ->
  getTagIds env' tags w' = (Val ids, w').
Proof.
  intros H Hio. unfold getTagIds in *.
  apply getTagIdsLoop_val in H. destruct H as (pushed & -> & F).
  apply (getTagIdsLoop_resolved env' w' tags pushed F Hio).
Qed.

Lemma getTagIds_idempotent_witness :
  getTagIds demoEnv ["x"; "y"; "x"]
    (snd (getTagIds demoEnv ["x"; "y"; "x"] emptyWorld))
  = (Val [0; 1; 0], mkWorld [] [] [mkTag 0 "x"; mkTag 1 "y"] [] 2).
Proof.
  exact (getTagIds_idempotent demoEnv demoEnv ["x"; "y"; "x"] [0; 1; 0]
           emptyWorld (mkWorld [] [] [mkTag 0 "x"; mkTag 1 "y"] [] 2)
           eq_refl (fun _ => eq_refl)).
Defined.

Lemma keepsTagInv_refl w : keepsTagInv w w.
Proof. now intros H. Qed.

Lemma keepsTagInv_trans a b c :
  keepsTagInv a b -> keepsTagInv b c -> keepsTagInv a c.
Proof. unfold keepsTagInv. tauto. Qed.

Lemma tagInv_weaken w w' :
  tagColl w' = tagColl w -> nextId w <= nextId w' -> keepsTagInv w w'.
Proof.
  intros Ht Hn (H1 & H2 & H3). unfold tagInv. rewrite Ht.
  repeat split; try assumption. intros t Hin. specialize (H3 t Hin). lia.
Qed.

Lemma findTagByTitle_none title coll :
  findTagByTitle title coll = None -> ~ In title (map t_title coll).
Proof.
  intros H Hin. apply in_map_iff in Hin. destruct Hin as (t & <- & Hin).
  apply (find_none _ _ H) in Hin. now rewrite String.eqb_refl in Hin.
Qed.

Lemma NoDup_snoc {A} (l : list A) (x : A) :
  NoDup l -> ~ In x l -> NoDup (l ++ [x]).
Proof.
  intros Hnd Hx. apply NoDup_app; [exact Hnd | repeat constructor; auto |].
  intros y Hy [<-|[]]. contradiction.
Qed.

Ltac preserving side :=
  repeat first
    [ apply preserves_bind; [side | | intros ]
    | apply preserves_ret; side
    | apply preserves_send; side
    | apply preserves_throw; side
    | apply preserves_query; side
    | apply preserves_tryCatch; [side | | ]
    | match goal with
      | |- preserves _ (match ?x with _ => _ end) => destruct x
      | |- preserves _ (if ?x then _ else _) => destruct x
      end ].

Ltac tagInv_side := first [ exact keepsTagInv_refl | exact keepsTagInv_trans ].

Section TagInvariant.

Variable env : Env.

Lemma getTagIdsLoop_tagInv tags :
  forall i acc, preserves keepsTagInv (getTagIdsLoop env i tags acc).
Proof.
  induction tags as [|title rest IH]; intros i acc w o w' H.
  - inversion H. apply keepsTagInv_refl.
  - simpl in H. unfold bind, query, call in H.
    destruct (fails env (TagFindOne i)); [inversion H; apply keepsTagInv_refl|].
    simpl in H.
    destruct (findTagByTitle title (tagColl w)) as [t|] eqn:Hfind; simpl in H.
    + eapply IH, H.
    + unfold saveTag, throw in H. simpl in H.
      destruct (String.eqb title "");
        [inversion H; apply tagInv_weaken; simpl; [reflexivity | lia]|].
      destruct (fails env (TagSave i));
        [inversion H; apply tagInv_weaken; simpl; [reflexivity | lia]|].
      destruct (existsb _ _);
        [inversion H; apply tagInv_weaken; simpl; [reflexivity | lia]|].
      simpl in H. apply IH in H.
      eapply keepsTagInv_trans; [|exact H].
      intros (H1 & H2 & H3). unfold tagInv. simpl. rewrite !map_app. simpl.
      repeat split.
      * apply NoDup_snoc; [exact H1 | now apply findTagByTitle_none].
      * apply NoDup_snoc; [exact H2|]. intros Hin. apply in_map_iff in Hin.
        destruct Hin as (t & Ht & Hin). specialize (H3 t Hin). lia.
      * intros t Hin. apply in_app_or in Hin. destruct Hin as [Hin|[<-|[]]].
        -- specialize (H3 t Hin). lia.
        -- simpl. lia.
Qed.

Lemma newObjectId_tagInv : preserves keepsTagInv newObjectId.
Proof.
  intros w o w' H. inversion H. apply tagInv_weaken; simpl; [reflexivity | lia].
Qed.

Lemma update_tagInv site write :
  (forall w, tagColl (write w) = tagColl w /\ nextId (write w) = nextId w) ->
  preserves keepsTagInv (update env site write).
Proof.
  intros Hw. apply preserves_call; [exact keepsTagInv_refl|].
  intros w. simpl. destruct (Hw w) as [Ht Hn].
  apply tagInv_weaken; [exact Ht | lia].
Qed.

Lemma postContentBody_tagInv req : preserves keepsTagInv (postContentBody env req).
Proof.
  unfold postContentBody, createContent, indexContent, saveNewContent, getTagIds.
  preserving tagInv_side;
    try apply getTagIdsLoop_tagInv; try apply newObjectId_tagInv;
    try (apply update_tagInv; intros; split; reflexivity).
Qed.

Lemma deleteTagById_tagInv tagId w :
  keepsTagInv w (setTags (deleteTagById tagId (tagColl w)) w).
Proof.
  intros (H1 & H2 & H3). unfold tagInv, deleteTagById. simpl. repeat split.
  - now apply NoDup_map_filter.
  - now apply NoDup_map_filter.
  - intros t Hin. apply filter_In in Hin. now apply H3.
Qed.

Lemma sweepTags_tagInv contentId tags :
  forall i, preserves keepsTagInv (sweepTags env i contentId tags).
Proof.
  induction tags as [|t rest IH]; intros i; simpl.
  - apply preserves_ret. exact keepsTagInv_refl.
  - preserving tagInv_side; try apply IH.
    apply preserves_call; [exact keepsTagInv_refl|].
    intros w. simpl. apply deleteTagById_tagInv.
Qed.

Lemma deleteContentBody_tagInv req : preserves keepsTagInv (deleteContentBody env req).
Proof.
  unfold deleteContentBody.
  preserving tagInv_side;
    try apply sweepTags_tagInv;
    try (apply update_tagInv; intros; split; reflexivity).
Qed.

End TagInvariant.

(** [X5]: every route keeps the tag collection well formed: if the titles
    of the Tags are pairwise distinct and their identifiers are pairwise
    distinct and below the id counter, they still are after the request,
    however it ends. *)
Theorem serve_keeps_tagInv (env : Env) (r : Request) (w : World) :
  tagInv w -> tagInv (snd (serve env r w)).
Proof.
  destruct r; simpl.
  - apply (preserves_handle keepsTagInv), postContentBody_tagInv.
  - now rewrite getContent_reads.
  - apply (preserves_handle keepsTagInv), deleteContentBody_tagInv.
  - now rewrite getSearch_reads.
  - now rewrite getBrainShare_reads.
Qed.

Lemma serve_keeps_tagInv_witness :
  tagInv (snd (serve demoEnv
                 (PostContent (demoAdd "https://youtu.be/abc12345678" ["y"; "x"]))
                 sharedTagWorld)).
Proof.
  apply serve_keeps_tagInv. unfold tagInv. simpl. repeat split.
  - repeat constructor. simpl. tauto.
  - repeat constructor. simpl. tauto.
  - intros t [<-|[]]. simpl. lia.
Defined.

(** ** Adding content, again *)

Section AddContentMore.

Variable env : Env.

Lemma createContent_val_fields req w c v w' :
  createContent env req w = (Val (c, v), w') ->
  builtFrom env req c /\
  v = embedding env (embeddingTextOf c) /\
  nextId w <= c_id c /\ c_id c < nextId w'.
Proof.
  unfold createContent. intros H.
  destruct (a_tags req) as [tags|]; [|discriminate].
  unfold bind at 1 in H. simpl in H. unfold bind at 1 in H.
  destruct (getTagIds env tags w) as [[ids | r | ] w1] eqn:E; try discriminate.
  unfold getTagIds in E. apply getTagIdsLoop_nextId in E.
  destruct (a_link req) as [link|] eqn:El; [|discriminate].
  unfold bind at 1 in H. simpl in H.
  destruct (extractYouTubeVideoId link) as [videoId|] eqn:Ev; [|discriminate].
  unfold bind at 1, query, call in H.
  destruct (fails env YoutubeGet); [discriminate|].
  destruct (youtubeItems env videoId) as [|snippet items] eqn:Ey; [discriminate|].
  unfold bind at 1 in H.
  destruct (fails env GetEmbedding); [discriminate|].
  unfold bind at 1, newObjectId in H. unfold bind in H.
  unfold saveNewContent in H.
  destruct (a_type req) as [type|] eqn:Ety; [|discriminate].
  destruct (a_title req) as [title|] eqn:Eti; [|discriminate].
  destruct (String.eqb title ""); [discriminate|].
  unfold bind, update, call, ret in H.
  destruct (fails env ContentCreate); [discriminate|].
  inversion H; subst. simpl. split; [|split; [reflexivity | split; lia]].
  unfold builtFrom. simpl. rewrite El, Ety, Eti. do 4 (split; [reflexivity|]).
  exists videoId, snippet, items. repeat split; assumption.
Qed.

Lemma upsertVector_In r vs : In r (upsertVector r vs).
Proof.
  unfold upsertVector. destruct (existsb _ vs) eqn:E.
  - apply existsb_exists in E. destruct E as (x & Hin & Hx).
    apply in_map_iff. exists x. now rewrite Hx.
  - apply in_or_app. right. now left.
Qed.

Lemma indexContent_val c v w c' w' :
  indexContent env c v w = (Val c', w') ->
  c' = setEmbeddingId (Some (c_id c)) c /\
  In (mkVectorRecord (c_id c) v
        (mkMetadata (c_userId c) (c_link c) (c_type c) (c_title c)))
     (vectors w') /\
  contents w' = updateEmbeddingId (c_id c) (Some (c_id c)) (contents w).
Proof.
  unfold indexContent, bind, update, call, ret.
  destruct (fails env PineconeUpsert); [discriminate|].
  destruct (fails env ContentBackfill); [discriminate|].
  intros H. inversion H; subst. simpl. repeat split. apply upsertVector_In.
Qed.

End AddContentMore.

(** [X6]: when [addItem] answers 201, the Item in the response is stored,
    it is built from the request and the looked-up metadata, its vector
    reference is its own identifier, and the vector index holds a record
    under that identifier with the embedding of
    "title,youtubeTitle,youtubeDescription" and the metadata
    (owner, link, kind, title). *)
Theorem added_item_is_indexed (env : Env) (req : AddRequest) (w : World)
    (message : string) (c : Content) :
  fst (postContent env req w) = respond 201 (BContentSaved message c) ->
  let w' := snd (postContent env req w) in
  In c (contents w') /\
  c_embeddingId c = Some (c_id c) /\
  builtFrom env req c /\
  In (vectorRecordOf env c) (vectors w').
Proof.
  rewrite postContent_unfold.
  destruct (createContent env req w) as [[[c0 v] | r | ] w1] eqn:E.
  - simpl.
    destruct (indexContent env c0 v w1) as [[n | r | ] w2] eqn:E2; simpl.
    + intros Hr. inversion Hr; subst n message.
      apply indexContent_val in E2. destruct E2 as (-> & Hv & Hc).
      pose proof (createContent_val_fields env _ _ _ _ _ E) as (Hb & -> & _).
      apply createContent_val in E.
      destruct E as (titles & _ & Hc1 & _).
      split; [|split; [reflexivity | split; [exact Hb | exact Hv]]].
      rewrite Hc, Hc1. unfold updateEmbeddingId. apply in_map_iff.
      exists c0. split; [now rewrite Nat.eqb_refl | apply in_or_app; right; now left].
    + apply indexContent_cases in E2.
      destruct E2 as [(_ & Ho & _)|[(_ & _ & Ho & _)|(_ & _ & Ho & _)]];
        discriminate.
    + discriminate.
  - simpl. intros Hr. apply createContent_sent in E.
    destruct E as (_ & _ & _ & _ & [->| ->]); discriminate.
  - simpl. discriminate.
Qed.

Lemma added_item_is_indexed_witness :
  In (vectorRecordOf demoEnv
        (setEmbeddingId (Some 1)
           (demoContent 1 "https://youtu.be/abc12345678" [0])))
     (vectors
        (snd (postContent demoEnv
                (demoAdd "https://youtu.be/abc12345678" ["x"]) emptyWorld))).
Proof.
  exact (proj2 (proj2 (proj2
           (added_item_is_indexed demoEnv
              (demoAdd "https://youtu.be/abc12345678" ["x"]) emptyWorld
              "Content saved with embedding!"
              (setEmbeddingId (Some 1)
                 (demoContent 1 "https://youtu.be/abc12345678" [0]))
              eq_refl)))).
Defined.

(** ** Invariants across the routes *)

(** [X7]: every route keeps the document store well formed: identifiers
    stay below the id counter and pairwise distinct, and a vector
    reference, when set, is the document's own identifier. *)
Theorem serve_keeps_storeInv (env : Env) (r : Request) (w : World) :
  storeInv w -> storeInv (snd (serve env r w)).
Proof.
  intros Hinv. destruct r; simpl.
  - now apply postContent_storeInv.
  - now rewrite getContent_reads.
  - now apply deleteContent_storeInv.
  - now rewrite getSearch_reads.
  - now rewrite getBrainShare_reads.
Qed.

Lemma serve_keeps_storeInv_witness :
  storeInv (snd (serve demoEnv (DeleteContent (mkDeleteRequest 8 (Some 2)))
                   sharedTagWorld)).
Proof. exact (serve_keeps_storeInv _ _ _ storeInv_sharedTagWorld). Defined.

Lemma tagsKept_refl w : tagsKept w w.
Proof. apply incl_refl. Qed.

Lemma tagsKept_trans a b c : tagsKept a b -> tagsKept b c -> tagsKept a c.
Proof. apply incl_tran. Qed.

Ltac tagsKept_side := first [ exact tagsKept_refl | exact tagsKept_trans ].

Section TagReferences.

Variable env : Env.

Lemma getTagIdsLoop_tagsKept tags i acc :
  preserves tagsKept (getTagIdsLoop env i tags acc).
Proof.
  intros w o w' H. apply getTagIdsLoop_tagsGrow in H.
  destruct H as (new & E & _). unfold tagsKept. rewrite E.
  apply incl_appl, incl_refl.
Qed.

Lemma createContent_tagsKept req : preserves tagsKept (createContent env req).
Proof.
  unfold createContent, saveNewContent, getTagIds.
  preserving tagsKept_side; try apply getTagIdsLoop_tagsKept.
  - intros w o w' H. inversion H. apply incl_refl.
  - apply preserves_call; [exact tagsKept_refl|]. intros w. apply incl_refl.
Qed.

Lemma resolved_tag_exists w titles ids t :
  Forall2 (resolves w) titles ids -> In t ids ->
  exists tag, In tag (tagColl w) /\ t_id tag = t.
Proof.
  induction 1 as [|title id titles' ids' Hr F IH]; simpl; [tauto|].
  intros [<-|Hin]; [|now apply IH].
  unfold resolves in Hr. apply find_some in Hr.
  exists (mkTag id title). split; [tauto | reflexivity].
Qed.

Lemma tagRefInv_kept w w' :
  contents w' = contents w -> tagsKept w w' -> tagRefInv w -> tagRefInv w'.
Proof.
  intros Hc Ht Hinv c t Hin Htag. rewrite Hc in Hin.
  destruct (Hinv c t Hin Htag) as (tag & Hin' & Hid).
  exists tag. split; [now apply Ht | exact Hid].
Qed.

Lemma postContent_tagRefInv req w :
  tagRefInv w -> tagRefInv (snd (postContent env req w)).
Proof.
  intros Hinv. rewrite postContent_unfold.
  destruct (createContent env req w) as [[[c0 v] | r | ] w1] eqn:E.
  - pose proof (createContent_tagsKept _ _ _ _ E) as Hk.
    apply createContent_val in E.
    destruct E as (titles & _ & Hc & _ & _ & _ & _ & _ & F).
    assert (Hinv1 : tagRefInv w1).
    { intros c t Hin Htag. rewrite Hc in Hin. apply in_app_or in Hin.
      destruct Hin as [Hin|[<-|[]]].
      - destruct (Hinv c t Hin Htag) as (tag & Hin' & Hid).
        exists tag. split; [now apply Hk | exact Hid].
      - eapply resolved_tag_exists; eassumption. }
    simpl.
    destruct (indexContent env c0 v w1) as [[n | r | ] w2] eqn:E2;
      apply indexContent_cases in E2;
      destruct E2 as [(_ & Ho & Hw)|[(_ & _ & Ho & Hw & _ & Ht)
                                    |(_ & _ & Ho & Hw & _ & Ht)]];
      try discriminate; simpl.
    + intros c t Hin Htag. rewrite Hw in Hin. rewrite Ht.
      unfold updateEmbeddingId in Hin. apply in_map_iff in Hin.
      destruct Hin as (c1 & <- & Hin). apply (Hinv1 c1 t Hin).
      now destruct (c_id c1 =? c_id c0).
    + now subst.
    + apply (tagRefInv_kept w1); [exact Hw | now unfold tagsKept; rewrite Ht; apply incl_refl | exact Hinv1].
  - pose proof (createContent_tagsKept _ _ _ _ E) as Hk.
    apply createContent_not_val in E; [|discriminate].
    destruct E as [(_ & Hc & _) _]. simpl.
    now apply (tagRefInv_kept w).
  - pose proof (createContent_tagsKept _ _ _ _ E) as Hk.
    apply createContent_not_val in E; [|discriminate].
    destruct E as [(_ & Hc & _) _]. simpl.
    now apply (tagRefInv_kept w).
Qed.


(** A delete that answers 200 went through every step. *)
Lemma deleteContent_ok userId contentId w :
  status (fst (deleteContent env (mkDeleteRequest userId (Some contentId)) w))
  = 200 ->
  exists content w2,
    findContentById contentId (contents w) = Some content /\
    c_userId content = userId /\
    sweepTags env 0 contentId (c_tags content)
      (afterVectorDelete env content w) = (Val tt, w2) /\
    snd (deleteContent env (mkDeleteRequest userId (Some contentId)) w)
    = setContents (deleteContentById contentId (contents w)) w2.
Proof.
  rewrite deleteContent_unfold.
  destruct (fails env ContentFindById); [discriminate|].
  destruct (findContentById contentId (contents w)) as [content|]; [|discriminate].
  destruct (Nat.eqb_spec (c_userId content) userId) as [Hu|Hu]; [|discriminate].
  simpl negb. cbv iota.
  destruct (sweepTags env 0 contentId (c_tags content)
              (afterVectorDelete env content w)) as [[[] | r | ] w2] eqn:E.
  - destruct (fails env ContentDelete); [discriminate|]. intros _.
    exists content, w2. repeat split; try assumption. simpl.
    apply sweepTags_contents in E.
    now rewrite E, afterVectorDelete_contents.
  - exfalso. eapply sweepTags_never_sends, E.
  - discriminate.
Qed.

Lemma deleteContent_tagRefInv userId contentId w :
  tagRefInv w ->
  status (fst (deleteContent env (mkDeleteRequest userId (Some contentId)) w))
  = 200 ->
  tagRefInv (snd (deleteContent env (mkDeleteRequest userId (Some contentId)) w)).
Proof.
  intros Hinv Hok. apply deleteContent_ok in Hok.
  destruct Hok as (content & w2 & _ & _ & E & ->).
  intros c t Hin Htag. simpl in *.
  apply filter_In in Hin. destruct Hin as [Hin Hne].
  apply negb_true_iff, Nat.eqb_neq in Hne.
  destruct (Hinv c t Hin Htag) as (tag & Hin' & Hid).
  exists tag. split; [|exact Hid].
  eapply sweepTags_keeps_used; [exact E | | now rewrite afterVectorDelete_tags].
  rewrite afterVectorDelete_contents, Hid.
  eapply tagUsedElsewhere_true; eassumption.
Qed.

End TagReferences.

(** [X8]: if every tag identifier on an Item names an existing Tag, this
    still holds after [addItem], however it ends, and after a
    [deleteItem] that answers 200: a new Item carries identifiers of
    Tags that were found or just created, and the sweep deletes no Tag
    that another Item references. *)
Theorem tag_references_kept (env : Env) (w : World) :
  tagRefInv w ->
  (forall req, tagRefInv (snd (postContent env req w)))
  /\
  (forall userId contentId,
     status (fst (deleteContent env
                    (mkDeleteRequest userId (Some contentId)) w)) = 200 ->
     tagRefInv (snd (deleteContent env
                       (mkDeleteRequest userId (Some contentId)) w))).
Proof.
  intros Hinv. split.
  - intros req. now apply postContent_tagRefInv.
  - intros userId contentId. now apply deleteContent_tagRefInv.
Qed.

Lemma tagRefInv_sharedTagWorld : tagRefInv sharedTagWorld.
Proof.
  intros c t Hin Htag. exists (mkTag 0 "x"). split; [now left|].
  simpl in Hin. destruct Hin as [<-|[<-|[]]]; simpl in Htag;
    destruct Htag as [<-|[]]; reflexivity.
Qed.

Lemma tag_references_kept_witness :
  tagRefInv (snd (postContent demoEnv
                    (demoAdd "https://youtu.be/abc12345678" ["y"])
                    sharedTagWorld)).
Proof.
  exact (proj1 (tag_references_kept demoEnv sharedTagWorld
                  tagRefInv_sharedTagWorld) _).
Defined.

(** ** Deleting content, again *)



(** The Items of a search or of a listing are stored Items. *)
Lemma search_items_stored env req w :
  Forall (fun c => In c (contents w)) (itemsOf (fst (getSearch env req w))).
Proof.
  destruct req as [userId [[|c s]|]]; try (constructor; fail).
  rewrite getSearch_unfold.
  destruct (fails env GetEmbedding); [constructor|].
  destruct (fails env PineconeQuery); [constructor|].
  destruct (filteredMatches _) as [|m ms]; [constructor|].
  destruct (fails env ContentFind); [constructor|].
  unfold itemsOf. cbn [body fst respond]. rewrite map_p_doc_populate.
  apply Forall_forall. intros doc Hdoc.
  apply findByEmbeddingIds_In in Hdoc. tauto.
Qed.

Lemma listed_items_stored env req w :
  Forall (fun c => In c (contents w)) (itemsOf (fst (getContent env req w))).
Proof.
  rewrite getContent_unfold. simpl.
  destruct (fails env ContentFind); [constructor|].
  destruct (skipLimit _ _ _) as [docs|] eqn:E; [|constructor].
  destruct (fails env ContentCount); [constructor|].
  unfold itemsOf. cbn [body fst respond pg_results].
  rewrite map_p_doc_populate. apply Forall_forall. intros c Hc.
  apply (skipLimit_incl _ _ _ _ E), sortByIdDesc_In, filter_In in Hc. tauto.
Qed.

(** [X10]: after a [deleteItem] that answered 200, no search and no
    listing returns an Item with the deleted identifier, whatever the
    similarity index answers (it may still hold the vector) and whoever
    asks. *)
Theorem deleted_item_never_returned (env env' : Env)
    (userId contentId : ObjectId) (w : World) :
  status (fst (deleteContent env (mkDeleteRequest userId (Some contentId)) w))
  = 200 ->
  let w' := snd (deleteContent env (mkDeleteRequest userId (Some contentId)) w) in
  (forall req,
     Forall (fun c => c_id c <> contentId)
       (itemsOf (fst (getSearch env' req w'))))
  /\
  (forall req,
     Forall (fun c => c_id c <> contentId)
       (itemsOf (fst (getContent env' req w')))).
Proof.
  intros Hok w'.
  assert (Hgone : forall c, In c (contents w') -> c_id c <> contentId).
  { subst w'. apply deleteContent_ok in Hok.
    destruct Hok as (content & w2 & _ & _ & _ & ->). simpl.
    intros c Hin. apply filter_In in Hin. destruct Hin as [_ Hne].
    now apply negb_true_iff, Nat.eqb_neq in Hne. }
  split; intros req.
  - eapply Forall_impl; [|apply search_items_stored]. exact Hgone.
  - eapply Forall_impl; [|apply listed_items_stored]. exact Hgone.
Qed.

Lemma deleted_item_never_returned_witness :
  Forall (fun c => c_id c <> 2)
    (itemsOf (fst (getSearch searchEnv (mkSearchRequest 8 (Some "demo"))
                     (snd (deleteContent (failingAt isPineconeDelete demoEnv)
                             (mkDeleteRequest 8 (Some 2)) sharedTagWorld))))).
Proof.
  exact (proj1 (deleted_item_never_returned
                  (failingAt isPineconeDelete demoEnv) searchEnv 8 2
                  sharedTagWorld eq_refl)
           (mkSearchRequest 8 (Some "demo"))).
Defined.

(** ** Pagination, again *)

Lemma effectivePage_positive userId limit p :
  1 <= p ->
  effectivePage (mkListRequest userId (Js.ofNat p) limit) = Js.ofNat p.
Proof.
  intros Hp. unfold effectivePage, Js.or, Js.ofNat. cbn [l_page Js.truthy].
  assert (Z : Qeq_bool (inject_Z (Z.of_nat p)) 0 = false).
  { destruct (Qeq_bool _ _) eqn:Z; [|reflexivity].
    apply Qeq_bool_iff in Z. unfold Qeq in Z. simpl in Z. lia. }
  rewrite Z. cbn [negb Js.max].
  assert (E : Qle_bool (inject_Z (Z.of_nat 1)) (inject_Z (Z.of_nat p)) = true).
  { apply Qle_bool_iff. unfold Qle. simpl. lia. }
  now rewrite E.
Qed.

Lemma toCount_integer k :
  (0 <= k)%Z -> Js.toCount (Js.Fin (k # 1)) = Some (Z.to_nat k).
Proof.
  intros Hk. unfold Js.toCount, Qfloor. rewrite Z.div_1_r.
  assert (E : Qeq_bool (k # 1) (inject_Z k) = true).
  { apply Qeq_bool_iff. reflexivity. }
  rewrite E. simpl. destruct (Z.leb_spec 0 k); [reflexivity | lia].
Qed.

Lemma skipLimit_page {A} (p l : nat) (docs : list A) :
  1 <= p ->
  skipLimit (Js.mul (Js.sub (Js.ofNat p) (Js.ofNat 1)) (Js.ofNat (S l)))
    (Js.ofNat (S l)) docs
  = Some (firstn (S l) (skipn ((p - 1) * S l) docs)).
Proof.
  intros Hp. unfold skipLimit.
  assert (Es : Js.mul (Js.sub (Js.ofNat p) (Js.ofNat 1)) (Js.ofNat (S l))
               = Js.Fin ((Z.of_nat p * 1 + -1 * 1) * Z.of_nat (S l) # 1)).
  { reflexivity. }
  rewrite Es, toCount_integer by nia.
  replace (Z.to_nat ((Z.of_nat p * 1 + -1 * 1) * Z.of_nat (S l)))
    with ((p - 1) * S l) by nia.
  unfold Js.ofNat, inject_Z, Qfloor. rewrite Z.div_1_r.
  assert (E : Qeq_bool (Z.of_nat (S l) # 1) (inject_Z (Z.of_nat (S l))) = true).
  { apply Qeq_bool_iff. reflexivity. }
  unfold inject_Z in E. rewrite E.
  now rewrite Zabs2Nat.id.
Qed.

Lemma lt_counts (a b : nat) :
  Js.lt (Js.ofNat a) (Js.ofNat b) = (a <? b).
Proof.
  unfold Js.lt, Js.ofNat.
  destruct (Nat.ltb_spec a b) as [H|H].
  - apply negb_true_iff. destruct (Qle_bool _ _) eqn:E; [|reflexivity].
    apply Qle_bool_iff in E. unfold Qle in E. simpl in E. lia.
  - apply negb_false_iff. apply Qle_bool_iff. unfold Qle. simpl. lia.
Qed.

Lemma lt_product_count (a b c : nat) :
  Js.lt (Js.mul (Js.ofNat a) (Js.ofNat b)) (Js.ofNat c) = (a * b <? c).
Proof.
  unfold Js.mul, Js.lt, Js.ofNat.
  destruct (Nat.ltb_spec (a * b) c) as [H|H].
  - apply negb_true_iff. destruct (Qle_bool _ _) eqn:E; [|reflexivity].
    apply Qle_bool_iff in E. unfold Qle in E. simpl in E. nia.
  - apply negb_false_iff. apply Qle_bool_iff. unfold Qle. simpl. nia.
Qed.

Lemma ceil_div_counts (total l : nat) :
  Js.ceil (Js.div (Js.ofNat total) (Js.ofNat (S l)))
  = Js.ofNat ((total + l) / S l).
Proof.
  unfold Js.ofNat. cbn [Js.div Js.sign].
  assert (Hs : (inject_Z (Z.of_nat (S l)) ?= 0)%Q = Gt).
  { unfold Qcompare. simpl. reflexivity. }
  rewrite Hs. cbn [Js.ceil]. f_equal. f_equal.
  rewrite Nat2Z.inj_div, Nat2Z.inj_add.
  set (T := Z.of_nat total).
  unfold Qceiling, Qfloor, Qdiv, Qinv, Qmult, Qopp, inject_Z.
  cbn [Qnum Qden Z.of_nat Pos.mul].
  replace (Z.pos (Pos.of_succ_nat l)) with (Z.of_nat (S l)) by (simpl; reflexivity).
  set (b := Z.of_nat (S l)).
  assert (Hb : (0 < b)%Z) by (subst b; lia).
  replace (Z.of_nat l) with (b - 1)%Z by (subst b; lia).
  pose proof (Z.div_mod (- (T * 1)) b ltac:(lia)) as D1.
  pose proof (Z.mod_pos_bound (- (T * 1)) b Hb) as B1.
  pose proof (Z.div_mod (T + (b - 1)) b ltac:(lia)) as D2.
  pose proof (Z.mod_pos_bound (T + (b - 1)) b Hb) as B2.
  nia.
Qed.

Lemma skipLimit_at_most {A} (s : Js.Number) (l : nat) (docs ds : list A) :
  skipLimit s (Js.ofNat (S l)) docs = Some ds -> List.length ds <= S l.
Proof.
  unfold skipLimit. destruct (Js.toCount s) as [skip|]; [|discriminate].
  unfold Js.ofNat, inject_Z, Qfloor. rewrite Z.div_1_r.
  assert (E : Qeq_bool (Z.of_nat (S l) # 1) (Z.of_nat (S l) # 1) = true).
  { apply Qeq_bool_iff. reflexivity. }
  rewrite E, Zabs2Nat.id. intros H. injection H as <-.
  exact (firstn_le_length (S l) (skipn skip docs)).
Qed.

(** [X11]: whatever [page] the query string carries, the effective page
    is at least 1.  When [limit] is missing or not a number, is
    [Infinity], or is a natural number, the effective page size is a
    whole number from 1 to 8 and the listing carries at most 8 Items,
    however it ends.  (A negative [limit] is not covered: it is passed
    on as it is, and the store then takes its absolute value.) *)
Theorem page_and_limit_bounds (env : Env) (req : ListRequest) (w : World) :
  Js.ge (effectivePage req) (Js.ofNat 1) = true /\
  (l_limit req = Js.NaN \/ l_limit req = Js.PosInf \/
   (exists n, l_limit req = Js.ofNat n) ->
   (exists L, effectiveLimit req = Js.ofNat L /\ 1 <= L <= 8) /\
   List.length (itemsOf (fst (getContent env req w))) <= 8).
Proof.
  split; [apply effectivePage_ge_1|]. intros Hl.
  assert (HL : exists L, effectiveLimit req = Js.ofNat L /\ 1 <= L <= 8).
  { destruct req as [userId page limit]. cbn [l_limit] in Hl.
    destruct Hl as [->|[->|[[|n] ->]]].
    - exists 8. split; [reflexivity | lia].
    - exists 8. split; [reflexivity | lia].
    - exists 8. split; [reflexivity | lia].
    - exists (Nat.min 8 (S n)). split; [|lia].
      apply effectiveLimit_positive. lia. }
  split; [exact HL|].
  destruct HL as (L & HL & Hge & Hle).
  rewrite getContent_unfold. cbv zeta. rewrite HL.
  destruct (fails env ContentFind); [cbn; lia|].
  destruct L as [|l]; [lia|].
  destruct (skipLimit _ _ _) as [docs|] eqn:E; [|cbn; lia].
  apply skipLimit_at_most in E.
  destruct (fails env ContentCount); [cbn; lia|].
  unfold itemsOf. cbn [fst body respond pg_results].
  rewrite !length_map. lia.
Qed.

Lemma page_and_limit_bounds_witness :
  List.length
    (itemsOf (fst (getContent demoEnv
                     (mkListRequest 7 (Js.ofNat 1) (Js.ofNat 100))
                     sharedTagWorld))) <= 8.
Proof.
  exact (proj2 (proj2 (page_and_limit_bounds demoEnv
                         (mkListRequest 7 (Js.ofNat 1) (Js.ofNat 100))
                         sharedTagWorld)
                  (or_intror (or_intror (ex_intro _ 100 eq_refl))))).
Defined.

(** [X12]: for a page number [p >= 1] and a page size [n >= 1], with the
    store answering, the listing answers 200 with the slice of the
    caller's documents, latest first, that starts after [(p - 1) * L]
    documents and has at most [L = min(8, n)] of them, together with the
    number of the caller's documents, the number of pages
    [ceil(total / L)], and whether a next and a previous page exist.
    The stores are not changed. *)
Theorem listing_page (env : Env) (userId : ObjectId) (p n : nat) (w : World) :
  1 <= p -> 1 <= n ->
  fails env ContentFind = false ->
  fails env ContentCount = false ->
  let L := Nat.min 8 n in
  let owned := filter (fun c => c_userId c =? userId) (contents w) in
  let total := List.length owned in
  getContent env (mkListRequest userId (Js.ofNat p) (Js.ofNat n)) w
  = (respond 200
       (BPage
          (mkPage
             (map (populate (tagColl w))
                (firstn L (skipn ((p - 1) * L) (sortByIdDesc owned))))
             total (Js.ofNat p) (Js.ofNat ((total + L - 1) / L))
             (p * L <? total) (1 <? p))), w).
Proof.
  intros Hp Hn Hf Hc L owned total.
  rewrite getContent_unfold, Hf. cbv zeta. cbn [l_userId].
  rewrite effectivePage_positive by exact Hp.
  rewrite effectiveLimit_positive by exact Hn.
  fold L. fold owned. fold total.
  assert (HL : exists l, L = S l).
  { subst L. destruct (Nat.min 8 n) as [|l] eqn:E; [lia | now exists l]. }
  destruct HL as [l HL]. rewrite HL.
  rewrite skipLimit_page by exact Hp. rewrite Hc.
  rewrite ceil_div_counts, lt_product_count.
  unfold Js.gt. rewrite lt_counts.
  replace (total + S l - 1) with (total + l) by lia.
  reflexivity.
Qed.

Lemma listing_page_witness :
  itemsOf (fst (getContent demoEnv
                  (mkListRequest 7 (Js.ofNat 1) (Js.ofNat 100)) sharedTagWorld))
  = [setEmbeddingId (Some 1) (demoContent 1 "https://youtu.be/abc12345678" [0])].
Proof.
  rewrite (listing_page demoEnv 7 1 100 sharedTagWorld
             ltac:(lia) ltac:(lia) eq_refl eq_refl).
  reflexivity.
Defined.

(** ** Adding, then reading *)

Lemma sortByIdDesc_head (l : list Content) (c : Content) :
  In c l ->
  (forall d, In d l -> d = c \/ c_id d < c_id c) ->
  exists rest, sortByIdDesc l = c :: rest.
Proof.
  intros Hin Hmax.
  pose proof (sortByIdDesc_sorted l) as Hs.
  assert (Hc : In c (sortByIdDesc l)) by now apply sortByIdDesc_In.
  destruct (sortByIdDesc l) as [|h rest] eqn:E; [contradiction|].
  assert (Hh : In h l) by (apply sortByIdDesc_In; rewrite E; now left).
  destruct (Hmax h Hh) as [->|Hlt]; [now exists rest|].
  exfalso. destruct Hc as [->|Hc]; [lia|].
  apply StronglySorted_inv in Hs. destruct Hs as [_ Hall].
  rewrite Forall_forall in Hall. specialize (Hall c Hc). lia.
Qed.

Section AddThenRead.

Variable env : Env.

(** What a 201 says about the stores before and after. *)
Lemma postContent_created req w message c :
  fst (postContent env req w) = respond 201 (BContentSaved message c) ->
  exists c0,
    c = setEmbeddingId (Some (c_id c0)) c0 /\
    c_userId c0 = a_userId req /\
    nextId w <= c_id c0 /\
    contents (snd (postContent env req w))
    = updateEmbeddingId (c_id c0) (Some (c_id c0)) (contents w ++ [c0]).
Proof.
  rewrite postContent_unfold.
  destruct (createContent env req w) as [[[c0 v] | r | ] w1] eqn:E.
  - simpl.
    destruct (indexContent env c0 v w1) as [[n | r | ] w2] eqn:E2; simpl.
    + intros Hr. inversion Hr; subst n message.
      apply indexContent_val in E2. destruct E2 as (-> & _ & Hc).
      pose proof (createContent_val_fields env _ _ _ _ _ E) as (_ & _ & Hn & _).
      apply createContent_val in E.
      destruct E as (titles & _ & Hc1 & _ & _ & _ & Hu & _).
      exists c0. rewrite Hc, Hc1. repeat split; assumption.
    + apply indexContent_cases in E2.
      destruct E2 as [(_ & Ho & _)|[(_ & _ & Ho & _)|(_ & _ & Ho & _)]];
        discriminate.
    + discriminate.
  - simpl. intros Hr. apply createContent_sent in E.
    destruct E as (_ & _ & _ & _ & [->| ->]); discriminate.
  - simpl. discriminate.
Qed.

End AddThenRead.

(** [X13]: in a well-formed document store, an Item that [addItem] has
    just answered with 201 is the first Item of its owner's first page
    (no [page], no [limit] in the query string), the store answering. *)
Theorem added_item_heads_listing (env env' : Env) (req : AddRequest)
    (w : World) (message : string) (c : Content) :
  storeInv w ->
  fst (postContent env req w) = respond 201 (BContentSaved message c) ->
  fails env' ContentFind = false ->
  fails env' ContentCount = false ->
  exists rest,
    itemsOf (fst (getContent env'
                    (mkListRequest (a_userId req) Js.NaN Js.NaN)
                    (snd (postContent env req w))))
    = c :: rest.
Proof.
  intros (Hlt & _ & _) Hr Hf Hc.
  apply postContent_created in Hr.
  destruct Hr as (c0 & -> & Hu & Hn & Hcont).
  rewrite getContent_unfold, Hf. cbv zeta. cbn [l_userId].
  change (effectivePage (mkListRequest (a_userId req) Js.NaN Js.NaN))
    with (Js.ofNat 1).
  change (effectiveLimit (mkListRequest (a_userId req) Js.NaN Js.NaN))
    with (Js.ofNat 8).
  rewrite skipLimit_page by lia. rewrite Hc.
  unfold itemsOf. cbn [body fst respond pg_results].
  rewrite map_p_doc_populate. rewrite Hcont.
  set (owned := filter _ _).
  destruct (sortByIdDesc_head owned (setEmbeddingId (Some (c_id c0)) c0))
    as [rest Hs].
  - subst owned. apply filter_In. split.
    + unfold updateEmbeddingId. apply in_map_iff. exists c0.
      split; [now rewrite Nat.eqb_refl | apply in_or_app; right; now left].
    + simpl. rewrite Hu. apply Nat.eqb_refl.
  - intros d Hd. subst owned. apply filter_In in Hd. destruct Hd as [Hd _].
    unfold updateEmbeddingId in Hd. apply in_map_iff in Hd.
    destruct Hd as (d0 & <- & Hd0). apply in_app_or in Hd0.
    destruct Hd0 as [Hd0|[<-|[]]].
    + right. specialize (Hlt d0 Hd0).
      destruct (c_id d0 =? c_id c0); simpl; lia.
    + left. now rewrite Nat.eqb_refl.
  - rewrite Hs. simpl. now eexists.
Qed.

Lemma added_item_heads_listing_witness :
  exists rest,
    itemsOf (fst (getContent demoEnv (mkListRequest 7 Js.NaN Js.NaN)
                    (snd (postContent demoEnv
                            (demoAdd "https://youtu.be/abc12345678" ["y"])
                            sharedTagWorld))))
    = setEmbeddingId (Some 4)
        (demoContent 4 "https://youtu.be/abc12345678" [3]) :: rest.
Proof.
  exact (added_item_heads_listing demoEnv demoEnv
           (demoAdd "https://youtu.be/abc12345678" ["y"]) sharedTagWorld
           "Content saved with embedding!"
           (setEmbeddingId (Some 4)
              (demoContent 4 "https://youtu.be/abc12345678" [3]))
           storeInv_sharedTagWorld eq_refl eq_refl eq_refl).
Defined.

(** [X14]: an Item that [addItem] has just answered with 201 is returned
    to its owner by every search for which the similarity index answers
    a match on the Item's identifier whose score passes the threshold
    (the collaborators answering). *)
Theorem added_item_is_searchable (env env' : Env) (req : AddRequest)
    (w : World) (message : string) (c : Content) (text : string)
    (ms : list Match) (m : Match) (score : Js.Number) :
  fst (postContent env req w) = respond 201 (BContentSaved message c) ->
  let w' := snd (postContent env req w) in
  text <> "" ->
  fails env' GetEmbedding = false ->
  fails env' PineconeQuery = false ->
  fails env' ContentFind = false ->
  queryMatches env' (vectors w') (embedding env' text) 5 = Some ms ->
  In m ms ->
  match_id m = c_id c ->
  match_score m = Some score ->
  Js.ge score scoreThreshold = true ->
  In c (itemsOf (fst (getSearch env'
                        (mkSearchRequest (a_userId req) (Some text)) w'))).
Proof.
  intros Hr w' Htext He Hq Hf Hms Hm Hid Hscore Hge.
  apply postContent_created in Hr.
  destruct Hr as (c0 & -> & Hu & _ & Hcont).
  destruct text as [|ch s]; [contradiction|].
  rewrite getSearch_unfold, He, Hq. fold w'. rewrite Hms.
  assert (Hpass : In m (filteredMatches (Some ms))).
  { unfold filteredMatches. apply filter_In. split; [exact Hm|].
    unfold aboveThreshold. now rewrite Hscore. }
  destruct (filteredMatches (Some ms)) as [|m0 rest] eqn:Ef; [contradiction|].
  rewrite Hf. unfold itemsOf. cbn [body fst respond].
  rewrite map_p_doc_populate. apply findByEmbeddingIds_In.
  split; [|split].
  - subst w'. rewrite Hcont. unfold updateEmbeddingId. apply in_map_iff.
    exists c0. split; [now rewrite Nat.eqb_refl | apply in_or_app; right; now left].
  - exact Hu.
  - exists (c_id c0). split; [reflexivity|].
    apply in_map_iff. exists m. split; [exact Hid | exact Hpass].
Qed.

Lemma added_item_is_searchable_witness :
  In (setEmbeddingId (Some 4)
        (demoContent 4 "https://youtu.be/abc12345678" [3]))
     (itemsOf (fst (getSearch freshMatchEnv (mkSearchRequest 7 (Some "demo"))
                      (snd (postContent demoEnv
                              (demoAdd "https://youtu.be/abc12345678" ["y"])
                              sharedTagWorld))))).
Proof.
  apply (added_item_is_searchable demoEnv freshMatchEnv
           (demoAdd "https://youtu.be/abc12345678" ["y"]) sharedTagWorld
           "Content saved with embedding!"
           (setEmbeddingId (Some 4)
              (demoContent 4 "https://youtu.be/abc12345678" [3]))
           "demo" [mkMatch 4 (Some (Js.Fin (1 # 2)))]
           (mkMatch 4 (Some (Js.Fin (1 # 2)))) (Js.Fin (1 # 2))
           eq_refl ltac:(discriminate) eq_refl eq_refl eq_refl eq_refl
           (or_introl eq_refl) eq_refl eq_refl eq_refl).
Defined.

(** ** Sharing, tags, and content by tag *)

Lemma findUserById_updateShared_same id share coll :
  findUserById id (updateShared id share coll)
  = option_map (setShared share) (findUserById id coll).
Proof.
  unfold findUserById, updateShared.
  induction coll as [|u coll IH]; simpl; [reflexivity|].
  destruct (u_id u =? id) eqn:E; simpl; rewrite E; [reflexivity | exact IH].
Qed.

Lemma findUserById_updateShared_other id other share coll :
  other <> id ->
  findUserById other (updateShared id share coll) = findUserById other coll.
Proof.
  intros Hne. unfold findUserById, updateShared.
  induction coll as [|u coll IH]; simpl; [reflexivity|].
  destruct (Nat.eqb_spec (u_id u) id) as [Hid|Hid]; simpl.
  - destruct (Nat.eqb_spec (u_id u) other) as [Ho|Ho]; [congruence | exact IH].
  - destruct (u_id u =? other); [reflexivity | exact IH].
Qed.

Section ShareToggle.

Variable env : Env.
Variable aenv : AccountEnv.

(** The handler in direct style. *)
Lemma postBrainShare_unfold baseUrl userId share w :
  postBrainShare env aenv baseUrl (mkShareRequest userId (Some share)) w =
  if fails env UserFindById then (ofResponse internalServerError, w)
  else
    match findUserById userId (users w) with
    | None => (ofResponse (respond 404 (BError "User not found.")), w)
    | Some user =>
        if accountFails aenv UserSave then (ofResponse internalServerError, w)
        else
          (mkMoreResponse 200
             (MLink (if share then Some (mkShareLink baseUrl (u_id user))
                     else None)),
           setUsers (updateShared (u_id user) share (users w)) w)
    end.
Proof.
  unfold postBrainShare, handleMore, postBrainShareBody. simpl.
  unfold bind at 1, query, call.
  destruct (fails env UserFindById); [reflexivity|].
  destruct (findUserById userId (users w)) as [user|]; [|reflexivity].
  unfold bind, ret. destruct (accountFails aenv UserSave); reflexivity.
Qed.

End ShareToggle.

(** [X15]: when the store answers, setting the share flag of an existing
    user answers 200, with the share link exactly when the flag is set
    on; it changes nothing but that user's flag; and the shared view of
    that user, asked next, is the user's name and Items when the flag was
    set on and the 404 when it was set off. *)
Theorem share_toggle_round_trip (env env' : Env) (aenv : AccountEnv)
    (baseUrl : option string) (userId : ObjectId) (share : bool)
    (user : User) (w : World) :
  fails env UserFindById = false ->
  accountFails aenv UserSave = false ->
  fails env' UserFindById = false ->
  fails env' ContentFind = false ->
  findUserById userId (users w) = Some user ->
  let r := fst (postBrainShare env aenv baseUrl
                  (mkShareRequest userId (Some share)) w) in
  let w' := snd (postBrainShare env aenv baseUrl
                   (mkShareRequest userId (Some share)) w) in
  r = mkMoreResponse 200
        (MLink (if share then Some (mkShareLink baseUrl userId) else None)) /\
  contents w' = contents w /\ tagColl w' = tagColl w /\
  vectors w' = vectors w /\
  (forall other, other <> userId ->
                 findUserById other (users w') = findUserById other (users w)) /\
  fst (getBrainShare env' userId w')
  = if share
    then respond 200
           (BSharedBrain (u_username user)
              (map formatContent
                 (map (populate (tagColl w))
                    (filter (fun c => c_userId c =? userId) (contents w)))))
    else sharedBrainNotFound.
Proof.
  intros Hf Hs Hf' Hc' Hfind r w'. subst r w'.
  pose proof (findUserById_id _ _ _ Hfind) as Hid.
  rewrite postBrainShare_unfold, Hf, Hfind, Hs. simpl. rewrite Hid.
  repeat split.
  - intros other Hne. now apply findUserById_updateShared_other.
  - rewrite getBrainShare_unfold, Hf'. simpl.
    rewrite findUserById_updateShared_same, Hfind. simpl.
    destruct share; simpl; [|reflexivity].
    now rewrite Hc', Hid.
Qed.

Lemma share_toggle_round_trip_witness :
  fst (getBrainShare demoEnv 7
         (snd (postBrainShare demoEnv
                 (mkAccountEnv (fun _ => false) (fun p => p)
                    (fun p h => String.eqb p h) (fun _ => "t") (fun _ => None))
                 (Some "https://brain.example")
                 (mkShareRequest 7 (Some true)) sharedTagWorld)))
  = respond 200
      (BSharedBrain "ann"
         [mkSharedContent 1 Video "https://youtu.be/abc12345678" "demo"
            "Demo video" "A demonstration" "https://i.ytimg.com/d.jpg" ["x"]]).
Proof.
  exact (proj2 (proj2 (proj2 (proj2 (proj2
           (share_toggle_round_trip demoEnv demoEnv
              (mkAccountEnv (fun _ => false) (fun p => p)
                 (fun p h => String.eqb p h) (fun _ => "t") (fun _ => None))
              (Some "https://brain.example") 7 true (mkUser 7 "ann" false)
              sharedTagWorld eq_refl eq_refl eq_refl eq_refl eq_refl)))))).
Defined.

Lemma populateTags_In coll ids tag :
  In tag (populateTags coll ids) <->
  exists id, In id ids /\ tagNamed coll id = Some tag.
Proof.
  unfold populateTags, tagNamed. rewrite in_flat_map. split.
  - intros (id & Hid & Htag). exists id. split; [exact Hid|].
    destruct (find _ coll) as [t|]; [|contradiction].
    destruct Htag as [->|[]]. reflexivity.
  - intros (id & Hid & Hfind). exists id. split; [exact Hid|].
    rewrite Hfind. now left.
Qed.

Lemma tagNamed_own coll id tag :
  tagNamed coll id = Some tag -> tagNamed coll (t_id tag) = Some tag.
Proof.
  intros H. pose proof (find_some _ _ H) as [_ E].
  apply Nat.eqb_eq in E. now rewrite E.
Qed.

Lemma tagMapSet_keys tag m x :
  In x (map fst (tagMapSet (t_id tag) tag m)) <->
  x = t_id tag \/ In x (map fst m).
Proof.
  induction m as [|[k v] m IH]; simpl; [intuition|].
  destruct (Nat.eqb_spec k (t_id tag)) as [->|Hne]; simpl.
  - intuition.
  - rewrite IH. intuition.
Qed.

Lemma tagMapSet_ok tag m : tagMapOk m -> tagMapOk (tagMapSet (t_id tag) tag m).
Proof.
  intros [Hk Hnd]. induction m as [|[k v] m IH]; simpl.
  - split; [|repeat constructor; auto].
    intros k v [E|[]]. now inversion E.
  - inversion Hnd as [|? ? Hnotin Hnd']; subst.
    assert (Hk' : forall k0 v0, In (k0, v0) m -> k0 = t_id v0).
    { intros k0 v0 Hin. apply Hk. now right. }
    destruct (IH Hk' Hnd') as [IHk IHnd].
    destruct (Nat.eqb_spec k (t_id tag)) as [->|Hne]; simpl; split.
    + intros k0 v0 [E|Hin]; [now inversion E | now apply Hk'].
    + now constructor.
    + intros k0 v0 [E|Hin]; [apply Hk; left; exact E | now apply IHk].
    + constructor; [|exact IHnd]. intros Hin. apply tagMapSet_keys in Hin.
      simpl in Hnotin, Hin. destruct Hin as [E|Hin]; [congruence | contradiction].
Qed.

Lemma tagMapSet_values tag m x :
  (forall k v, In (k, v) m -> k = t_id v) ->
  (forall v, In v (map snd m) -> t_id v = t_id tag -> v = tag) ->
  (In x (map snd (tagMapSet (t_id tag) tag m)) <->
   x = tag \/ In x (map snd m)).
Proof.
  intros Hk Hfun. induction m as [|[k v] m IH]; simpl; [intuition|].
  assert (IH' : In x (map snd (tagMapSet (t_id tag) tag m)) <->
                x = tag \/ In x (map snd m)).
  { apply IH.
    - intros k0 v0 Hin. apply Hk. now right.
    - intros v0 Hin. apply Hfun. now right. }
  destruct (Nat.eqb_spec k (t_id tag)) as [E|Hne]; simpl.
  - assert (v = tag).
    { apply Hfun; [now left|]. rewrite <- E. symmetry. apply Hk. now left. }
    subst v. intuition.
  - rewrite IH'. intuition.
Qed.

Lemma collect_values (ts : list Tag) :
  (forall a b, In a ts -> In b ts -> t_id a = t_id b -> a = b) ->
  forall m,
    tagMapOk m ->
    (forall v, In v (map snd m) -> In v ts) ->
    let m' := fold_left (fun tagMap tag => tagMapSet (t_id tag) tag tagMap) ts m in
    tagMapOk m' /\
    forall x, In x (map snd m') <-> In x (map snd m) \/ In x ts.
Proof.
  intros Hfun.
  assert (G : forall todo m,
             (forall x, In x todo -> In x ts) ->
             (forall v, In v (map snd m) -> In v ts) ->
             tagMapOk m ->
             let m' := fold_left
                         (fun tagMap tag => tagMapSet (t_id tag) tag tagMap)
                         todo m in
             tagMapOk m' /\
             forall x, In x (map snd m') <-> In x (map snd m) \/ In x todo).
  { intros todo. induction todo as [|t todo IH]; intros m Htodo Hm Hok; simpl.
    - split; [exact Hok | intuition].
    - assert (Hval : forall x, In x (map snd (tagMapSet (t_id t) t m)) <->
                               x = t \/ In x (map snd m)).
      { intros x. apply tagMapSet_values; [apply Hok|].
        intros v Hv Hid. apply Hfun; auto. apply Htodo. now left. }
      destruct (IH (tagMapSet (t_id t) t m)) as [Hok' Hin'].
      + intros x Hx. apply Htodo. now right.
      + intros v Hv. apply Hval in Hv. destruct Hv as [->|Hv]; auto.
        apply Htodo. now left.
      + now apply tagMapSet_ok.
      + split; [exact Hok'|]. intros x. rewrite Hin', Hval. intuition. }
  intros m Hok Hm. apply (G ts m); auto.
Qed.

Lemma collectTags_flat (contents : list Populated) :
  collectTags contents
  = fold_left (fun tagMap tag => tagMapSet (t_id tag) tag tagMap)
      (flat_map p_tags contents) [].
Proof.
  unfold collectTags. generalize ([] : list (ObjectId * Tag)).
  induction contents as [|c cs IH]; intros m; simpl; [reflexivity|].
  now rewrite IH, fold_left_app.
Qed.

Section TagsRoute.

Variable env : Env.

(** The handler in direct style. *)
Lemma getTags_unfold userId w :
  getTags env userId w =
  if fails env ContentFind then (ofResponse internalServerError, w)
  else
    (mkMoreResponse 200
       (MTags
          (map snd
             (collectTags
                (map (populate (tagColl w))
                   (filter (fun c => c_userId c =? userId) (contents w)))))),
     w).
Proof.
  unfold getTags, handleMore, getTagsBody, bind, query, call, ret.
  destruct (fails env ContentFind); reflexivity.
Qed.

End TagsRoute.

(** [X16]: when the store answers, the tags route answers 200 with the
    Tags that the tag identifiers on the caller's Items name: each such
    Tag once (no identifier twice), no other Tag, and nothing is
    written. *)
Theorem tags_of_owner (env : Env) (userId : ObjectId) (w : World) :
  fails env ContentFind = false ->
  exists tags,
    getTags env userId w = (mkMoreResponse 200 (MTags tags), w) /\
    NoDup (map t_id tags) /\
    forall tag,
      In tag tags <->
      exists c id,
        In c (contents w) /\ c_userId c = userId /\
        In id (c_tags c) /\ tagNamed (tagColl w) id = Some tag.
Proof.
  intros Hf. rewrite getTags_unfold, Hf. eexists. split; [reflexivity|].
  rewrite collectTags_flat.
  set (owned := filter (fun c => c_userId c =? userId) (contents w)).
  set (ts := flat_map p_tags (map (populate (tagColl w)) owned)).
  assert (Hts : forall tag, In tag ts <->
                  exists c id, In c (contents w) /\ c_userId c = userId /\
                    In id (c_tags c) /\ tagNamed (tagColl w) id = Some tag).
  { intros tag. subst ts. rewrite in_flat_map. split.
    - intros (p & Hp & Htag). apply in_map_iff in Hp.
      destruct Hp as (c & <- & Hc). subst owned. apply filter_In in Hc.
      destruct Hc as [Hc Hu]. apply Nat.eqb_eq in Hu.
      simpl in Htag. apply populateTags_In in Htag.
      destruct Htag as (id & Hid & Hn). now exists c, id.
    - intros (c & id & Hc & Hu & Hid & Hn).
      exists (populate (tagColl w) c). split.
      + apply in_map. subst owned. apply filter_In. split; [exact Hc|].
        now apply Nat.eqb_eq.
      + simpl. apply populateTags_In. now exists id. }
  assert (Hfun : forall a b, In a ts -> In b ts -> t_id a = t_id b -> a = b).
  { intros a b Ha Hb Hid. apply Hts in Ha. apply Hts in Hb.
    destruct Ha as (_ & ia & _ & _ & _ & Ha).
    destruct Hb as (_ & ib & _ & _ & _ & Hb).
    apply tagNamed_own in Ha. apply tagNamed_own in Hb.
    rewrite Hid in Ha. rewrite Ha in Hb. now inversion Hb. }
  destruct (collect_values ts Hfun []) as [[Hk Hnd] Hin].
  - split; [intros k v [] | constructor].
  - intros v [].
  - split.
    + set (m := fold_left _ ts []) in *.
      replace (map t_id (map snd m)) with (map fst m); [exact Hnd|].
      clear -Hk. induction m as [|[k v] m IH]; simpl; [reflexivity|].
      f_equal; [apply Hk; now left | apply IH].
      intros k0 v0 H. apply Hk. now right.
    + intros tag. rewrite Hin, <- Hts. simpl. intuition.
Qed.

Lemma tags_of_owner_witness :
  exists tags,
    getTags demoEnv 7 sharedTagWorld = (mkMoreResponse 200 (MTags tags), sharedTagWorld)
    /\ NoDup (map t_id tags).
Proof.
  destruct (tags_of_owner demoEnv 7 sharedTagWorld eq_refl)
    as (tags & Hrun & Hnd & _).
  exists tags. split; assumption.
Defined.

Section ByTag.

Variable env : Env.

(** The handler in direct style. *)
Lemma getContentByTag_unfold userId tagId w :
  getContentByTag env userId (Some tagId) w =
  if fails env ContentFind then (ofResponse internalServerError, w)
  else
    (mkMoreResponse 200
       (MContents
          (map (populate (tagColl w))
             (filter
                (fun c => (c_userId c =? userId)
                          && existsb (Nat.eqb tagId) (c_tags c))
                (contents w)))), w).
Proof.
  unfold getContentByTag, handleMore, getContentByTagBody, bind, query, call, ret.
  destruct (fails env ContentFind); reflexivity.
Qed.

Lemma byTag_items userId tagId w c :
  In c (contentsOf (fst (getContentByTag env userId (Some tagId) w))) ->
  In c (contents w) /\ c_userId c = userId /\ In tagId (c_tags c).
Proof.
  rewrite getContentByTag_unfold.
  destruct (fails env ContentFind); [contradiction|].
  unfold contentsOf. simpl. rewrite map_p_doc_populate, filter_In.
  intros (Hin & Hc). apply andb_true_iff in Hc. destruct Hc as [Hu Ht].
  apply Nat.eqb_eq in Hu. apply existsb_exists in Ht.
  destruct Ht as (x & Hx & E). apply Nat.eqb_eq in E. subst x. tauto.
Qed.

End ByTag.

(** [X17]: an Item that [addItem] has just answered with 201 is returned
    to its owner under each of its tag identifiers by the by-tag route
    (the store answering), and under none of them to any other user. *)
Theorem added_item_found_by_tag (env env' : Env) (req : AddRequest)
    (w : World) (message : string) (c : Content) (tagId : ObjectId) :
  fst (postContent env req w) = respond 201 (BContentSaved message c) ->
  In tagId (c_tags c) ->
  fails env' ContentFind = false ->
  let w' := snd (postContent env req w) in
  In c (contentsOf (fst (getContentByTag env' (a_userId req) (Some tagId) w')))
  /\
  (forall other, other <> a_userId req ->
     ~ In c (contentsOf (fst (getContentByTag env' other (Some tagId) w')))).
Proof.
  intros Hr Htag Hf w'. apply postContent_created in Hr.
  destruct Hr as (c0 & -> & Hu & _ & Hcont). split.
  - rewrite getContentByTag_unfold, Hf. unfold contentsOf. simpl.
    rewrite map_p_doc_populate. apply filter_In. split.
    + subst w'. rewrite Hcont. unfold updateEmbeddingId. apply in_map_iff.
      exists c0. split; [now rewrite Nat.eqb_refl | apply in_or_app; right; now left].
    + simpl. rewrite Hu, Nat.eqb_refl. simpl.
      apply existsb_exists. exists tagId. split; [exact Htag | apply Nat.eqb_refl].
  - intros other Hne Hin. apply byTag_items in Hin.
    destruct Hin as (_ & Ho & _). simpl in Ho. congruence.
Qed.

Lemma added_item_found_by_tag_witness :
  In (setEmbeddingId (Some 4)
        (demoContent 4 "https://youtu.be/abc12345678" [3]))
     (contentsOf
        (fst (getContentByTag demoEnv 7 (Some 3)
                (snd (postContent demoEnv
                        (demoAdd "https://youtu.be/abc12345678" ["y"])
                        sharedTagWorld))))).
Proof.
  exact (proj1 (added_item_found_by_tag demoEnv demoEnv
                  (demoAdd "https://youtu.be/abc12345678" ["y"]) sharedTagWorld
                  "Content saved with embedding!"
                  (setEmbeddingId (Some 4)
                     (demoContent 4 "https://youtu.be/abc12345678" [3]))
                  3 eq_refl (or_introl eq_refl) eq_refl)).
Defined.

(** [X18]: the routes that read never write: search, the listing, the
    shared view, the tags and the by-tag route leave the stores exactly
    as they were, whatever the request, whatever the collaborators answer
    and whichever of their calls fail. *)
Theorem reading_routes_write_nothing (env : Env) (w : World) :
  (forall req, snd (getSearch env req w) = w) /\
  (forall req, snd (getContent env req w) = w) /\
  (forall shareLink, snd (getBrainShare env shareLink w) = w) /\
  (forall userId, snd (getTags env userId w) = w) /\
  (forall userId tagId, snd (getContentByTag env userId tagId w) = w).
Proof.
  split; [|split; [|split; [|split]]].
  - intros req. apply getSearch_reads.
  - intros req. apply getContent_reads.
  - intros shareLink. apply getBrainShare_reads.
  - intros userId. unfold getTags, handleMore, getTagsBody, bind, query, call, ret.
    now destruct (fails env ContentFind).
  - intros userId [tagId|].
    + rewrite getContentByTag_unfold. now destruct (fails env ContentFind).
    + reflexivity.
Qed.

(** ** Accounts *)

Lemma signupSchema_some b username password :
  signupSchema b = Some (username, password) <->
  cb_username b = Some username /\ cb_password b = Some password /\
  validSignup username password.
Proof.
  unfold signupSchema, validSignup.
  destruct (cb_username b) as [u|], (cb_password b) as [p|];
    try (split; [discriminate | intros (? & ? & _); discriminate]).
  destruct ((3 <=? String.length u) && (String.length u <=? 10)
            && (5 <=? String.length p) && (String.length p <=? 20)
            && containsChar isLowercase p && containsChar isDigit p) eqn:E.
  - repeat (apply andb_true_iff in E; destruct E as [E ?]).
    apply Nat.leb_le in E.
    repeat match goal with H : (_ <=? _) = true |- _ => apply Nat.leb_le in H end.
    split.
    + intros H'. inversion H'; subst. repeat split; assumption.
    + intros (Hu & Hp & _). now inversion Hu; inversion Hp.
  - split; [discriminate|].
    intros (Hu & Hp & (H1 & H2) & (H3 & H4) & H5 & H6).
    inversion Hu; inversion Hp; subst.
    apply Nat.leb_le in H1, H2, H3, H4.
    rewrite H1, H2, H3, H4, H5, H6 in E. discriminate.
Qed.

Lemma signup_accepted (aenv : AccountEnv) (b : CredentialsBody) (db : Db) :
  ar_status (fst (signup aenv b db)) = 200 ->
  exists username password,
    cb_username b = Some username /\ cb_password b = Some password /\
    validSignup username password /\
    findUserByName username (users (db_world db)) = None /\
    snd (signup aenv b db)
    = insertUser (mkUser (nextId (db_world db)) username false)
        (bcryptHash aenv password) db.
Proof.
  unfold signup.
  destruct (signupSchema b) as [[username password]|] eqn:E; [|discriminate].
  apply signupSchema_some in E. destruct E as (Hu & Hp & Hv).
  destruct (accountFails aenv UserFindOne); [discriminate|].
  destruct (findUserByName username (users (db_world db))) eqn:Ef;
    [discriminate|].
  destruct (accountFails aenv BcryptHash); [discriminate|].
  destruct (accountFails aenv UserSave); [discriminate|].
  destruct (existsb _ _); [discriminate|].
  intros _. exists username, password. now repeat split; try apply Hv.
Qed.


Lemma findUserByName_none username coll :
  findUserByName username coll = None -> ~ In username (map u_username coll).
Proof.
  intros H Hin. apply in_map_iff in Hin. destruct Hin as (u & <- & Hin).
  apply (find_none _ _ H) in Hin. now rewrite String.eqb_refl in Hin.
Qed.

(** [X20]: signup keeps the accounts well formed, however it ends: no two
    users share a username or an identifier. *)
Theorem signup_keeps_accountsInv (aenv : AccountEnv) (b : CredentialsBody)
    (db : Db) :
  accountsInv db -> accountsInv (snd (signup aenv b db)).
Proof.
  intros (Hn & Hi & Hlt & Hp). unfold signup.
  assert (Hdrawn : accountsInv
                     (mkDb (setNextId (S (nextId (db_world db))) (db_world db))
                        (db_passwords db))).
  { unfold accountsInv. simpl. repeat split; try assumption.
    - intros u Hu. specialize (Hlt u Hu). lia.
    - intros e He. specialize (Hp e He). lia. }
  destruct (signupSchema b) as [[username password]|]; [|now repeat split].
  destruct (accountFails aenv UserFindOne); [now repeat split|].
  destruct (findUserByName username (users (db_world db))) eqn:Ef;
    [now repeat split|].
  destruct (accountFails aenv BcryptHash); [now repeat split|].
  destruct (accountFails aenv UserSave); [exact Hdrawn|].
  destruct (existsb _ _); [exact Hdrawn|].
  unfold accountsInv, insertUser. simpl. rewrite !map_app. simpl.
  repeat split.
  - apply NoDup_snoc; [exact Hn | now apply findUserByName_none].
  - apply NoDup_snoc; [exact Hi|]. intros Hin. apply in_map_iff in Hin.
    destruct Hin as (u & Hu & Hin). specialize (Hlt u Hin). lia.
  - intros u Hin. apply in_app_or in Hin. destruct Hin as [Hin|[<-|[]]].
    + specialize (Hlt u Hin). lia.
    + simpl. lia.
  - intros e Hin. apply in_app_or in Hin. destruct Hin as [Hin|[<-|[]]].
    + specialize (Hp e Hin). lia.
    + simpl. lia.
Qed.

Lemma accountsInv_emptyDb : accountsInv emptyDb.
Proof. unfold accountsInv. simpl. repeat split; try constructor; tauto. Qed.

Lemma signup_keeps_accountsInv_witness :
  accountsInv (snd (signup demoAccountEnv annBody emptyDb)).
Proof. exact (signup_keeps_accountsInv _ _ _ accountsInv_emptyDb). Defined.


Lemma passwordOf_fresh id hash table :
  (forall e, In e table -> fst e <> id) ->
  passwordOf id (table ++ [(id, hash)]) = Some hash.
Proof.
  intros Hfresh. unfold passwordOf.
  erewrite find_app_new; [reflexivity | | simpl; apply Nat.eqb_refl].
  match goal with
  | |- find ?f ?t = None => destruct (find f t) as [e|] eqn:E; [|reflexivity]
  end.
  apply find_some in E. destruct E as [Hin He]. apply Nat.eqb_eq in He.
  now destruct (Hfresh e Hin).
Qed.

(** [X21]: in well-formed accounts, after a signup that answered 200, a
    signin with the same body answers 200 with a token signed for the
    new user's identifier and username, provided bcrypt accepts the
    password against the hash it produced and the collaborators
    answer. *)
Theorem signup_then_signin (aenv aenv' : AccountEnv) (b : CredentialsBody)
    (db : Db) (username password : string) :
  accountsInv db ->
  ar_status (fst (signup aenv b db)) = 200 ->
  cb_username b = Some username ->
  cb_password b = Some password ->
  (forall site, accountFails aenv' site = false) ->
  bcryptCompare aenv' password (bcryptHash aenv password) = true ->
  signin aenv' b (snd (signup aenv b db))
  = mkAccountResponse 200
      (ABToken (jwtSign aenv' (mkPayload (nextId (db_world db)) username))).
Proof.
  intros (_ & _ & _ & Hp) Hok Hu Hpw Hio Hcmp.
  destruct (signup_accepted aenv b db Hok)
    as (u' & p' & Hu' & Hp' & Hv & Hnew & ->).
  rewrite Hu in Hu'. rewrite Hpw in Hp'. inversion Hu'; inversion Hp'; subst u' p'.
  destruct Hv as ((H3 & _) & (H5 & _) & _).
  unfold signin, signinSchema. rewrite Hu, Hpw.
  replace (1 <=? String.length username) with true
    by (symmetry; apply Nat.leb_le; lia).
  replace (1 <=? String.length password) with true
    by (symmetry; apply Nat.leb_le; lia).
  simpl. rewrite !Hio.
  unfold findUserByName in *.
  rewrite (find_app_new _ _ (mkUser (nextId (db_world db)) username false) Hnew)
    by (simpl; apply String.eqb_refl).
  simpl. rewrite passwordOf_fresh.
  - now rewrite Hcmp.
  - intros e He Heq. specialize (Hp e He). lia.
Qed.

Lemma signup_then_signin_witness :
  signin demoAccountEnv annBody (snd (signup demoAccountEnv annBody emptyDb))
  = mkAccountResponse 200 (ABToken "header.payload.signature").
Proof.
  exact (signup_then_signin demoAccountEnv demoAccountEnv annBody emptyDb
           "ann" "secret1" accountsInv_emptyDb eq_refl eq_refl eq_refl
           (fun _ => eq_refl) eq_refl).
Defined.

Lemma signin_ok (aenv : AccountEnv) (b : CredentialsBody) (db : Db) :
  ar_status (signin aenv b db) = 200 ->
  exists username password user hash,
    cb_username b = Some username /\ cb_password b = Some password /\
    findUserByName username (users (db_world db)) = Some user /\
    passwordOf (u_id user) (db_passwords db) = Some hash /\
    bcryptCompare aenv password hash = true /\
    signin aenv b db
    = mkAccountResponse 200
        (ABToken (jwtSign aenv (mkPayload (u_id user) (u_username user)))).
Proof.
  unfold signin, signinSchema.
  destruct (cb_username b) as [username|]; [|discriminate].
  destruct (cb_password b) as [password|]; [|discriminate].
  destruct ((1 <=? String.length username) && (1 <=? String.length password));
    [|discriminate].
  destruct (accountFails aenv UserFindOne); [discriminate|].
  destruct (findUserByName username (users (db_world db))) as [user|] eqn:Ef;
    [|discriminate].
  destruct (passwordOf (u_id user) (db_passwords db)) as [hash|] eqn:Ep;
    [|discriminate].
  destruct (accountFails aenv BcryptCompare); [discriminate|].
  destruct (bcryptCompare aenv password hash) eqn:Ec; [|discriminate].
  simpl. destruct (accountFails aenv JwtSign); [discriminate|].
  intros _. exists username, password, user, hash. now repeat split.
Qed.

(** [X22]: signin answers 200 only for a stored user whose stored hash
    bcrypt accepts for the given password, and the token is signed for
    that user's identifier and username.  An unknown username and a
    wrong password get one and the same 401 response. *)
Theorem signin_sound (aenv : AccountEnv) (b : CredentialsBody) (db : Db) :
  (ar_status (signin aenv b db) = 200 ->
   exists username password user hash,
     cb_username b = Some username /\ cb_password b = Some password /\
     findUserByName username (users (db_world db)) = Some user /\
     passwordOf (u_id user) (db_passwords db) = Some hash /\
     bcryptCompare aenv password hash = true /\
     signin aenv b db
     = mkAccountResponse 200
         (ABToken (jwtSign aenv (mkPayload (u_id user) (u_username user)))))
  /\
  (ar_status (signin aenv b db) = 401 -> signin aenv b db = invalidCredentials)
  /\
  (forall username password,
     signinSchema b = Some (username, password) ->
     accountFails aenv UserFindOne = false ->
     accountFails aenv BcryptCompare = false ->
     (findUserByName username (users (db_world db)) = None ->
      signin aenv b db = invalidCredentials)
     /\
     (forall user hash,
        findUserByName username (users (db_world db)) = Some user ->
        passwordOf (u_id user) (db_passwords db) = Some hash ->
        bcryptCompare aenv password hash = false ->
        signin aenv b db = invalidCredentials)).
Proof.
  split; [apply signin_ok|]. unfold signin. split.
  - destruct (signinSchema b) as [[username password]|]; [|discriminate].
    destruct (accountFails aenv UserFindOne); [discriminate|].
    destruct (findUserByName username (users (db_world db))) as [user|];
      [|reflexivity].
    destruct (passwordOf (u_id user) (db_passwords db)) as [hash|];
      [|discriminate].
    destruct (accountFails aenv BcryptCompare); [discriminate|].
    destruct (bcryptCompare aenv password hash); simpl; [|reflexivity].
    destruct (accountFails aenv JwtSign); discriminate.
  - intros username password -> -> Hc. split.
    + now intros ->.
    + intros user hash -> ->. rewrite Hc. now intros ->.
Qed.

Lemma signin_sound_witness :
  signin demoAccountEnv annBody emptyDb = invalidCredentials.
Proof.
  exact (proj1 (proj2 (signin_sound demoAccountEnv annBody emptyDb)) eq_refl).
Defined.

(** ** The middleware *)

Lemma split_no_space s : hasSpace s = false -> split " " s = [s].
Proof.
  unfold hasSpace.
  induction s as [|c s IH]; cbn [split list_ascii_of_string existsb];
    [reflexivity|].
  intros H. apply orb_false_iff in H. destruct H as [Hc Hs].
  destruct (Ascii.eqb_spec c " ") as [->|Hne].
  - rewrite Ascii.eqb_refl in Hc. discriminate.
  - now rewrite (IH Hs).
Qed.

(** [X23]: the middleware answers the "missing or malformed" 401 when
    there is no Authorization header or it does not start with
    [Bearer ]; for a header [Bearer <token>] whose token has no space,
    it passes on exactly when jsonwebtoken verifies that token, with the
    decoded payload as the user, and answers the "invalid or expired"
    401 otherwise. *)
Theorem middleware_checks_bearer_token (aenv : AccountEnv) :
  middlewareAuth aenv None = Rejected authMissing /\
  (forall header,
     String.prefix "Bearer " header = false ->
     middlewareAuth aenv (Some header) = Rejected authMissing) /\
  (forall token,
     hasSpace token = false ->
     middlewareAuth aenv (Some ("Bearer " ++ token)%string)
     = match jwtVerify aenv token with
       | Some decoded => Next decoded
       | None => Rejected authInvalid
       end).
Proof.
  split; [reflexivity|]. split.
  - intros header H. unfold middlewareAuth. now rewrite H.
  - intros token H. unfold middlewareAuth.
    replace (String.prefix "Bearer " ("Bearer " ++ token)) with true.
    + cbn -[split]. cbn [split]. simpl Ascii.eqb. cbv iota.
      rewrite (split_no_space _ H). reflexivity.
    + cbn. now destruct token.
Qed.

Lemma middleware_checks_bearer_token_witness :
  middlewareAuth demoAccountEnv (Some "Bearer header.payload.signature")
  = Next (mkPayload 0 "ann").
Proof.
  exact (proj2 (proj2 (middleware_checks_bearer_token demoAccountEnv))
           "header.payload.signature" eq_refl).
Defined.

(** [X24]: a token that signin has just issued, sent as
    [Bearer <token>], passes the middleware, and the user it sets is the
    stored user who signed in; provided the token has no space and
    jsonwebtoken verifies the token it signed for that user. *)
Theorem issued_token_authenticates (aenv : AccountEnv) (b : CredentialsBody)
    (db : Db) (token : string) :
  signin aenv b db = mkAccountResponse 200 (ABToken token) ->
  hasSpace token = false ->
  (forall payload,
     jwtSign aenv payload = token -> jwtVerify aenv token = Some payload) ->
  exists username user,
    cb_username b = Some username /\
    findUserByName username (users (db_world db)) = Some user /\
    middlewareAuth aenv (Some ("Bearer " ++ token)%string)
    = Next (mkPayload (u_id user) (u_username user)).
Proof.
  intros Hin Hsp Hjwt.
  assert (Hok : ar_status (signin aenv b db) = 200) by now rewrite Hin.
  apply signin_ok in Hok.
  destruct Hok as (username & password & user & hash & Hu & _ & Hf & _ & _ & E).
  rewrite Hin in E. injection E as Ht.
  exists username, user. repeat split; try assumption.
  unfold middlewareAuth.
  replace (String.prefix "Bearer " ("Bearer " ++ token)) with true
    by (cbn; now destruct token).
  cbn -[split]. cbn [split]. simpl Ascii.eqb. cbv iota.
  rewrite (split_no_space _ Hsp). cbn [nth_error].
  now rewrite (Hjwt (mkPayload (u_id user) (u_username user))).
Qed.

Lemma issued_token_authenticates_witness :
  exists username user,
    cb_username annBody = Some username /\
    findUserByName username
      (users (db_world (snd (signup demoAccountEnv annBody emptyDb))))
    = Some user /\
    middlewareAuth demoAccountEnv (Some "Bearer header.payload.signature")
    = Next (mkPayload (u_id user) (u_username user)).
Proof.
  apply (issued_token_authenticates demoAccountEnv annBody
           (snd (signup demoAccountEnv annBody emptyDb))
           "header.payload.signature" eq_refl eq_refl).
  intros [id name]. simpl.
  destruct (Nat.eqb_spec id 0) as [->|]; [|discriminate].
  destruct (String.eqb_spec name "ann") as [->|]; [reflexivity | discriminate].
Defined.

(** ** The embedding service, again *)

Module EmbeddingMore.

Import EmbeddingService.

Lemma step_after_load e s m :
  embedder s = Some m ->
  pipelineCalls (step e s) = pipelineCalls s /\
  exists m', embedder (step e s) = Some m'.
Proof.
  intros H. destruct e as [i|i]; unfold step;
    destruct (nth_error (callers s) i) as [[| | |]|]; simpl;
    rewrite ?H; simpl; split; try reflexivity; eauto.
Qed.

Lemma run_after_load schedule : forall s m,
  embedder s = Some m ->
  pipelineCalls (run schedule s) = pipelineCalls s /\
  exists m', embedder (run schedule s) = Some m'.
Proof.
  unfold run. induction schedule as [|e schedule IH]; intros s m H; simpl.
  - split; [reflexivity | eauto].
  - destruct (step_after_load e s m H) as [Hc [m' Hm']].
    destruct (IH _ _ Hm') as [Hc' Hm'']. split; [congruence | exact Hm''].
Qed.

Lemma nth_error_setCaller i c : forall cs,
  i < List.length cs -> nth_error (setCaller i c cs) i = Some c.
Proof.
  induction i as [|i IH]; intros [|x cs] H; simpl in *; try lia.
  - reflexivity.
  - apply IH. lia.
Qed.

Lemma nth_error_repeat {A} (x : A) n i :
  i < n -> nth_error (repeat x n) i = Some x.
Proof.
  revert i. induction n as [|n IH]; intros [|i] H; simpl; try lia.
  - reflexivity.
  - apply IH. lia.
Qed.

End EmbeddingMore.

(** [X25]: once [embedder] is set it stays set, and no later call of
    [getEmbedding] starts a load, in whatever order calls arrive and
    resume. *)
Theorem no_load_once_embedder_set
    (schedule : list EmbeddingService.Event) (s : EmbeddingService.State)
    (m : nat) :
  EmbeddingService.embedder s = Some m ->
  EmbeddingService.pipelineCalls (EmbeddingService.run schedule s)
  = EmbeddingService.pipelineCalls s /\
  EmbeddingService.embedder (EmbeddingService.run schedule s) <> None.
Proof.
  intros H. destruct (EmbeddingMore.run_after_load schedule s m H) as [Hc [m' Hm']].
  split; [exact Hc | congruence].
Qed.

Lemma no_load_once_embedder_set_witness :
  EmbeddingService.pipelineCalls
    (EmbeddingService.run
       [EmbeddingService.Call 1; EmbeddingService.Call 2;
        EmbeddingService.Resume 2; EmbeddingService.Resume 1]
       (EmbeddingService.mkState (Some 0) 1
          [EmbeddingService.Returned 0; EmbeddingService.NotCalled;
           EmbeddingService.NotCalled]))
  = 1.
Proof.
  exact (proj1 (no_load_once_embedder_set
                  [EmbeddingService.Call 1; EmbeddingService.Call 2;
                   EmbeddingService.Resume 2; EmbeddingService.Resume 1]
                  (EmbeddingService.mkState (Some 0) 1
                     [EmbeddingService.Returned 0; EmbeddingService.NotCalled;
                      EmbeddingService.NotCalled])
                  0 eq_refl)).
Defined.

(** [X26]: when the load started by the first caller completes before
    any other caller calls, exactly one load is started, whatever calls
    and resumptions follow. *)
Theorem one_load_when_first_completes (n i : nat)
    (rest : list EmbeddingService.Event) :
  i < n ->
  EmbeddingService.pipelineCalls
    (EmbeddingService.run
       (EmbeddingService.Call i :: EmbeddingService.Resume i :: rest)
       (EmbeddingService.init n))
  = 1.
Proof.
  intros Hi.
  change (EmbeddingService.run
            (EmbeddingService.Call i :: EmbeddingService.Resume i :: rest)
            (EmbeddingService.init n))
    with (EmbeddingService.run rest
            (EmbeddingService.step (EmbeddingService.Resume i)
               (EmbeddingService.step (EmbeddingService.Call i)
                  (EmbeddingService.init n)))).
  assert (H1 : EmbeddingService.step (EmbeddingService.Call i)
                 (EmbeddingService.init n)
               = EmbeddingService.mkState None 1
                   (EmbeddingService.setCaller i
                      (EmbeddingService.AwaitPipeline 0)
                      (repeat EmbeddingService.NotCalled n))).
  { unfold EmbeddingService.step, EmbeddingService.init. simpl.
    now rewrite EmbeddingMore.nth_error_repeat. }
  rewrite H1.
  assert (H2 : EmbeddingService.step (EmbeddingService.Resume i)
                 (EmbeddingService.mkState None 1
                    (EmbeddingService.setCaller i
                       (EmbeddingService.AwaitPipeline 0)
                       (repeat EmbeddingService.NotCalled n)))
               = EmbeddingService.mkState (Some 0) 1
                   (EmbeddingService.setCaller i
                      (EmbeddingService.AwaitEmbedder 0)
                      (EmbeddingService.setCaller i
                         (EmbeddingService.AwaitPipeline 0)
                         (repeat EmbeddingService.NotCalled n)))).
  { unfold EmbeddingService.step. simpl.
    rewrite EmbeddingMore.nth_error_setCaller; [reflexivity|].
    now rewrite repeat_length. }
  rewrite H2.
  match goal with
  | |- EmbeddingService.pipelineCalls (EmbeddingService.run rest ?s) = 1 =>
      destruct (EmbeddingMore.run_after_load rest s 0 eq_refl) as [Hc _]
  end.
  now rewrite Hc.
Qed.

Lemma one_load_when_first_completes_witness :
  EmbeddingService.pipelineCalls
    (EmbeddingService.run
       [EmbeddingService.Call 0; EmbeddingService.Resume 0;
        EmbeddingService.Call 1; EmbeddingService.Call 2]
       (EmbeddingService.init 3))
  = 1.
Proof.
  exact (one_load_when_first_completes 3 0
           [EmbeddingService.Call 1; EmbeddingService.Call 2] ltac:(lia)).
Defined.

(** ** Vectors and their documents *)

Lemma upsertVector_inv r vs x :
  In x (upsertVector r vs) -> x = r \/ In x vs.
Proof.
  unfold upsertVector. destruct (existsb _ vs).
  - intros H. apply in_map_iff in H. destruct H as (y & Hy & Hin).
    destruct (v_id y =? v_id r); [left; now symmetry | right; now subst].
  - intros H. apply in_app_or in H. destruct H as [H|[<-|[]]]; auto.
Qed.

(** [X27]: [addItem] never leaves a vector without its document: if
    every record of the index has a document with its identifier, this
    still holds after the request, however it ends (the document is
    saved before the vector is upserted under the document's
    identifier). *)
Theorem add_keeps_vectors_owned (env : Env) (req : AddRequest) (w : World) :
  vecInv w -> vecInv (snd (postContent env req w)).
Proof.
  intros Hinv. rewrite postContent_unfold.
  destruct (createContent env req w) as [[[c0 v] | r | ] w1] eqn:E.
  - apply createContent_val in E.
    destruct E as (titles & _ & Hc & Hv & _).
    assert (Hinv1 : vecInv w1).
    { intros r Hr. rewrite Hv in Hr. destruct (Hinv r Hr) as (c & Hin & Hid).
      exists c. rewrite Hc. split; [apply in_or_app; now left | exact Hid]. }
    assert (Hc0 : In c0 (contents w1)).
    { rewrite Hc. apply in_or_app. right. now left. }
    simpl. unfold indexContent, bind, update, call, ret.
    destruct (fails env PineconeUpsert); [exact Hinv1|].
    assert (Hinv2 : forall r,
               In r (upsertVector
                       (mkVectorRecord (c_id c0) v
                          (mkMetadata (c_userId c0) (c_link c0) (c_type c0)
                             (c_title c0))) (vectors w1)) ->
               exists c, In c (contents w1) /\ c_id c = v_id r).
    { intros r Hr. apply upsertVector_inv in Hr. destruct Hr as [->|Hr].
      - now exists c0.
      - now apply Hinv1. }
    destruct (fails env ContentBackfill); simpl.
    + exact Hinv2.
    + intros r Hr. simpl in Hr. destruct (Hinv2 r Hr) as (c & Hin & Hid).
      exists (if c_id c =? c_id c0 then setEmbeddingId (Some (c_id c0)) c else c).
      split.
      * unfold updateEmbeddingId. apply in_map_iff. now exists c.
      * now destruct (c_id c =? c_id c0).
  - simpl. apply createContent_not_val in E; [|discriminate].
    destruct E as [(_ & Hc & Hv) _]. intros x Hx. rewrite Hv in Hx.
    rewrite Hc. now apply Hinv.
  - simpl. apply createContent_not_val in E; [|discriminate].
    destruct E as [(_ & Hc & Hv) _]. intros x Hx. rewrite Hv in Hx.
    rewrite Hc. now apply Hinv.
Qed.

Lemma vecInv_sharedTagWorld : vecInv sharedTagWorld.
Proof.
  intros r [<-|[<-|[]]]; simpl.
  - eexists. split; [left; reflexivity | reflexivity].
  - eexists. split; [right; left; reflexivity | reflexivity].
Qed.

Lemma add_keeps_vectors_owned_witness :
  vecInv (snd (postContent (failingAt isContentBackfill demoEnv)
                 (demoAdd "https://youtu.be/abc12345678" ["y"]) sharedTagWorld)).
Proof. exact (add_keeps_vectors_owned _ _ _ vecInv_sharedTagWorld). Defined.
